(** * Dispatch and caching core of thunder/common.py

    A shallow embedding of the fingerprint engine ([_make_subkey_for],
    [_make_cache_key]), the cache manager ([cache_put], [cache_get]), the
    trace builder ([trace]), the dispatcher ([_create_callable]'s [_fn]) and
    the module adapter ([ThunderOptimizedModule.__call__]), followed by the
    properties of the design document that concern them. *)

From stdpp Require Import base decidable option list strings gmap.
From Stdlib Require Import Ascii ZArith Lia.

Set Default Proof Using "Type".
Set Warnings "-register-all".
Local Open Scope Z_scope.

(** ** Runtime values *)

(** [collections.abc.Sequence] classes other than [str]. *)
Inductive seq_class := Tuple | PyList.

(** Objects for which [isinstance(x, Hashable)] holds and that are neither
    tensors, arrays, strings nor collections.  [SObject] is an instance of a
    user class with the default identity hash.  Floating-point numbers are
    not part of the universe. *)
Inductive scalar :=
| SInt (n : Z)
| SBool (b : bool)
| SNone
| SObject (cls : string) (ident : N).

(** What [type(x)] returns on a [scalar]. *)
Inductive pytype :=
| TyInt
| TyBool
| TyNoneType
| TyClass (cls : string).

Definition type_of (v : scalar) : pytype :=
  match v with
  | SInt _ => TyInt
  | SBool _ => TyBool
  | SNone => TyNoneType
  | SObject cls _ => TyClass cls
  end.

(** The values a compiled function is called with.  A [torch.Tensor] carries
    its metadata and its storage (the numeric contents); [VDict] stands for
    the collections that are not sequences; [VUnhashable] is an object whose
    class sets [__hash__] to [None] and that is no collection. *)
Inductive pyvalue :=
| VTensor (shape : list Z) (device dtype : string) (requires_grad : bool)
          (storage : list Z)
| VNdarray (shape : list Z) (storage : list Z)
| VStr (s : string)
| VSeq (cls : seq_class) (xs : list pyvalue)
| VDict (items : list (string * pyvalue))
| VScalar (v : scalar)
| VUnhashable (cls : string) (ident : N).

Definition kwargs_t := list (string * pyvalue).

(** Induction over values that reaches the elements of sequences and the
    values of dictionaries. *)
Section pyvalue_induction.
Variable P : pyvalue -> Prop.
Hypothesis Htensor : forall sh dev dt rg st, P (VTensor sh dev dt rg st).
Hypothesis Hndarray : forall sh st, P (VNdarray sh st).
Hypothesis Hstr : forall s, P (VStr s).
Hypothesis Hseq : forall cls xs, Forall P xs -> P (VSeq cls xs).
Hypothesis Hdict : forall items, Forall (fun kv => P kv.2) items -> P (VDict items).
Hypothesis Hscalar : forall v, P (VScalar v).
Hypothesis Hunhashable : forall cls i, P (VUnhashable cls i).

Fixpoint pyvalue_nested_ind (x : pyvalue) : P x :=
  match x with
  | VTensor sh dev dt rg st => Htensor sh dev dt rg st
  | VNdarray sh st => Hndarray sh st
  | VStr s => Hstr s
  | VSeq cls xs =>
      Hseq cls xs
        ((fix go (l : list pyvalue) : Forall P l :=
            match l with
            | [] => @List.Forall_nil _ P
            | y :: l' => @List.Forall_cons _ P y l' (pyvalue_nested_ind y) (go l')
            end) xs)
  | VDict items =>
      Hdict items
        ((fix go (l : list (string * pyvalue)) : Forall (fun kv => P kv.2) l :=
            match l with
            | [] => @List.Forall_nil _ _
            | kv :: l' =>
                @List.Forall_cons _ (fun kv => P kv.2) kv l' (pyvalue_nested_ind kv.2) (go l')
            end) items)
  | VScalar v => Hscalar v
  | VUnhashable cls i => Hunhashable cls i
  end.
End pyvalue_induction.

(** ** Fingerprints *)

(** The first component of what [_make_subkey_for] returns: one of the
    Python objects [True], [False] and [None]. *)
Inductive pyflag := PyTrue | PyFalse | PyNone.

(** Python truthiness, as tested by [if not is_hashable]. *)
Definition truthy (f : pyflag) : bool :=
  match f with PyTrue => true | _ => false end.

(** Python's [a and b]. *)
Definition py_and (a b : pyflag) : pyflag := if truthy a then b else a.

(** The second component: the sub-key.  [KTensor] is the tuple
    [(torch.Tensor, shape, device, dtype, requires_grad)], [KStr] is
    [(str, x)], [KScalar] is [(type(x), x)], [KTuple] is [tuple(key)] and
    [KKwarg] is [(key_key, _key_value_separator, value_key)].  [KNone] and
    [KFalse] are the objects [None] and [False] returned next to a flag that
    is not true. *)
Inductive key :=
| KNone
| KFalse
| KTensor (shape : list Z) (device dtype : string) (requires_grad : bool)
| KStr (s : string)
| KTuple (ks : list key)
| KScalar (ty : pytype) (v : scalar)
| KKwarg (key_key value_key : key).

(** The loop shared by the sequence rule and by [_make_cache_key]: sub-keys
    are collected in order and the first element whose flag is not truthy
    ends the loop. *)
Definition subkeys_with {A} (f : A -> pyflag * key) : list A -> option (list key) :=
  fix go (xs : list A) : option (list key) :=
    match xs with
    | [] => Some []
    | v :: xs' =>
        let '(is_hashable, subkey) := f v in
        if negb (truthy is_hashable) then None
        else match go xs' with
             | Some ks => Some (subkey :: ks)
             | None => None
             end
    end.

Fixpoint _make_subkey_for (x : pyvalue) : pyflag * key :=
  match x with
  | VTensor shape device dtype requires_grad _ =>
      (PyTrue, KTensor shape device dtype requires_grad)
  | VNdarray _ _ => (PyFalse, KNone)
  | VStr s => (PyTrue, KStr s)
  | VSeq _ xs =>
      match subkeys_with _make_subkey_for xs with
      | None => (PyNone, KFalse)
      | Some ks => (PyTrue, KTuple ks)
      end
  | VDict _ => (PyFalse, KNone)
  | VScalar v => (PyTrue, KScalar (type_of v) v)
  | VUnhashable _ _ => (PyFalse, KNone)
  end.

Definition kwarg_helper (k : string) (value : pyvalue) : pyflag * key :=
  let '(is_key_hashable, key_key) := _make_subkey_for (VStr k) in
  let '(is_value_hashable, value_key) := _make_subkey_for value in
  (py_and is_key_hashable is_value_hashable, KKwarg key_key value_key).

(** [None] is the indeterminate fingerprint. *)
Definition _make_cache_key (args : list pyvalue) (kwargs : kwargs_t)
  : option (list key) :=
  match subkeys_with _make_subkey_for args with
  | None => None
  | Some ks =>
      match subkeys_with (fun kv => kwarg_helper kv.1 kv.2) kwargs with
      | None => None
      | Some kks => Some (ks ++ kks)
      end
  end.

(** Equality of fingerprints is Python's [==] on the key tuples, hence
    structural. *)
#[global] Instance seq_class_eq_dec : EqDecision seq_class.
Proof. solve_decision. Defined.
#[global] Instance scalar_eq_dec : EqDecision scalar.
Proof. solve_decision. Defined.
#[global] Instance pytype_eq_dec : EqDecision pytype.
Proof. solve_decision. Defined.
#[global] Instance pyflag_eq_dec : EqDecision pyflag.
Proof. solve_decision. Defined.

#[global] Instance key_eq_dec : EqDecision key.
Proof.
  refine (fix go (a b : key) {struct a} : Decision (a = b) :=
            match a, b with
            | KNone, KNone => left _
            | KFalse, KFalse => left _
            | KTensor s d t r, KTensor s' d' t' r' =>
                cast_if_and4 (decide (s = s')) (decide (d = d'))
                             (decide (t = t')) (decide (r = r'))
            | KStr s, KStr s' => cast_if (decide (s = s'))
            | KTuple ks, KTuple ks' => cast_if (@list_eq_dec _ go ks ks')
            | KScalar ty v, KScalar ty' v' =>
                cast_if_and (decide (ty = ty')) (decide (v = v'))
            | KKwarg k v, KKwarg k' v' => cast_if_and (go k k') (go v v')
            | _, _ => right _
            end); congruence.
Defined.

(** ** The cache and the statistics object *)

(** Executables, traces and trace transforms are objects with an identity
    and no structure that this file looks into. *)
Inductive callable := Callable (ident : N).
Inductive TraceCtx := Trace (ident : nat).
Inductive transform := Transform (ident : N).

(** Where Python has [Any | TraceCtx]. *)
Inductive pyobj :=
| OValue (v : pyvalue)
| OTrace (t : TraceCtx).

(** A Python [dict]: distinct keys in insertion order.  [d.get(k)] is
    [dict_get] and [d[k] = v] is [dict_set], which keeps the position of a key
    that is already present. *)
Section dict.
Context {K V : Type} `{EqDecision K}.

Fixpoint dict_get (d : list (K * V)) (k : K) : option V :=
  match d with
  | [] => None
  | (k', v) :: d' => if decide (k = k') then Some v else dict_get d' k
  end.

Fixpoint dict_set (d : list (K * V)) (k : K) (v : V) : list (K * V) :=
  match d with
  | [] => [(k, v)]
  | (k', v') :: d' =>
      if decide (k = k') then (k', v) :: d' else (k', v') :: dict_set d' k v
  end.
End dict.

(** The cache maps a key to the pair [(fn, traces)].  Its keys are what
    [_make_cache_key] returns, so a Python dict could hold the key [None]. *)
Definition cache_entry := (option callable * option (list pyobj))%type.
Definition cache_t := list (option (list key) * cache_entry).

Definition cache_put (cache : cache_t) (fn : callable) (traces : option (list pyobj))
    (args : list pyvalue) (kwargs : kwargs_t) : bool * cache_t :=
  match _make_cache_key args kwargs with
  | None => (false, cache)
  | Some k => (true, dict_set cache (Some k) (Some fn, traces))
  end.

Definition cache_get (cache : cache_t) (args : list pyvalue) (kwargs : kwargs_t)
  : cache_entry :=
  let key := _make_cache_key args kwargs in
  default (None, None) (dict_get cache key).

Inductive CACHE_MODES := ALWAYS_TRACE | FIXED | DYNAMIC_STRIDES.

#[global] Instance CACHE_MODES_eq_dec : EqDecision CACHE_MODES.
Proof. solve_decision. Defined.

Definition string_to_cache_mode (s : string) : option CACHE_MODES :=
  if decide (s = "always trace")%string then Some ALWAYS_TRACE
  else if decide (s = "fixed")%string then Some FIXED
  else if decide (s = "dynamic strides")%string then Some DYNAMIC_STRIDES
  else None.

(** [CompileStats]: statistics and caches of one compiled function. *)
Record CompileStats := mkCompileStats {
  last_executed : option callable;
  last_traces : option (list pyobj);
  primal_trace : option pyobj;
  forward_last_traces : option (list pyobj);
  backward_last_traces : option (list pyobj);
  last_trace_host_start : Z;
  last_trace_host_stop : Z;
  last_trace_cache_start : Z;
  last_trace_cache_stop : Z;
  last_trace_tracing_start : Z;
  last_trace_tracing_stop : Z;
  last_trace_host_execution_start : Z;
  last_trace_host_execution_stop : Z;
  cache : cache_t;
  calls : Z;
  cache_hits : Z;
  cache_misses : Z
}.

(** [CompileStats.__init__]. *)
Definition CompileStats_init : CompileStats :=
  mkCompileStats None None None None None (-1) (-1) (-1) (-1) (-1) (-1) (-1) (-1) [] 0 0 0.

(** Attribute assignment [cs.field = v]. *)
Definition set_last_executed (v : option callable) (c : CompileStats) : CompileStats :=
  mkCompileStats v (last_traces c) (primal_trace c) (forward_last_traces c)
    (backward_last_traces c) (last_trace_host_start c) (last_trace_host_stop
    c) (last_trace_cache_start c) (last_trace_cache_stop c)
    (last_trace_tracing_start c) (last_trace_tracing_stop c)
    (last_trace_host_execution_start c) (last_trace_host_execution_stop c)
    (cache c) (calls c) (cache_hits c) (cache_misses c).
Definition set_last_traces (v : option (list pyobj)) (c : CompileStats) : CompileStats :=
  mkCompileStats (last_executed c) v (primal_trace c) (forward_last_traces
    c) (backward_last_traces c) (last_trace_host_start c)
    (last_trace_host_stop c) (last_trace_cache_start c)
    (last_trace_cache_stop c) (last_trace_tracing_start c)
    (last_trace_tracing_stop c) (last_trace_host_execution_start c)
    (last_trace_host_execution_stop c) (cache c) (calls c) (cache_hits c)
    (cache_misses c).
Definition set_last_trace_host_start (v : Z) (c : CompileStats) : CompileStats :=
  mkCompileStats (last_executed c) (last_traces c) (primal_trace c)
    (forward_last_traces c) (backward_last_traces c) v (last_trace_host_stop
    c) (last_trace_cache_start c) (last_trace_cache_stop c)
    (last_trace_tracing_start c) (last_trace_tracing_stop c)
    (last_trace_host_execution_start c) (last_trace_host_execution_stop c)
    (cache c) (calls c) (cache_hits c) (cache_misses c).
Definition set_last_trace_host_stop (v : Z) (c : CompileStats) : CompileStats :=
  mkCompileStats (last_executed c) (last_traces c) (primal_trace c)
    (forward_last_traces c) (backward_last_traces c) (last_trace_host_start
    c) v (last_trace_cache_start c) (last_trace_cache_stop c)
    (last_trace_tracing_start c) (last_trace_tracing_stop c)
    (last_trace_host_execution_start c) (last_trace_host_execution_stop c)
    (cache c) (calls c) (cache_hits c) (cache_misses c).
Definition set_last_trace_cache_start (v : Z) (c : CompileStats) : CompileStats :=
  mkCompileStats (last_executed c) (last_traces c) (primal_trace c)
    (forward_last_traces c) (backward_last_traces c) (last_trace_host_start
    c) (last_trace_host_stop c) v (last_trace_cache_stop c)
    (last_trace_tracing_start c) (last_trace_tracing_stop c)
    (last_trace_host_execution_start c) (last_trace_host_execution_stop c)
    (cache c) (calls c) (cache_hits c) (cache_misses c).
Definition set_last_trace_cache_stop (v : Z) (c : CompileStats) : CompileStats :=
  mkCompileStats (last_executed c) (last_traces c) (primal_trace c)
    (forward_last_traces c) (backward_last_traces c) (last_trace_host_start
    c) (last_trace_host_stop c) (last_trace_cache_start c) v
    (last_trace_tracing_start c) (last_trace_tracing_stop c)
    (last_trace_host_execution_start c) (last_trace_host_execution_stop c)
    (cache c) (calls c) (cache_hits c) (cache_misses c).
Definition set_last_trace_tracing_start (v : Z) (c : CompileStats) : CompileStats :=
  mkCompileStats (last_executed c) (last_traces c) (primal_trace c)
    (forward_last_traces c) (backward_last_traces c) (last_trace_host_start
    c) (last_trace_host_stop c) (last_trace_cache_start c)
    (last_trace_cache_stop c) v (last_trace_tracing_stop c)
    (last_trace_host_execution_start c) (last_trace_host_execution_stop c)
    (cache c) (calls c) (cache_hits c) (cache_misses c).
Definition set_last_trace_tracing_stop (v : Z) (c : CompileStats) : CompileStats :=
  mkCompileStats (last_executed c) (last_traces c) (primal_trace c)
    (forward_last_traces c) (backward_last_traces c) (last_trace_host_start
    c) (last_trace_host_stop c) (last_trace_cache_start c)
    (last_trace_cache_stop c) (last_trace_tracing_start c) v
    (last_trace_host_execution_start c) (last_trace_host_execution_stop c)
    (cache c) (calls c) (cache_hits c) (cache_misses c).
Definition set_last_trace_host_execution_start (v : Z) (c : CompileStats) : CompileStats :=
  mkCompileStats (last_executed c) (last_traces c) (primal_trace c)
    (forward_last_traces c) (backward_last_traces c) (last_trace_host_start
    c) (last_trace_host_stop c) (last_trace_cache_start c)
    (last_trace_cache_stop c) (last_trace_tracing_start c)
    (last_trace_tracing_stop c) v (last_trace_host_execution_stop c) (cache
    c) (calls c) (cache_hits c) (cache_misses c).
Definition set_last_trace_host_execution_stop (v : Z) (c : CompileStats) : CompileStats :=
  mkCompileStats (last_executed c) (last_traces c) (primal_trace c)
    (forward_last_traces c) (backward_last_traces c) (last_trace_host_start
    c) (last_trace_host_stop c) (last_trace_cache_start c)
    (last_trace_cache_stop c) (last_trace_tracing_start c)
    (last_trace_tracing_stop c) (last_trace_host_execution_start c) v (cache
    c) (calls c) (cache_hits c) (cache_misses c).
Definition set_cache (v : cache_t) (c : CompileStats) : CompileStats :=
  mkCompileStats (last_executed c) (last_traces c) (primal_trace c)
    (forward_last_traces c) (backward_last_traces c) (last_trace_host_start
    c) (last_trace_host_stop c) (last_trace_cache_start c)
    (last_trace_cache_stop c) (last_trace_tracing_start c)
    (last_trace_tracing_stop c) (last_trace_host_execution_start c)
    (last_trace_host_execution_stop c) v (calls c) (cache_hits c)
    (cache_misses c).
Definition set_calls (v : Z) (c : CompileStats) : CompileStats :=
  mkCompileStats (last_executed c) (last_traces c) (primal_trace c)
    (forward_last_traces c) (backward_last_traces c) (last_trace_host_start
    c) (last_trace_host_stop c) (last_trace_cache_start c)
    (last_trace_cache_stop c) (last_trace_tracing_start c)
    (last_trace_tracing_stop c) (last_trace_host_execution_start c)
    (last_trace_host_execution_stop c) (cache c) v (cache_hits c)
    (cache_misses c).
Definition set_cache_hits (v : Z) (c : CompileStats) : CompileStats :=
  mkCompileStats (last_executed c) (last_traces c) (primal_trace c)
    (forward_last_traces c) (backward_last_traces c) (last_trace_host_start
    c) (last_trace_host_stop c) (last_trace_cache_start c)
    (last_trace_cache_stop c) (last_trace_tracing_start c)
    (last_trace_tracing_stop c) (last_trace_host_execution_start c)
    (last_trace_host_execution_stop c) (cache c) (calls c) v (cache_misses
    c).
Definition set_cache_misses (v : Z) (c : CompileStats) : CompileStats :=
  mkCompileStats (last_executed c) (last_traces c) (primal_trace c)
    (forward_last_traces c) (backward_last_traces c) (last_trace_host_start
    c) (last_trace_host_stop c) (last_trace_cache_start c)
    (last_trace_cache_stop c) (last_trace_tracing_start c)
    (last_trace_tracing_stop c) (last_trace_host_execution_start c)
    (last_trace_host_execution_stop c) (cache c) (calls c) (cache_hits c) v.

(** ** Compiled-object data *)

Inductive LangCtx := Langctx (name : string).

(** [CompileData], with the attributes the dispatcher reads. *)
Record CompileData := mkCompileData {
  fn : callable;
  langctx : option LangCtx;
  executors_list : option (list string);
  cache_mode : CACHE_MODES;
  only_execute_prims : bool;
  use_rematerialization : bool;
  use_cudagraphs : bool;
  disable_torch_autograd_support : bool;
  num_constant_args : nat;
  processed_function : callable
}.

(** ** Exceptions and the state of a call *)

Inductive exn := Exn (cls : string) (msg : string).

Inductive outcome (A : Type) :=
| Returned (a : A)
| Raised (e : exn).
Arguments Returned {A} a.
Arguments Raised {A} e.

(** The collaborators of the dispatcher: the clock, the executables, the
    autograd wrapper, the pieces of the tracing pipeline and the lowering
    pipeline.  Each acts on an external world [W], where the contents of the
    trace objects live too, and may raise; none of them writes the
    statistics object or the context stacks, which are the business of this
    file.  [proxied] is what [_unpack_inputs] returns and [traced] what the
    function under trace returns. *)
Class Collaborators (W : Type) := {
  proxied : Type;
  traced : Type;
  (** the n-th reading of [time.time_ns()] *)
  time_ns_at : nat -> Z;
  (** the call of [c] on [args] and [kwargs] *)
  call : callable -> list pyvalue -> kwargs_t -> W -> outcome pyvalue * W;
  (** [thunder_backward(compile_data=cd, ...)(fn)] *)
  thunder_backward : CompileData -> callable -> W -> outcome callable * W;
  (** [_unpack_inputs(fn, trace, args, kwargs, rename_proxies=...)], taken
      as one step that turns the inputs into proxies, records the unpacking
      in the trace and may raise *)
  _unpack_inputs :
    callable -> TraceCtx -> list pyvalue -> kwargs_t -> bool -> W -> outcome proxied * W;
  (** [trace.args, trace.kwargs = proxyargs, proxykwargs] *)
  set_trace_args : TraceCtx -> proxied -> W -> W;
  (** [tree_map(ddp_sync, (proxyargs, proxykwargs))] *)
  ddp_syncs : option CompileData -> proxied -> W -> outcome proxied * W;
  (** the call of [fn] on [proxyargs] and [proxykwargs] *)
  call_traced : callable -> proxied -> W -> outcome traced * W;
  (** [tree_map(wait_for_future, result)] when [trace._any_future_tensors] *)
  wait_for_futures : TraceCtx -> traced -> W -> outcome traced * W;
  (** [prims.python_return(result)] *)
  python_return : traced -> W -> outcome unit * W;
  (** [trace.set_output(result)] *)
  set_output : TraceCtx -> traced -> W -> outcome unit * W;
  (** [dce(trace)] *)
  dce : TraceCtx -> W -> outcome (TraceCtx * unit) * W;
  (** [transform(trc)] *)
  apply_transform : transform -> pyobj -> W -> outcome (pyobj * list pyobj) * W;
  (** [transform_for_execution(trc, executors_list=..., ...)] *)
  transform_for_execution :
    pyobj -> option (list string) -> bool -> bool -> W -> outcome (pyobj * list pyobj) * W;
  (** [extrace.python_callable()] *)
  python_callable : pyobj -> W -> outcome callable * W;
  (** [CUDAGraphExecutor(c, num_constant_args=...)] *)
  CUDAGraphExecutor : callable -> nat -> W -> outcome callable * W
}.

(** The state a call runs in: the statistics object, the two context stacks
    of the execution context registry, the number of clock readings and of
    [TraceCtx] objects constructed so far, and the external world. *)
Record state (W : Type) := mkState {
  cs : CompileStats;
  langctx_stack : list (option LangCtx);
  tracectx_stack : list TraceCtx;
  clock : nat;
  traces_built : nat;
  ext : W
}.
Arguments mkState {W}.
Arguments cs {W}.
Arguments langctx_stack {W}.
Arguments tracectx_stack {W}.
Arguments clock {W}.
Arguments traces_built {W}.
Arguments ext {W}.

Definition set_cs {W} (v : CompileStats) (s : state W) : state W :=
  mkState v (langctx_stack s) (tracectx_stack s) (clock s) (traces_built s) (ext s).
Definition set_langctx_stack {W} (v : list (option LangCtx)) (s : state W) : state W :=
  mkState (cs s) v (tracectx_stack s) (clock s) (traces_built s) (ext s).
Definition set_tracectx_stack {W} (v : list TraceCtx) (s : state W) : state W :=
  mkState (cs s) (langctx_stack s) v (clock s) (traces_built s) (ext s).
Definition set_clock {W} (v : nat) (s : state W) : state W :=
  mkState (cs s) (langctx_stack s) (tracectx_stack s) v (traces_built s) (ext s).
Definition set_traces_built {W} (v : nat) (s : state W) : state W :=
  mkState (cs s) (langctx_stack s) (tracectx_stack s) (clock s) v (ext s).
Definition set_ext {W} (v : W) (s : state W) : state W :=
  mkState (cs s) (langctx_stack s) (tracectx_stack s) (clock s) (traces_built s) v.

(** Computations that read and write the state and may raise: the state
    reached when an exception is raised is kept, as the mutations of a Python
    call are. *)
Definition M (St A : Type) : Type := St -> outcome A * St.

Definition ret {St A} (a : A) : M St A := fun s => (Returned a, s).
Definition raise {St A} (e : exn) : M St A := fun s => (Raised e, s).
Definition bind {St A B} (m : M St A) (k : A -> M St B) : M St B :=
  fun s =>
    match m s with
    | (Returned a, s') => k a s'
    | (Raised e, s') => (Raised e, s')
    end.

Declare Scope py_scope.
Delimit Scope py_scope with py.
Notation "x <- m ;; k" := (bind m (fun x => k))
  (at level 100, m at next level, right associativity) : py_scope.
Notation "m ;;; k" := (bind m (fun _ => k))
  (at level 100, right associativity) : py_scope.
Local Open Scope py_scope.

(** Reifies the exception of [m], for [try ... finally]. *)
Definition catch {St A} (m : M St A) : M St (outcome A) :=
  fun s => let '(r, s') := m s in (Returned r, s').

Definition reraise {St A} (r : outcome A) : M St A :=
  match r with
  | Returned a => ret a
  | Raised e => raise e
  end.

(** A step of a collaborator. *)
Definition lift {W A} (f : W -> outcome A * W) : M (state W) A :=
  fun s => let '(r, w) := f (ext s) in (r, set_ext w s).

Definition lift_pure {W} (f : W -> W) : M (state W) unit :=
  fun s => (Returned tt, set_ext (f (ext s)) s).

Definition get_cs {W} : M (state W) CompileStats := fun s => (Returned (cs s), s).
Definition modify_cs {W} (f : CompileStats -> CompileStats) : M (state W) unit :=
  fun s => (Returned tt, set_cs (f (cs s)) s).

(** [time.time_ns()] *)
Definition time_ns {W} `{Collaborators W} : M (state W) Z :=
  fun s => (Returned (time_ns_at (clock s)), set_clock (S (clock s)) s).

(** Modelled from the spec: [check(cond, msg, exception_type=...)] of
    thunder.core.utils, which is not part of the sources.  The condition
    failing is an error of the given class, fatal for that call. *)
Definition check {St} (cond : bool) (msg : string) (exception_type : string) : M St unit :=
  if cond then ret tt else raise (Exn exception_type msg).

Definition is_not_None {A} (o : option A) : bool :=
  match o with Some _ => true | None => false end.

(** ** Execution context registry *)

(** Modelled from the spec: the execution context registry of
    thunder.core.langctx and thunder.core.trace, which are not part of the
    sources.  Each registry is a scoped stack; setting a context returns an
    opaque restoration token and makes the context the active one, resetting
    restores what the token saved, and a read with nothing active yields
    none. *)
Definition langctx_token := list (option LangCtx).
Definition tracectx_token := list TraceCtx.

(** Modelled from the spec: [get_langctx()], the active language context or
    none. *)
Definition get_langctx {W} : M (state W) (option LangCtx) :=
  fun s => (Returned (default None (head (langctx_stack s))), s).

(** Modelled from the spec: [set_langctx(ctx)], which returns the token. *)
Definition set_langctx {W} (ctx : option LangCtx) : M (state W) langctx_token :=
  fun s => (Returned (langctx_stack s), set_langctx_stack (ctx :: langctx_stack s) s).

(** Modelled from the spec: [reset_langctx(token)]. *)
Definition reset_langctx {W} (token : langctx_token) : M (state W) unit :=
  fun s => (Returned tt, set_langctx_stack token s).

(** Modelled from the spec: [get_tracectx()], the active trace or none. *)
Definition get_tracectx {W} : M (state W) (option TraceCtx) :=
  fun s => (Returned (head (tracectx_stack s)), s).

(** Modelled from the spec: [set_tracectx(ctx)], which returns the token. *)
Definition set_tracectx {W} (ctx : TraceCtx) : M (state W) tracectx_token :=
  fun s => (Returned (tracectx_stack s), set_tracectx_stack (ctx :: tracectx_stack s) s).

(** Modelled from the spec: [reset_tracectx(token)]. *)
Definition reset_tracectx {W} (token : tracectx_token) : M (state W) unit :=
  fun s => (Returned tt, set_tracectx_stack token s).

(** [TraceCtx(fn)]: a new trace object. *)
Definition new_TraceCtx {W} (fn : callable) : M (state W) TraceCtx :=
  fun s => (Returned (Trace (traces_built s)), set_traces_built (S (traces_built s)) s).

(** ** Trace builder *)

Section tracing.
Context {W : Type} `{Collaborators W}.

(** The part of [_trace] that runs with the new trace active. *)
Definition trace_body (compile_data : option CompileData)
    (rename_proxies include_return_statement use_dce insert_ddp_syncs : bool)
    (fn : callable) (trace : TraceCtx) (args : list pyvalue) (kwargs : kwargs_t)
  : M (state W) pyobj :=
  proxyargs <- lift (_unpack_inputs fn trace args kwargs rename_proxies) ;;
  lift_pure (set_trace_args trace proxyargs) ;;;
  proxyargs <- (if insert_ddp_syncs then lift (ddp_syncs compile_data proxyargs)
                else ret proxyargs) ;;
  result <- lift (call_traced fn proxyargs) ;;
  result <- (if include_return_statement then
               result <- lift (wait_for_futures trace result) ;;
               lift (python_return result) ;;;
               ret result
             else ret result) ;;
  lift (set_output trace result) ;;;
  if use_dce then
    p <- lift (dce trace) ;;
    ret (OTrace p.1)
  else ret (OTrace trace).

(** [trace(compile_data, inline_trace, ...)(fn, args, kwargs)].  The
    [try] block is the computation whose exception [catch] reifies; it
    leaves the value of [tracectx_tok] for the [finally] block, which runs on
    every way out and then lets the exception go on. *)
Definition trace (compile_data : option CompileData)
    (inline_trace rename_proxies include_return_statement use_dce insert_ddp_syncs : bool)
    (fn : callable) (args : list pyvalue) (kwargs : kwargs_t) : M (state W) pyobj :=
  langctx_ <- match compile_data with
              | Some cd =>
                  match langctx cd with
                  | Some l => ret (Some l)
                  | None => get_langctx
                  end
              | None => get_langctx
              end ;;
  langctx_tok <- set_langctx langctx_ ;;
  current_trace <- get_tracectx ;;
  exit <- (if is_not_None current_trace && inline_trace then
             r <- catch (v <- lift (call fn args kwargs) ;; ret (OValue v)) ;;
             ret (None, r)
           else
             trace <- new_TraceCtx fn ;;
             tracectx_tok <- set_tracectx trace ;;
             r <- catch (trace_body compile_data rename_proxies
                           include_return_statement use_dce insert_ddp_syncs
                           fn trace args kwargs) ;;
             ret (Some tracectx_tok, r)) ;;
  reset_langctx langctx_tok ;;;
  match exit.1 with
  | Some tracectx_tok => reset_tracectx tracectx_tok
  | None => ret tt
  end ;;;
  reraise exit.2.

(** ** Dispatcher *)

(** [for transform in ts: trc, seq = transform(trc); traces.extend(seq)] *)
Fixpoint apply_transforms (ts : list transform) (trc : pyobj) (traces : list pyobj)
  : M (state W) (pyobj * list pyobj) :=
  match ts with
  | [] => ret (trc, traces)
  | t :: ts' =>
      p <- lift (apply_transform t trc) ;;
      apply_transforms ts' p.1 (traces ++ p.2)
  end.

Definition _execute_trace (trc : pyobj) (args : list pyvalue) (kwargs : kwargs_t)
    (compile_data : CompileData) (post_optimization_transforms : list transform)
  : M (state W) (pyvalue * callable * list pyobj) :=
  p <- lift (transform_for_execution trc (executors_list compile_data)
               (only_execute_prims compile_data)
               (use_rematerialization compile_data)) ;;
  q <- apply_transforms post_optimization_transforms p.1 p.2 ;;
  c <- lift (python_callable q.1) ;;
  c <- (if use_cudagraphs compile_data
        then lift (CUDAGraphExecutor c (num_constant_args compile_data))
        else ret c) ;;
  result <- lift (call c args kwargs) ;;
  ret (result, c, q.2).
End tracing.

(** Modelled from the spec: [tree_flatten] of thunder.core.pytree, which is
    not part of the sources.  The dispatcher determines whether any input
    requires gradient tracking, so the leaves are the values found by going
    through sequences and dictionaries. *)
Fixpoint tree_leaves (x : pyvalue) : list pyvalue :=
  match x with
  | VSeq _ xs => concat (map tree_leaves xs)
  | VDict items => concat (map (fun kv => tree_leaves kv.2) items)
  | _ => [x]
  end.

(** Modelled from the spec: [tree_flatten((args, kwargs))], the leaves of the
    positional and of the keyword arguments. *)
Definition tree_flatten (args : list pyvalue) (kwargs : kwargs_t) : list pyvalue :=
  concat (map tree_leaves args) ++ concat (map (fun kv => tree_leaves kv.2) kwargs).

(** [isinstance(arg, tensor_cls) and arg.requires_grad] *)
Definition is_grad_tensor (arg : pyvalue) : bool :=
  match arg with
  | VTensor _ _ _ requires_grad _ => requires_grad
  | _ => false
  end.

Section dispatch.
Context {W : Type} `{Collaborators W}.

(** The part of [_fn] after both cache lookups: the miss is counted, then
    the autograd branch or the tracing branch runs. *)
Definition _fn_miss (cd : CompileData)
    (transforms post_optimization_transforms : list transform)
    (args : list pyvalue) (kwargs : kwargs_t) : M (state W) pyobj :=
  modify_cs (fun c => set_cache_misses (cache_misses c + 1) c) ;;;
  t <- time_ns ;;
  modify_cs (set_last_trace_cache_stop t) ;;;
  let flat_args := tree_flatten args kwargs in
  let requires_grad := existsb is_grad_tensor flat_args in
  if negb (disable_torch_autograd_support cd) && requires_grad then
    t <- time_ns ;;
    modify_cs (set_last_trace_host_execution_start t) ;;;
    c <- lift (thunder_backward cd (processed_function cd)) ;;
    result <- lift (call c args kwargs) ;;
    t <- time_ns ;;
    modify_cs (set_last_trace_host_execution_stop t) ;;;
    modify_cs (set_last_executed (Some c)) ;;;
    (if decide (cache_mode cd = DYNAMIC_STRIDES) then
       modify_cs (fun s =>
         set_cache (cache_put (cache s) c None
                      (drop (num_constant_args cd) args) kwargs).2 s)
     else ret tt) ;;;
    t <- time_ns ;;
    modify_cs (set_last_trace_host_stop t) ;;;
    ret (OValue result)
  else
    t <- time_ns ;;
    modify_cs (set_last_trace_tracing_start t) ;;;
    trc_or_result <- trace (Some cd) true true true true false
                       (processed_function cd) args kwargs ;;
    t <- time_ns ;;
    modify_cs (set_last_trace_tracing_stop t) ;;;
    current_trace <- get_tracectx ;;
    check (negb (is_not_None current_trace) || (length transforms =? 0)%nat)
      "Inlining transformed traces is not yet supported" "NotImplementedError" ;;;
    if is_not_None current_trace then ret trc_or_result
    else
      let trc := trc_or_result in
      q <- apply_transforms transforms trc [trc] ;;
      t <- time_ns ;;
      modify_cs (set_last_trace_host_execution_start t) ;;;
      r <- _execute_trace q.1 args kwargs cd post_optimization_transforms ;;
      let result := r.1.1 in
      let c := r.1.2 in
      let extraces := r.2 in
      t <- time_ns ;;
      modify_cs (set_last_trace_host_execution_stop t) ;;;
      let traces := q.2 ++ extraces in
      modify_cs (set_last_traces (Some traces)) ;;;
      modify_cs (set_last_executed (Some c)) ;;;
      (if decide (cache_mode cd = DYNAMIC_STRIDES) then
         modify_cs (fun s =>
           set_cache (cache_put (cache s) c (Some traces)
                        (drop (num_constant_args cd) args) kwargs).2 s)
       else ret tt) ;;;
      t <- time_ns ;;
      modify_cs (set_last_trace_host_stop t) ;;;
      ret (OValue result).

(** The statistics updates and the run of [c] on a cache hit. *)
Definition _fn_hit (c : callable) (args : list pyvalue) (kwargs : kwargs_t)
  : M (state W) pyobj :=
  t <- time_ns ;;
  modify_cs (set_last_trace_cache_stop t) ;;;
  modify_cs (set_last_trace_tracing_start (-1)) ;;;
  modify_cs (set_last_trace_tracing_stop (-1)) ;;;
  t <- time_ns ;;
  modify_cs (set_last_trace_host_execution_start t) ;;;
  result <- lift (call c args kwargs) ;;
  t <- time_ns ;;
  modify_cs (set_last_trace_host_execution_stop t) ;;;
  modify_cs (fun s => set_last_trace_host_stop (last_trace_host_execution_stop s) s) ;;;
  ret (OValue result).

(** [_create_callable(cd, cs, transforms=..., post_optimization_transforms=...)]'s
    [_fn(args, kwargs)]; [cs] is the statistics object of the state. *)
Definition _fn (cd : CompileData)
    (transforms post_optimization_transforms : list transform)
    (args : list pyvalue) (kwargs : kwargs_t) : M (state W) pyobj :=
  t <- time_ns ;;
  modify_cs (set_last_trace_host_start t) ;;;
  modify_cs (fun c => set_calls (calls c + 1) c) ;;;
  t <- time_ns ;;
  modify_cs (set_last_trace_cache_start t) ;;;
  stats <- get_cs ;;
  match decide (cache_mode cd = FIXED), last_executed stats with
  | left _, Some last =>
      modify_cs (fun c => set_cache_hits (cache_hits c + 1) c) ;;;
      _fn_hit last args kwargs
  | _, _ =>
      if decide (cache_mode cd = DYNAMIC_STRIDES) then
        match (cache_get (cache stats) (drop (num_constant_args cd) args) kwargs).1 with
        | Some c =>
            modify_cs (fun c => set_cache_hits (cache_hits c + 1) c) ;;;
            modify_cs (set_last_executed (Some c)) ;;;
            _fn_hit c args kwargs
        | None => _fn_miss cd transforms post_optimization_transforms args kwargs
        end
      else _fn_miss cd transforms post_optimization_transforms args kwargs
  end.

(** Successive calls of the compiled function; the state left by a call,
    also by one that raised, is the state the next one starts in. *)
Fixpoint run_calls (cd : CompileData)
    (transforms post_optimization_transforms : list transform)
    (calls : list (list pyvalue * kwargs_t)) (s : state W) : state W :=
  match calls with
  | [] => s
  | (args, kwargs) :: rest =>
      run_calls cd transforms post_optimization_transforms rest
        (_fn cd transforms post_optimization_transforms args kwargs s).2
  end.
End dispatch.

(** ** Module adapter *)

(** The model and its submodules are [torch.nn.Module] objects in a store.
    A module keeps an attribute in one of four dictionaries: a registered
    parameter in [_parameters], a registered buffer in [_buffers], a child
    module in [_modules], anything else in the [__dict__] of the object. *)
Inductive slot := InParameters | InBuffers | InModules | InDict.

(** What an attribute holds: a reference to a child module, or a value
    together with the dictionary that holds it.  Values carry no attributes of
    their own, and no value of this file is a [torch.nn.Parameter] or a
    [Module]. *)
Inductive attr :=
| ARef (l : nat)
| AVal (sl : slot) (v : pyvalue).

Abbreviation object_store := (gmap nat (gmap string attr)).

(** The dictionary that holds the attribute [p] of the object [o]; a name
    that the object does not have yet goes to [__dict__]. *)
Definition slot_of (a : attr) : slot :=
  match a with
  | ARef _ => InModules
  | AVal sl _ => sl
  end.

Definition slot_at (o : gmap string attr) (p : string) : slot :=
  match o !! p with
  | Some a => slot_of a
  | None => InDict
  end.

(** [value is None] and [isinstance(value, torch.Tensor)] *)
Definition is_None (v : pyvalue) : bool :=
  match v with
  | VScalar SNone => true
  | _ => false
  end.

Definition is_Tensor (v : pyvalue) : bool :=
  match v with
  | VTensor _ _ _ _ _ => true
  | _ => false
  end.

(** [getattr(m, p)]; [None] is an [AttributeError]. *)
Definition getattr (h : object_store) (m : attr) (p : string) : option attr :=
  match m with
  | ARef l =>
      match h !! l with
      | Some o => o !! p
      | None => None
      end
  | AVal _ _ => None
  end.

(** The [TypeError] of [torch.nn.Module.__setattr__] for a name held by the
    dictionary [sl]. *)
Definition cannot_assign (sl : slot) : exn :=
  Exn "TypeError"
    match sl with
    | InParameters => "cannot assign as parameter (torch.nn.Parameter or None expected)"
    | InModules => "cannot assign as child module (torch.nn.Module or None expected)"
    | InBuffers | InDict => "cannot assign as buffer (torch.Tensor or None expected)"
    end.

(** [setattr(m, p, v)].  The model is a [torch.nn.Module] ([cd.is_module]),
    so this is the [__setattr__] of that class, of the torch library, for a
    value that is neither a parameter nor a module: a name registered as a
    parameter or as a child module takes [None] only, a name registered as a
    buffer takes [None] or a tensor, and the [TypeError] is raised before
    anything is written; every other name is set in [__dict__].  The value
    stays in the dictionary that held the name.  On what is no object of the
    store the call is an [AttributeError]. *)
Definition setattr (h : object_store) (m : attr) (p : string) (v : pyvalue)
  : outcome object_store :=
  match m with
  | ARef l =>
      match h !! l with
      | Some o =>
          let assign sl := Returned (<[l := <[p := AVal sl v]> o]> h) in
          match slot_at o p with
          | InParameters =>
              if is_None v then assign InParameters
              else Raised (cannot_assign InParameters)
          | InModules =>
              if is_None v then assign InModules
              else Raised (cannot_assign InModules)
          | InBuffers =>
              if is_None v || is_Tensor v then assign InBuffers
              else Raised (cannot_assign InBuffers)
          | InDict => assign InDict
          end
      | None => Raised (Exn "AttributeError" p)
      end
  | AVal _ _ => Raised (Exn "AttributeError" p)
  end.

(** [s.split(sep)] for a separator of one character. *)
Fixpoint split_on (sep : Ascii.ascii) (s : string) : list string :=
  match s with
  | EmptyString => [EmptyString]
  | String c s' =>
      if decide (c = sep) then EmptyString :: split_on sep s'
      else match split_on sep s' with
           | [] => [String c EmptyString]
           | p :: ps => String c p :: ps
           end
  end.

(** The items that iterating over a value yields; [None] when the value is
    not iterable.  A tensor or array is iterated along its first dimension. *)
Fixpoint chunks (n size : nat) (storage : list Z) : list (list Z) :=
  match n with
  | O => []
  | S n' => take size storage :: chunks n' size (drop size storage)
  end.

Definition numel (shape : list Z) : nat := Z.to_nat (foldr Z.mul 1 shape).

Definition py_iter (x : pyvalue) : option (list pyvalue) :=
  match x with
  | VTensor (d :: rest) device dtype requires_grad storage =>
      Some (map (VTensor rest device dtype requires_grad)
              (chunks (Z.to_nat d) (numel rest) storage))
  | VTensor [] _ _ _ _ => None
  | VNdarray (d :: rest) storage =>
      Some (map (VNdarray rest) (chunks (Z.to_nat d) (numel rest) storage))
  | VNdarray [] _ => None
  | VStr s => Some (map (fun c => VStr (String c EmptyString)) (String.list_ascii_of_string s))
  | VSeq _ xs => Some xs
  | VDict items => Some (map (fun kv => VStr kv.1) items)
  | VScalar _ => None
  | VUnhashable _ _ => None
  end.

(** [ThunderOptimizedModule]: the attributes set by [__init__] that do not
    change afterwards.  [_additional_param_values] is a list that [__call__]
    assigns into, so it is part of the state. *)
Record ThunderOptimizedModule := mkTOM {
  _model : attr;
  _additional_param_names : list string;
  _additional_return_names : list string;
  _additional_return_param_idxes : list nat
}.

(** [d = {k: i for i, k in enumerate(additional_param_names)}] *)
Definition param_index (additional_param_names : list string) : gmap string nat :=
  foldl (fun d ik => <[ik.2 := ik.1]> d) ∅ (imap pair additional_param_names).

(** [ThunderOptimizedModule.__init__]; [None] is the [KeyError] of [d[k]].
    The marking of the parameter values of a model that ddp wrapped is left
    out: the values of this file carry no ddp type. *)
Definition TOM_init (model : attr) (additional_param_names : list string)
    (additional_return_names : list string) : option ThunderOptimizedModule :=
  let d := param_index additional_param_names in
  match mapM (fun k => d !! k) additional_return_names with
  | Some idxes =>
      Some (mkTOM model additional_param_names additional_return_names idxes)
  | None => None
  end.

(** What a call of the adapter reads and writes: the object store of the
    model, the list [_additional_param_values], and the state [S] of the
    wrapped function. *)
Record tom_state (S : Type) := mkTomState {
  store : object_store;
  _additional_param_values : list pyvalue;
  inner : S
}.
Arguments mkTomState {S}.
Arguments store {S}.
Arguments _additional_param_values {S}.
Arguments inner {S}.

Section adapter.
Context {S : Type}.
(** [self._forward_fn] *)
Variable _forward_fn : list pyvalue -> kwargs_t -> S -> outcome pyvalue * S.

Definition call_forward (all_args : list pyvalue) (kwargs : kwargs_t)
  : M (tom_state S) pyvalue :=
  fun s =>
    let '(r, i) := _forward_fn all_args kwargs (inner s) in
    (r, mkTomState (store s) (_additional_param_values s) i).

(** [for p in parts: m = getattr(m, p)] *)
Fixpoint traverse (h : object_store) (m : attr) (parts : list string) : option attr :=
  match parts with
  | [] => Some m
  | p :: parts' =>
      match getattr h m p with
      | Some m' => traverse h m' parts'
      | None => None
      end
  end.

(** The body of the loop over [zip(names, additional_returns, idxes)]. *)
Definition write_back_one (tom : ThunderOptimizedModule) (k : string) (v : pyvalue)
    (idx : nat) : M (tom_state S) unit :=
  fun s =>
    let m := _model tom in
    let parts := split_on "."%char k in
    match traverse (store s) m (take (length parts - 1) parts) with
    | None => (Raised (Exn "AttributeError" k), s)
    | Some m =>
        match last parts with
        | None => (Raised (Exn "IndexError" k), s)
        | Some leaf =>
            match setattr (store s) m leaf v with
            | Raised e => (Raised e, s)
            | Returned h' =>
                let s' := mkTomState h' (_additional_param_values s) (inner s) in
                if decide (idx < length (_additional_param_values s))%nat then
                  (Returned tt,
                   mkTomState h' (<[idx := v]> (_additional_param_values s)) (inner s))
                else (Raised (Exn "IndexError" k), s')
            end
        end
    end.

Fixpoint write_back (tom : ThunderOptimizedModule)
    (items : list (string * pyvalue * nat)) : M (tom_state S) unit :=
  match items with
  | [] => ret tt
  | (k, v, idx) :: items' =>
      (write_back_one tom k v idx ;;; write_back tom items')%py
  end.

(** [ThunderOptimizedModule.__call__] *)
Definition __call__ (tom : ThunderOptimizedModule) (args : list pyvalue)
    (kwargs : kwargs_t) : M (tom_state S) pyvalue :=
  (fun s =>
     let all_args := _additional_param_values s ++ args in
     (res <- call_forward all_args kwargs ;;
      if negb (length (_additional_return_names tom) =? 0)%nat then
        match py_iter res with
        | None => raise (Exn "TypeError" "cannot unpack non-iterable object")
        | Some [] => raise (Exn "ValueError" "not enough values to unpack")
        | Some (res :: additional_returns) =>
            check (length (_additional_return_names tom) =? length additional_returns)%nat
              "Number of expected additional return args does not match the actual number"
              "AssertionError" ;;;
            write_back tom
              (zip (zip (_additional_return_names tom) additional_returns)
                 (_additional_return_param_idxes tom)) ;;;
            ret res
        end
      else ret res)%py s).
End adapter.

(** ** Notions used by the properties *)

Definition outcome_map {A B} (f : A -> B) (r : outcome A) : outcome B :=
  match r with
  | Returned a => Returned (f a)
  | Raised e => Raised e
  end.

(** [keeps p m]: running [m] leaves the component [p] of the state as it
    was, whether [m] returns or raises. *)
Definition keeps {St A X} (p : St -> X) (m : M St A) : Prop :=
  forall s, p (m s).2 = p s.

(** The language context that [trace] activates. *)
Definition resolved_langctx {W} (compile_data : option CompileData) (s : state W)
  : option LangCtx :=
  match compile_data with
  | Some cd =>
      match langctx cd with
      | Some l => Some l
      | None => default None (head (langctx_stack s))
      end
  | None => default None (head (langctx_stack s))
  end.

(** The state in which [trace] builds a new trace: the language context and
    the new trace object are the active ones. *)
Definition tracing_state {W} (compile_data : option CompileData) (s : state W) : state W :=
  set_tracectx_stack (Trace (traces_built s) :: tracectx_stack s)
    (set_traces_built (S (traces_built s))
       (set_langctx_stack (resolved_langctx compile_data s :: langctx_stack s) s)).

(** Whether [_fn] takes the autograd branch on a miss. *)
Definition autograd_branch (cd : CompileData) (args : list pyvalue) (kwargs : kwargs_t)
  : bool :=
  negb (disable_torch_autograd_support cd)
  && existsb is_grad_tensor (tree_flatten args kwargs).

(** The state in which [_fn] decides between hit and miss: the start of the
    call and of the cache phase are recorded and the call is counted. *)
Definition entered {W} `{Collaborators W} (s : state W) : state W :=
  set_cs
    (set_last_trace_cache_start (time_ns_at (S (clock s)))
       (set_calls (calls (cs s) + 1)
          (set_last_trace_host_start (time_ns_at (clock s)) (cs s))))
    (set_clock (S (S (clock s))) s).


(** [parts[:-1]] of [k.split(".")] *)
Definition prefix_parts (k : string) : list string :=
  let parts := split_on "."%char k in take (length parts - 1) parts.

(** The object and the attribute name that the write for the name [k] goes
    to. *)
Definition target (h : object_store) (model : attr) (k : string) : option (attr * string) :=
  match traverse h model (prefix_parts k), last (split_on "."%char k) with
  | Some m, Some leaf => Some (m, leaf)
  | _, _ => None
  end.

(** The attributes that [traverse] reads, as pairs of an object and a name. *)
Fixpoint reads (h : object_store) (m : attr) (parts : list string) : list (nat * string) :=
  match parts, m with
  | p :: parts', ARef l =>
      (l, p) :: match getattr h m p with
                | Some m' => reads h m' parts'
                | None => []
                end
  | _, _ => []
  end.

(** The writes for the names [names] do not get in each other's way: each
    name leads to an attribute of an object of the store, no write goes to an
    attribute that the traversal for a name reads, and no two names lead to
    the same attribute. *)
Definition writes_apart (h : object_store) (model : attr) (names : list string) : Prop :=
  Forall (fun k => exists l leaf o, target h model k = Some (ARef l, leaf) /\ h !! l = Some o) names
  /\ (forall k k' l leaf, k ∈ names -> k' ∈ names ->
        target h model k' = Some (ARef l, leaf) ->
        (l, leaf) ∉ reads h model (prefix_parts k))
  /\ NoDup (target h model <$> names).

(** Whether [setattr] takes the value [v] for a name that the dictionary
    [sl] holds. *)
Definition accepts (sl : slot) (v : pyvalue) : bool :=
  match sl with
  | InParameters | InModules => is_None v
  | InBuffers => is_None v || is_Tensor v
  | InDict => true
  end.

(** The name [k] leads to an attribute of a module of the store that takes
    the value [v]: it is not registered as a parameter or as a child module,
    and [v] is a tensor when it is registered as a buffer ([None] is taken
    everywhere). *)
Definition assignable (h : object_store) (model : attr) (k : string) (v : pyvalue) : bool :=
  match target h model k with
  | Some (ARef l, leaf) =>
      match h !! l with
      | Some o => accepts (slot_at o leaf) v
      | None => false
      end
  | _ => false
  end.

(** The error of the assertion on the number of extra returns. *)
Definition extra_returns_mismatch : exn :=
  Exn "AssertionError"
    "Number of expected additional return args does not match the actual number".

(** Two values that agree in everything a fingerprint may look at: tensors
    with the same shape, device, dtype and requires_grad flag, whatever their
    storage holds; equal strings; equal scalars; sequences of the same class
    whose elements agree in turn. *)
Inductive same_meta : pyvalue -> pyvalue -> Prop :=
| same_meta_tensor shape device dtype requires_grad storage storage' :
    same_meta (VTensor shape device dtype requires_grad storage)
              (VTensor shape device dtype requires_grad storage')
| same_meta_str s : same_meta (VStr s) (VStr s)
| same_meta_scalar v : same_meta (VScalar v) (VScalar v)
| same_meta_seq cls xs ys :
    Forall2 same_meta xs ys -> same_meta (VSeq cls xs) (VSeq cls ys).

Definition same_meta_kwargs (kwargs kwargs' : kwargs_t) : Prop :=
  Forall2 (fun kv kv' => kv.1 = kv'.1 /\ same_meta kv.2 kv'.2) kwargs kwargs'.

(** A value for which no fingerprint rule exists, or a sequence that holds
    one at any depth. *)
Fixpoint has_no_rule (x : pyvalue) : bool :=
  match x with
  | VNdarray _ _ => true
  | VDict _ => true
  | VUnhashable _ _ => true
  | VSeq _ xs => existsb has_no_rule xs
  | VTensor _ _ _ _ _ => false
  | VStr _ => false
  | VScalar _ => false
  end.

(** The caches a compiled function can hold: the empty dictionary of
    [CompileStats.__init__] and what [cache_put] makes of such a cache. *)
Inductive cache_built : cache_t -> Prop :=
| cache_built_empty : cache_built []
| cache_built_put cache fn traces args kwargs :
    cache_built cache ->
    cache_built (cache_put cache fn traces args kwargs).2.

(** Collaborators for the examples.  The world is the log of the steps the
    collaborators performed; the executable numbered 13 raises, every other
    one returns its number. *)
Definition log_call (c : callable) (w : list string) : outcome pyvalue * list string :=
  match c with
  | Callable 13 => (Raised (Exn "RuntimeError" "executable 13"), w ++ ["call"%string])
  | Callable n => (Returned (VScalar (SInt (Z.of_N n))), w ++ ["call"%string])
  end.

#[global] Instance log_collaborators : Collaborators (list string) := {|
  proxied := list pyvalue * kwargs_t;
  traced := pyvalue;
  time_ns_at := fun n => 1000 + Z.of_nat n;
  call := fun c _ _ w => log_call c w;
  thunder_backward := fun _ _ w => (Returned (Callable 7), w ++ ["thunder_backward"%string]);
  _unpack_inputs := fun _ _ args kwargs _ w => (Returned (args, kwargs), w ++ ["unpack"%string]);
  set_trace_args := fun _ _ w => w;
  ddp_syncs := fun _ p w => (Returned p, w ++ ["ddp_syncs"%string]);
  call_traced := fun c _ w => log_call c (w ++ ["traced"%string]);
  wait_for_futures := fun _ r w => (Returned r, w);
  python_return := fun _ w => (Returned tt, w ++ ["python_return"%string]);
  set_output := fun _ _ w => (Returned tt, w);
  dce := fun t w => (Returned (t, tt), w ++ ["dce"%string]);
  apply_transform := fun _ trc w => (Returned (trc, [trc]), w ++ ["transform"%string]);
  transform_for_execution := fun trc _ _ _ w =>
    (Returned (trc, [trc]), w ++ ["transform_for_execution"%string]);
  python_callable := fun _ w => (Returned (Callable 5), w ++ ["python_callable"%string]);
  CUDAGraphExecutor := fun c _ w => (Returned c, w ++ ["cudagraphs"%string])
|}.

Definition example_cd (mode : CACHE_MODES) : CompileData :=
  mkCompileData (Callable 1) None None mode false false false false 1 (Callable 2).

Definition example_state (stats : CompileStats) (traces : list TraceCtx)
  : state (list string) :=
  mkState stats [] traces 0 0 [].

Definition example_tensor (requires_grad : bool) (storage : list Z) : pyvalue :=
  VTensor [2] "cpu" "float32" requires_grad storage.

(** An adapter for the examples: the model is object 0 with the registered
    parameter [w], the registered buffer [steps] and the child module [bn],
    object 1, which holds the registered buffers [running_mean] and
    [running_var]. *)
Definition example_store : object_store :=
  {[ 0%nat := {[ "w"%string := AVal InParameters (example_tensor true [1; 2]);
                 "steps"%string := AVal InBuffers (example_tensor false [0; 0]);
                 "bn"%string := ARef 1 ]};
     1%nat := {[ "running_mean"%string := AVal InBuffers (example_tensor false [0; 0]);
                 "running_var"%string := AVal InBuffers (example_tensor false [1; 1]) ]} ]}.

Definition example_param_names : list string :=
  ["w"; "steps"; "bn.running_mean"; "bn.running_var"]%string.

Definition example_tom : ThunderOptimizedModule :=
  mkTOM (ARef 0) example_param_names
    ["bn.running_mean"; "bn.running_var"]%string [2%nat; 3%nat].

Definition example_tom_state : tom_state unit :=
  mkTomState example_store
    [example_tensor true [1; 2]; example_tensor false [0; 0];
     example_tensor false [0; 0]; example_tensor false [1; 1]] tt.

(** A wrapped function that returns a result and [extras] new values. *)
Definition example_forward (extras : list pyvalue) (all_args : list pyvalue)
    (kwargs : kwargs_t) (i : unit) : outcome pyvalue * unit :=
  (Returned (VSeq Tuple (VScalar (SInt 1) :: extras)), i).

(** What a fingerprint keeps of a value: the storage of a tensor and the
    class of a sequence are dropped, everything else stays. *)
Fixpoint erase_contents (x : pyvalue) : pyvalue :=
  match x with
  | VTensor shape device dtype requires_grad _ =>
      VTensor shape device dtype requires_grad []
  | VSeq _ xs => VSeq Tuple (map erase_contents xs)
  | _ => x
  end.

Definition erase_kwargs (kwargs : kwargs_t) : kwargs_t :=
  map (fun kv => (kv.1, erase_contents kv.2)) kwargs.

(** Every positional and every keyword argument has a fingerprint rule. *)
Definition all_have_rules (args : list pyvalue) (kwargs : kwargs_t) : Prop :=
  Forall (fun x => has_no_rule x = false) args
  /\ Forall (fun kv => has_no_rule kv.2 = false) kwargs.

(** The executable that the two lookups at the start of [_fn] find: the
    last one executed in FIXED mode, else the one cached under the key of
    the call in DYNAMIC_STRIDES mode. *)
Definition cached_executable (cd : CompileData) (stats : CompileStats)
    (args : list pyvalue) (kwargs : kwargs_t) : option callable :=
  match decide (cache_mode cd = FIXED), last_executed stats with
  | left _, Some last => Some last
  | _, _ =>
      if decide (cache_mode cd = DYNAMIC_STRIDES)
      then (cache_get (cache stats) (drop (num_constant_args cd) args) kwargs).1
      else None
  end.

(** A later reading of the clock is not earlier. *)
Definition clock_monotone {W} `{Collaborators W} : Prop :=
  forall n, time_ns_at n <= time_ns_at (S n).

(** Two states that differ at most in the statistics object and in the
    clock: the world of the collaborators, the two context stacks and the
    number of trace objects built are the same. *)
Definition same_world {W} (s s' : state W) : Prop :=
  ext s = ext s' /\ traces_built s = traces_built s'
  /\ tracectx_stack s = tracectx_stack s' /\ langctx_stack s = langctx_stack s'.

(** Collaborators for the examples whose [_unpack_inputs] raises; the other
    steps are those of [log_collaborators]. *)
Definition unpack_raises_collaborators : Collaborators (list string) := {|
  proxied := list pyvalue * kwargs_t;
  traced := pyvalue;
  time_ns_at := fun n => 1000 + Z.of_nat n;
  call := fun c _ _ w => log_call c w;
  thunder_backward := fun _ _ w => (Returned (Callable 7), w ++ ["thunder_backward"%string]);
  _unpack_inputs := fun _ _ _ _ _ w =>
    (Raised (Exn "ValueError" "cannot unpack"), w ++ ["unpack"%string]);
  set_trace_args := fun _ _ w => w;
  ddp_syncs := fun _ p w => (Returned p, w ++ ["ddp_syncs"%string]);
  call_traced := fun c _ w => log_call c (w ++ ["traced"%string]);
  wait_for_futures := fun _ r w => (Returned r, w);
  python_return := fun _ w => (Returned tt, w ++ ["python_return"%string]);
  set_output := fun _ _ w => (Returned tt, w);
  dce := fun t w => (Returned (t, tt), w ++ ["dce"%string]);
  apply_transform := fun _ trc w => (Returned (trc, [trc]), w ++ ["transform"%string]);
  transform_for_execution := fun trc _ _ _ w =>
    (Returned (trc, [trc]), w ++ ["transform_for_execution"%string]);
  python_callable := fun _ w => (Returned (Callable 5), w ++ ["python_callable"%string]);
  CUDAGraphExecutor := fun c _ w => (Returned c, w ++ ["cudagraphs"%string])
|}.

(** A compiled function whose processed function is the executable that
    raises. *)
Definition example_cd_raising (mode : CACHE_MODES) : CompileData :=
  mkCompileData (Callable 1) None None mode false false false false 1 (Callable 13).

(** An adapter for the examples with no extra-return names. *)
Definition example_tom_plain : ThunderOptimizedModule :=
  mkTOM (ARef 0) example_param_names [] [].

(** * Properties *)

(** ** Fingerprint engine *)

Lemma subkeys_with_cons {A} (f : A -> pyflag * key) (x : A) (xs : list A) :
  subkeys_with f (x :: xs) =
  if truthy (f x).1
  then match subkeys_with f xs with
       | Some ks => Some ((f x).2 :: ks)
       | None => None
       end
  else None.
Proof. simpl. destruct (f x) as [flag k]. simpl. by destruct (truthy flag). Qed.

Lemma subkeys_with_Some {A} (f : A -> pyflag * key) (xs : list A) (ks : list key) :
  subkeys_with f xs = Some ks <->
  Forall (fun x => truthy (f x).1 = true) xs /\ ks = map (fun x => (f x).2) xs.
Proof.
  revert ks. induction xs as [|x xs IH]; intros ks.
  - simpl. split.
    + intros [= <-]. split; [constructor | reflexivity].
    + intros [_ ->]. reflexivity.
  - rewrite subkeys_with_cons.
    destruct (truthy (f x).1) eqn:Ht.
    + destruct (subkeys_with f xs) as [ks'|].
      * destruct (IH ks') as [IH1 _]. destruct (IH1 eq_refl) as [Hall ->].
        split.
        -- intros [= <-]. split; [by constructor | done].
        -- intros [_ ->]. reflexivity.
      * split; [done |].
        intros [Hall ->]. inversion Hall as [|? ? _ Hall']; subst.
        destruct (IH (map (fun x => (f x).2) xs)) as [_ IH2].
        discriminate IH2. by split.
    + split; [done |].
      intros [Hall _]. inversion Hall as [|? ? Hx _]; subst. congruence.
Qed.

Lemma subkeys_with_None {A} (f : A -> pyflag * key) (xs : list A) :
  subkeys_with f xs = None <-> Exists (fun x => truthy (f x).1 = false) xs.
Proof.
  induction xs as [|x xs IH].
  - simpl. split; [done | by inversion 1].
  - rewrite subkeys_with_cons.
    destruct (truthy (f x).1) eqn:Ht.
    + destruct (subkeys_with f xs) as [ks'|].
      * split; [done |]. inversion 1 as [? ? Hx|? ? Hx]; subst.
        -- congruence.
        -- apply IH in Hx. done.
      * split; [| done]. intros _. apply Exists_cons_tl. by apply IH.
    + split; [| done]. intros _. by apply Exists_cons_hd.
Qed.

Lemma subkeys_with_forallb {A} (f : A -> pyflag * key) (xs : list A) :
  subkeys_with f xs =
  if forallb (fun x => truthy (f x).1) xs
  then Some (map (fun x => (f x).2) xs) else None.
Proof.
  induction xs as [|x xs IH]; [done |].
  rewrite subkeys_with_cons, IH. simpl.
  destruct (truthy (f x).1); [| done].
  by destruct (forallb _ xs).
Qed.

Lemma subkeys_with_elem_None {A} (f : A -> pyflag * key) (pre post : list A) (x : A) :
  truthy (f x).1 = false -> subkeys_with f (pre ++ x :: post) = None.
Proof.
  intros Hx. apply subkeys_with_None. apply Exists_app. right.
  by apply Exists_cons_hd.
Qed.

Lemma make_cache_key_arg_None (pre post : list pyvalue) (x : pyvalue) (kwargs : kwargs_t) :
  truthy (_make_subkey_for x).1 = false ->
  _make_cache_key (pre ++ x :: post) kwargs = None.
Proof.
  intros Hx. unfold _make_cache_key.
  by rewrite (subkeys_with_elem_None _make_subkey_for pre post x Hx).
Qed.

Lemma kwarg_helper_flag (k : string) (v : pyvalue) :
  (kwarg_helper k v).1 = (_make_subkey_for v).1.
Proof. unfold kwarg_helper. simpl. by destruct (_make_subkey_for v). Qed.

Lemma make_cache_key_kwarg_None (args : list pyvalue) (pre post : kwargs_t)
    (k : string) (x : pyvalue) :
  truthy (_make_subkey_for x).1 = false ->
  _make_cache_key args (pre ++ (k, x) :: post) = None.
Proof.
  intros Hx. unfold _make_cache_key.
  destruct (subkeys_with _make_subkey_for args); [| done].
  rewrite (subkeys_with_elem_None (fun kv => kwarg_helper kv.1 kv.2) pre post (k, x));
    [done |].
  simpl. by rewrite kwarg_helper_flag.
Qed.

Lemma make_subkey_seq (cls : seq_class) (xs : list pyvalue) :
  _make_subkey_for (VSeq cls xs) =
  if forallb (fun x => truthy (_make_subkey_for x).1) xs
  then (PyTrue, KTuple (map (fun x => (_make_subkey_for x).2) xs))
  else (PyNone, KFalse).
Proof.
  simpl. rewrite subkeys_with_forallb. by destruct (forallb _ xs).
Qed.

Lemma has_no_rule_falsy (x : pyvalue) :
  has_no_rule x = true -> truthy (_make_subkey_for x).1 = false.
Proof.
  induction x as [| | |cls xs IH| | |] using pyvalue_nested_ind; simpl; try done.
  intros Hex. apply existsb_exists in Hex as (y & Hy & Hno).
  assert (Hnone : subkeys_with _make_subkey_for xs = None).
  { apply subkeys_with_None. apply Exists_exists. exists y.
    split; [by apply list_elem_of_In |].
    rewrite Forall_forall in IH. apply IH; [by apply list_elem_of_In | done]. }
  by rewrite Hnone.
Qed.

Lemma same_meta_subkey (x y : pyvalue) :
  same_meta x y ->
  _make_subkey_for x = _make_subkey_for y /\ truthy (_make_subkey_for x).1 = true.
Proof.
  revert y.
  induction x as [| | |cls xs IH| | |] using pyvalue_nested_ind;
    intros y Hsame; inversion Hsame; subst; simpl; try done.
  match goal with Hf : Forall2 same_meta xs ?ys |- _ => rename Hf into Hxs end.
  assert (Hboth : subkeys_with _make_subkey_for xs = subkeys_with _make_subkey_for ys
                  /\ is_Some (subkeys_with _make_subkey_for xs)).
  { clear Hsame. induction Hxs as [|a b xs' ys' Hab Hrest IHrest]; [by eauto |].
    inversion IH as [|? ? Ha IH']; subst.
    destruct (Ha b Hab) as [Heq Ht].
    destruct (IHrest IH') as [Heq' [ks Hks]].
    rewrite !subkeys_with_cons, <- Heq, <- Heq', Ht, Hks. by eauto. }
  destruct Hboth as [Heq [ks Hks]]. rewrite <- Heq, Hks. done.
Qed.

Lemma same_meta_kwarg_helper (k : string) (x y : pyvalue) :
  same_meta x y ->
  kwarg_helper k x = kwarg_helper k y /\ truthy (kwarg_helper k x).1 = true.
Proof.
  intros Hsame. destruct (same_meta_subkey x y Hsame) as [Heq Ht].
  rewrite kwarg_helper_flag. split; [| done].
  unfold kwarg_helper. by rewrite Heq.
Qed.

(** C3.  The sub-key of a torch tensor is the tuple of the tensor tag, the
    shape, the device, the dtype and the requires_grad flag, whatever the
    storage holds; and two calls whose positional and keyword arguments are
    tensors, scalars, strings and sequences that agree in that metadata get
    the same fingerprint, which is determinate. *)
Theorem fingerprint_ignores_tensor_contents
    (args args' : list pyvalue) (kwargs kwargs' : kwargs_t) :
  Forall2 same_meta args args' ->
  same_meta_kwargs kwargs kwargs' ->
  (forall shape device dtype requires_grad storage,
      _make_subkey_for (VTensor shape device dtype requires_grad storage)
      = (PyTrue, KTensor shape device dtype requires_grad))
  /\ _make_cache_key args kwargs = _make_cache_key args' kwargs'
  /\ is_Some (_make_cache_key args kwargs).
Proof.
  intros Hargs Hkw. split; [done |].
  assert (Ha : subkeys_with _make_subkey_for args = subkeys_with _make_subkey_for args'
               /\ is_Some (subkeys_with _make_subkey_for args)).
  { induction Hargs as [|a b xs ys Hab _ IH]; [by eauto |].
    destruct (same_meta_subkey a b Hab) as [Heq Ht].
    destruct IH as [Heq' [ks Hks]].
    rewrite !subkeys_with_cons, <- Heq, <- Heq', Ht, Hks. by eauto. }
  assert (Hk : subkeys_with (fun kv => kwarg_helper kv.1 kv.2) kwargs
               = subkeys_with (fun kv => kwarg_helper kv.1 kv.2) kwargs'
               /\ is_Some (subkeys_with (fun kv => kwarg_helper kv.1 kv.2) kwargs)).
  { induction Hkw as [|[k a] [k' b] xs ys [Hkk Hab] _ IH]; [by eauto |].
    simpl in Hkk, Hab. subst k'.
    destruct (same_meta_kwarg_helper k a b Hab) as [Heq Ht].
    destruct IH as [Heq' [ks Hks]].
    rewrite !subkeys_with_cons. simpl. rewrite <- Heq, <- Heq', Ht, Hks. by eauto. }
  destruct Ha as [Ha [ks Hks]]. destruct Hk as [Hk [kks Hkks]].
  unfold _make_cache_key. rewrite <- Ha, <- Hk, Hks, Hkks. by eauto.
Qed.

Lemma fingerprint_ignores_tensor_contents_witness :
  _make_cache_key
    [example_tensor true [1; 2]; VSeq Tuple [VStr "a"; VScalar (SInt 3)]]
    [("w"%string, example_tensor false [5; 6])]
  = _make_cache_key
      [example_tensor true [7; 8]; VSeq Tuple [VStr "a"; VScalar (SInt 3)]]
      [("w"%string, example_tensor false [0; 0])].
Proof.
  refine (proj1 (proj2 (fingerprint_ignores_tensor_contents _ _ _ _ _ _))).
  - repeat constructor.
  - repeat constructor.
Defined.

(** C8.  The sub-key of a sequence is the tuple of the sub-keys of its
    elements, in order; when an element is indeterminate the flag returned
    for the sequence is not truthy, so that a caller of [_make_subkey_for]
    (an enclosing sequence) and [_make_cache_key] (for a positional or a
    keyword argument) report the indeterminate fingerprint; and a string gets
    the single sub-key of the str tag and its value, no tuple of sub-keys of
    its characters. *)
Theorem sequence_subkey_elementwise (cls : seq_class) (xs : list pyvalue) :
  _make_subkey_for (VSeq cls xs) =
    (if forallb (fun x => truthy (_make_subkey_for x).1) xs
     then (PyTrue, KTuple (map (fun x => (_make_subkey_for x).2) xs))
     else (PyNone, KFalse))
  /\ (Exists (fun x => truthy (_make_subkey_for x).1 = false) xs ->
      truthy (_make_subkey_for (VSeq cls xs)).1 = false
      /\ (forall cls' pre post,
             truthy (_make_subkey_for (VSeq cls' (pre ++ VSeq cls xs :: post))).1 = false)
      /\ (forall pre post kwargs,
             _make_cache_key (pre ++ VSeq cls xs :: post) kwargs = None)
      /\ (forall args pre post k,
             _make_cache_key args (pre ++ (k, VSeq cls xs) :: post) = None))
  /\ (forall s,
         _make_subkey_for (VStr s) = (PyTrue, KStr s)
         /\ forall ks, (_make_subkey_for (VStr s)).2 <> KTuple ks).
Proof.
  split; [apply make_subkey_seq |]. split; [| done].
  intros Hex.
  assert (Hseq : truthy (_make_subkey_for (VSeq cls xs)).1 = false).
  { simpl. apply subkeys_with_None in Hex. by rewrite Hex. }
  split; [done |]. split; [| split].
  - intros cls' pre post. simpl.
    by rewrite (subkeys_with_elem_None _make_subkey_for pre post _ Hseq).
  - intros pre post kwargs. by apply make_cache_key_arg_None.
  - intros args pre post k. by apply make_cache_key_kwarg_None.
Qed.

Lemma sequence_subkey_elementwise_witness :
  _make_cache_key [VScalar (SInt 1); VSeq PyList [VStr "a"; VNdarray [1] [4]]] [] = None.
Proof.
  refine (proj1 (proj2 (proj2 (proj1 (proj2
    (sequence_subkey_elementwise PyList [VStr "a"; VNdarray [1] [4]])) _)))
    [VScalar (SInt 1)] [] []).
  apply Exists_cons_tl, Exists_cons_hd. reflexivity.
Defined.

(** ** Cache manager *)

Lemma dict_get_set_eq {K V} `{EqDecision K} (d : list (K * V)) (k : K) (v : V) :
  dict_get (dict_set d k v) k = Some v.
Proof.
  induction d as [|[k' v'] d IH]; simpl.
  - by rewrite decide_True.
  - destruct (decide (k = k')) as [->|Hne]; simpl.
    + by rewrite decide_True.
    + by rewrite decide_False.
Qed.

Lemma dict_get_set_ne {K V} `{EqDecision K} (d : list (K * V)) (k k' : K) (v : V) :
  k <> k' -> dict_get (dict_set d k v) k' = dict_get d k'.
Proof.
  intros Hne. induction d as [|[k0 v0] d IH]; simpl.
  - by rewrite decide_False.
  - destruct (decide (k = k0)) as [->|Hne0]; simpl.
    + by rewrite !decide_False.
    + destruct (decide (k' = k0)); [done | apply IH].
Qed.

Lemma dict_set_keys {K V} `{EqDecision K} (P : K -> Prop) (d : list (K * V)) (k : K) (v : V) :
  P k -> Forall (fun e => P e.1) d -> Forall (fun e => P e.1) (dict_set d k v).
Proof.
  intros Hk. induction 1 as [|[k' v'] d Hk' Hd IH]; simpl.
  - by repeat constructor.
  - destruct (decide (k = k')); constructor; done.
Qed.

Lemma dict_get_absent {K V} `{EqDecision K} (d : list (K * V)) (k : K) :
  Forall (fun e => e.1 <> k) d -> dict_get d k = None.
Proof.
  induction 1 as [|[k' v'] d Hk' Hd IH]; simpl; [done |].
  simpl in Hk'. by rewrite decide_False.
Qed.

Lemma cache_built_keys (cache : cache_t) :
  cache_built cache -> Forall (fun e => e.1 <> None) cache.
Proof.
  induction 1 as [|cache fn traces args kwargs _ IH]; [constructor |].
  unfold cache_put. destruct (_make_cache_key args kwargs); simpl; [| done].
  by apply (dict_set_keys (fun k => k <> None)).
Qed.

Lemma make_cache_key_no_rule (args : list pyvalue) (kwargs : kwargs_t) :
  Exists (fun x => has_no_rule x = true) args
  \/ Exists (fun kv => has_no_rule kv.2 = true) kwargs ->
  _make_cache_key args kwargs = None.
Proof.
  intros [Hex|Hex]; apply Exists_exists in Hex as (x & Hin & Hno);
    apply list_elem_of_split in Hin as (pre & post & ->);
    apply has_no_rule_falsy in Hno.
  - by apply make_cache_key_arg_None.
  - destruct x as [k v]. by apply make_cache_key_kwarg_None.
Qed.

(** ** How computations compose *)

Lemma bind_inv {St A B} (m : M St A) (k : A -> M St B) s r s' :
  bind m k s = (r, s') ->
  (exists a s1, m s = (Returned a, s1) /\ k a s1 = (r, s'))
  \/ (exists e, m s = (Raised e, s') /\ r = Raised e).
Proof.
  unfold bind. destruct (m s) as [[a|e] s1]; intros Heq.
  - left. by exists a, s1.
  - right. exists e. by simplify_eq.
Qed.

Section keeps.
Context {St X : Type} (p : St -> X).

Lemma keeps_ret {A} (a : A) : keeps p (ret a).
Proof. done. Qed.

Lemma keeps_raise {A} (e : exn) : keeps p (@raise St A e).
Proof. done. Qed.

Lemma keeps_bind {A B} (m : M St A) (k : A -> M St B) :
  keeps p m -> (forall a, keeps p (k a)) -> keeps p (bind m k).
Proof.
  intros Hm Hk s. unfold bind. specialize (Hm s).
  destruct (m s) as [[a|e] s1]; simpl in *; [| done].
  by rewrite Hk.
Qed.

Lemma keeps_catch {A} (m : M St A) : keeps p m -> keeps p (catch m).
Proof. intros Hm s. unfold catch. specialize (Hm s). by destruct (m s). Qed.

Lemma keeps_reraise {A} (r : outcome A) : keeps p (reraise r).
Proof. by destruct r. Qed.

Lemma keeps_check cond msg cls : keeps p (check cond msg cls).
Proof. by destruct cond. Qed.
End keeps.

Section keeps_state.
Context {W : Type} `{Collaborators W} {X : Type} (p : state W -> X).

Lemma keeps_lift {A} (f : W -> outcome A * W) :
  (forall w s, p (set_ext w s) = p s) -> keeps p (lift f).
Proof. intros Hp s. unfold lift. destruct (f (ext s)). apply Hp. Qed.

Lemma keeps_lift_pure (f : W -> W) :
  (forall w s, p (set_ext w s) = p s) -> keeps p (lift_pure f).
Proof. intros Hp s. apply Hp. Qed.

Lemma keeps_time_ns :
  (forall n s, p (set_clock n s) = p s) -> keeps p time_ns.
Proof. intros Hp s. apply Hp. Qed.

Lemma keeps_modify_cs (f : CompileStats -> CompileStats) :
  (forall c s, p (set_cs c s) = p s) -> keeps p (modify_cs f).
Proof. intros Hp s. apply Hp. Qed.

Lemma keeps_get_cs : keeps p get_cs.
Proof. done. Qed.

Lemma keeps_get_tracectx : keeps p get_tracectx.
Proof. done. Qed.

Lemma keeps_get_langctx : keeps p get_langctx.
Proof. done. Qed.

Lemma keeps_trace_body compile_data rename ret_stmt use_dce ddp fn trace args kwargs :
  (forall w s, p (set_ext w s) = p s) ->
  keeps p (trace_body compile_data rename ret_stmt use_dce ddp fn trace args kwargs).
Proof.
  intros Hp. unfold trace_body.
  repeat first
    [ apply keeps_bind; [| intros ?]
    | apply keeps_ret
    | by apply keeps_lift
    | by apply keeps_lift_pure
    | match goal with |- keeps _ (if ?b then _ else _) => destruct b end ].
Qed.

Lemma keeps_apply_transforms ts trc traces :
  (forall w s, p (set_ext w s) = p s) ->
  keeps p (apply_transforms ts trc traces).
Proof.
  intros Hp. revert trc traces.
  induction ts as [|t ts IH]; intros trc traces; simpl; [apply keeps_ret |].
  apply keeps_bind; [by apply keeps_lift | intros ?; apply IH].
Qed.

Lemma keeps_execute_trace trc args kwargs cd post :
  (forall w s, p (set_ext w s) = p s) ->
  keeps p (_execute_trace trc args kwargs cd post).
Proof.
  intros Hp. unfold _execute_trace.
  repeat first
    [ apply keeps_bind; [| intros ?]
    | apply keeps_ret
    | by apply keeps_lift
    | by apply keeps_apply_transforms
    | match goal with |- keeps _ (if ?b then _ else _) => destruct b end ].
Qed.
End keeps_state.

(** ** Trace builder *)

Section trace_facts.
Context {W : Type} `{Collaborators W}.

Lemma trace_inlined compile_data rename ret_stmt use_dce ddp fn args kwargs s :
  tracectx_stack s <> [] ->
  trace compile_data true rename ret_stmt use_dce ddp fn args kwargs s =
  (outcome_map OValue (call fn args kwargs (ext s)).1,
   set_ext (call fn args kwargs (ext s)).2 s).
Proof.
  intros Hactive. unfold trace, bind.
  assert (Hl : exists l, (match compile_data with
                          | Some cd => match langctx cd with
                                       | Some l => ret (Some l)
                                       | None => get_langctx
                                       end
                          | None => get_langctx
                          end) s = (Returned l, s)).
  { destruct compile_data as [cd|]; [destruct (langctx cd) |]; by eauto. }
  destruct Hl as [l ->]. simpl.
  destruct (tracectx_stack s) as [|t ts] eqn:Hts; [done |]. simpl.
  unfold catch, bind, lift. simpl.
  destruct (call fn args kwargs (ext s)) as [[v|e] w]; simpl;
    destruct s; simpl in *; by rewrite Hts.
Qed.

Lemma trace_traced compile_data inline rename ret_stmt use_dce ddp fn args kwargs s :
  tracectx_stack s = [] \/ inline = false ->
  trace compile_data inline rename ret_stmt use_dce ddp fn args kwargs s =
  let run := trace_body compile_data rename ret_stmt use_dce ddp fn
               (Trace (traces_built s)) args kwargs (tracing_state compile_data s) in
  (run.1,
   set_tracectx_stack (tracectx_stack s) (set_langctx_stack (langctx_stack s) run.2)).
Proof.
  intros Hnew. unfold trace, bind.
  assert (Hl : (match compile_data with
                | Some cd => match langctx cd with
                             | Some l => ret (Some l)
                             | None => get_langctx
                             end
                | None => get_langctx
                end) s = (Returned (resolved_langctx compile_data s), s)).
  { unfold resolved_langctx.
    destruct compile_data as [cd|]; [destruct (langctx cd) |]; done. }
  rewrite Hl. simpl.
  assert (Hb : is_not_None (head (tracectx_stack s)) && inline = false).
  { destruct Hnew as [-> | ->]; [done | by rewrite andb_false_r]. }
  rewrite Hb. simpl. unfold catch. fold (tracing_state compile_data s).
  destruct (trace_body _ _ _ _ _ _ _ _ _ (tracing_state compile_data s))
    as [[r|e] s2]; done.
Qed.
End trace_facts.

Lemma trace_body_callable_raises {W} `{Collaborators W}
    compile_data rename ret_stmt use_dce (ddp : bool) fn t args kwargs (s : state W)
    p w p' w1 e w' :
  _unpack_inputs fn t args kwargs rename (ext s) = (Returned p, w) ->
  (if ddp then ddp_syncs compile_data p (set_trace_args t p w)
   else (Returned p, set_trace_args t p w)) = (Returned p', w1) ->
  call_traced fn p' w1 = (Raised e, w') ->
  (trace_body compile_data rename ret_stmt use_dce ddp fn t args kwargs s).1 = Raised e.
Proof.
  intros Hunpack Hddp Hcall. unfold trace_body, bind, lift, lift_pure.
  rewrite Hunpack. simpl.
  destruct ddp; simpl.
  - rewrite Hddp. simpl. by rewrite Hcall.
  - simplify_eq. simpl. by rewrite Hcall.
Qed.

(** C6.  Whatever the way out of [trace]'s inner function, the two context
    stacks are afterwards what they were before the call: the token of the
    language context is reset, and so is the token of the trace context when
    one was set.  When the call is inlined its outcome is that of the
    callable, an exception included, and no trace object is built; when a new
    trace is built the outcome is that of the block under [try], so that an
    exception raised by the traced callable reaches the caller as it is. *)
Theorem trace_restores_contexts {W} `{Collaborators W}
    compile_data (inline rename ret_stmt use_dce ddp : bool) fn args kwargs
    (s : state W) :
  let out := trace compile_data inline rename ret_stmt use_dce ddp fn args kwargs s in
  langctx_stack out.2 = langctx_stack s
  /\ tracectx_stack out.2 = tracectx_stack s
  /\ (tracectx_stack s <> [] -> inline = true ->
      out.1 = outcome_map OValue (call fn args kwargs (ext s)).1
      /\ traces_built out.2 = traces_built s)
  /\ (tracectx_stack s = [] \/ inline = false ->
      out.1 = (trace_body compile_data rename ret_stmt use_dce ddp fn
                 (Trace (traces_built s)) args kwargs
                 (tracing_state compile_data s)).1
      /\ forall p w p' w1 e w',
          _unpack_inputs fn (Trace (traces_built s)) args kwargs rename (ext s)
          = (Returned p, w) ->
          (if ddp
           then ddp_syncs compile_data p (set_trace_args (Trace (traces_built s)) p w)
           else (Returned p, set_trace_args (Trace (traces_built s)) p w))
          = (Returned p', w1) ->
          call_traced fn p' w1 = (Raised e, w') ->
          out.1 = Raised e).
Proof.
  intros out.
  destruct (decide (tracectx_stack s <> [] /\ inline = true)) as [[Hact ->]|Hnew].
  - subst out. rewrite (trace_inlined _ _ _ _ _ _ _ _ s Hact). simpl.
    split; [done |]. split; [done |]. split; [done |].
    intros [Hnil|Hf]; done.
  - assert (Hnew' : tracectx_stack s = [] \/ inline = false).
    { destruct (tracectx_stack s); [by left |].
      destruct inline; [| by right]. exfalso. by apply Hnew. }
    subst out. rewrite (trace_traced _ _ _ _ _ _ _ _ _ s Hnew'). simpl.
    split; [done |]. split; [done |]. split.
    + intros Hact ->. exfalso. by apply Hnew.
    + intros _. split; [done |].
      intros p w p' w1 e w' Hunpack Hddp Hcall.
      by eapply trace_body_callable_raises.
Qed.

Lemma trace_restores_contexts_witness :
  let s := example_state CompileStats_init [] in
  let out := trace (Some (example_cd ALWAYS_TRACE)) true true true true false
               (Callable 13) [VScalar (SInt 1)] [] s in
  out.1 = Raised (Exn "RuntimeError" "executable 13")
  /\ tracectx_stack out.2 = [] /\ langctx_stack out.2 = [].
Proof.
  intros s out.
  destruct (trace_restores_contexts (Some (example_cd ALWAYS_TRACE)) true true true
              true false (Callable 13) [VScalar (SInt 1)] [] s)
    as (Hlang & Htrace & _ & Hnew).
  destruct (Hnew (or_introl eq_refl)) as [_ Hraise].
  split; [| split; [exact Htrace | exact Hlang]].
  eapply Hraise; reflexivity.
Defined.

(** ** Dispatcher *)

Section dispatch_facts.
Context {W : Type} `{Collaborators W}.

Lemma trace_keeps compile_data (inline rename ret_stmt use_dce ddp : bool)
    fn args kwargs (s : state W) :
  let out := trace compile_data inline rename ret_stmt use_dce ddp fn args kwargs s in
  cs out.2 = cs s /\ langctx_stack out.2 = langctx_stack s
  /\ tracectx_stack out.2 = tracectx_stack s /\ clock out.2 = clock s.
Proof.
  intros out.
  destruct (decide (tracectx_stack s <> [] /\ inline = true)) as [[Hact ->]|Hnew].
  - subst out. by rewrite (trace_inlined _ _ _ _ _ _ _ _ s Hact).
  - assert (Hnew' : tracectx_stack s = [] \/ inline = false).
    { destruct (tracectx_stack s); [by left |].
      destruct inline; [| by right]. exfalso. by apply Hnew. }
    subst out. rewrite (trace_traced _ _ _ _ _ _ _ _ _ s Hnew'). simpl.
    split; [| split; [done | split; [done |]]].
    + by rewrite (keeps_trace_body cs).
    + by rewrite (keeps_trace_body clock).
Qed.

Lemma keeps_trace_all compile_data (inline rename ret_stmt use_dce ddp : bool)
    fn args kwargs :
  keeps cs (trace compile_data inline rename ret_stmt use_dce ddp fn args kwargs)
  /\ keeps tracectx_stack
       (trace compile_data inline rename ret_stmt use_dce ddp fn args kwargs)
  /\ keeps langctx_stack
       (trace compile_data inline rename ret_stmt use_dce ddp fn args kwargs).
Proof.
  repeat split; intros s;
    destruct (trace_keeps compile_data inline rename ret_stmt use_dce ddp
                fn args kwargs s) as (? & ? & ? & ?); done.
Qed.

Lemma run_facts {A} (m : M (state W) A) s r s1 :
  m s = (r, s1) ->
  keeps cs m -> keeps tracectx_stack m -> keeps langctx_stack m ->
  cs s1 = cs s /\ tracectx_stack s1 = tracectx_stack s
  /\ langctx_stack s1 = langctx_stack s.
Proof.
  intros Hm Hc Ht Hl. specialize (Hc s). specialize (Ht s). specialize (Hl s).
  rewrite Hm in Hc, Ht, Hl. done.
Qed.
End dispatch_facts.

(** Symbolic execution of a run [Hrun : m s = (r, s')]: [step] takes the
    first statement off [m]; the statements of this file are computed, those
    of the collaborators leave the facts that the statistics object and the
    context stacks are as before. *)
Ltac norm_state :=
  cbn [cs clock ext langctx_stack tracectx_stack traces_built
       set_cs set_clock set_ext set_langctx_stack set_tracectx_stack set_traces_built
       fst snd] in *.

Ltac prim Hm :=
  cbv [modify_cs time_ns get_tracectx get_cs ret raise] in Hm; simplify_eq; norm_state.

Ltac oracle Hm :=
  let Hf := fresh "Hf" in
  first
    [ pose proof (run_facts _ _ _ _ Hm
        (keeps_lift cs _ (fun _ _ => eq_refl))
        (keeps_lift tracectx_stack _ (fun _ _ => eq_refl))
        (keeps_lift langctx_stack _ (fun _ _ => eq_refl))) as Hf
    | pose proof (run_facts _ _ _ _ Hm
        (keeps_apply_transforms cs _ _ _ (fun _ _ => eq_refl))
        (keeps_apply_transforms tracectx_stack _ _ _ (fun _ _ => eq_refl))
        (keeps_apply_transforms langctx_stack _ _ _ (fun _ _ => eq_refl))) as Hf
    | pose proof (run_facts _ _ _ _ Hm
        (keeps_execute_trace cs _ _ _ _ _ (fun _ _ => eq_refl))
        (keeps_execute_trace tracectx_stack _ _ _ _ _ (fun _ _ => eq_refl))
        (keeps_execute_trace langctx_stack _ _ _ _ _ (fun _ _ => eq_refl))) as Hf
    | pose proof (run_facts _ _ _ _ Hm
        (proj1 (keeps_trace_all _ _ _ _ _ _ _ _ _))
        (proj1 (proj2 (keeps_trace_all _ _ _ _ _ _ _ _ _)))
        (proj2 (proj2 (keeps_trace_all _ _ _ _ _ _ _ _ _)))) as Hf
    | pose proof (run_facts _ _ _ _ Hm
        (keeps_check cs _ _ _) (keeps_check tracectx_stack _ _ _)
        (keeps_check langctx_stack _ _ _)) as Hf ];
  destruct Hf as (? & ? & ?).

Ltac rewrite_facts :=
  repeat match goal with
         | Hf : cs _ = _ |- _ => progress rewrite Hf
         | Hf : tracectx_stack _ = _ |- _ => progress rewrite Hf
         | Hf : langctx_stack _ = _ |- _ => progress rewrite Hf
         end.

Ltac step Hrun :=
  let Hm := fresh "Hm" in
  apply bind_inv in Hrun as [(? & ? & Hm & Hrun)|(? & Hm & ->)];
  [ first [ oracle Hm; clear Hm
          | (try match type of Hm with context [decide ?P] => destruct (decide P) end);
            prim Hm ]
  | first [ oracle Hm; clear Hm
          | (try match type of Hm with context [decide ?P] => destruct (decide P) end);
            prim Hm ] ].

Ltac close_miss :=
  simpl in *; rewrite_facts; simpl;
  (split; [done |]); (split; [done |]); (split; [done |]);
  (split; [done |]); (split; [done |]); simpl;
  first [ by (right; eexists _, _, _; repeat split; eauto)
        | by (left; split; [done |]; split; [done |]; intros ? [=])
        | by (left; split; [done |]; split; [done |]; intros ? _; split) ].

Section dispatch_runs.
Context {W : Type} `{Collaborators W}.

(** What a miss does to the statistics object: the miss is counted, the
    context stacks are as before, and the cache either is as before or got
    the executable that ran, stored by [cache_put] under the arguments
    without the constant prefix. *)
Lemma _fn_miss_inv cd ts pts args kwargs (s : state W) r s' :
  _fn_miss cd ts pts args kwargs s = (r, s') ->
  cache_hits (cs s') = cache_hits (cs s)
  /\ cache_misses (cs s') = cache_misses (cs s) + 1
  /\ calls (cs s') = calls (cs s)
  /\ tracectx_stack s' = tracectx_stack s
  /\ langctx_stack s' = langctx_stack s
  /\ ((cache (cs s') = cache (cs s)
       /\ last_executed (cs s') = last_executed (cs s)
       /\ (forall v, r = Returned v ->
              tracectx_stack s <> [] /\ autograd_branch cd args kwargs = false))
      \/ (exists c traces v,
             r = Returned (OValue v)
             /\ last_executed (cs s') = Some c
             /\ cache (cs s') =
                 (if decide (cache_mode cd = DYNAMIC_STRIDES)
                  then (cache_put (cache (cs s)) c traces
                          (drop (num_constant_args cd) args) kwargs).2
                  else cache (cs s))
             /\ (if autograd_branch cd args kwargs then traces = None
                 else tracectx_stack s = [] /\ is_Some traces))).
Proof.
  intros Hrun. unfold _fn_miss in Hrun.
  fold (autograd_branch cd args kwargs) in Hrun.
  do 3 step Hrun.
  destruct (autograd_branch cd args kwargs) eqn:Hauto.
  - repeat step Hrun; try prim Hrun; close_miss.
  - repeat step Hrun; try close_miss.
    match goal with
    | Hf : tracectx_stack _ = tracectx_stack s |- _ => rewrite Hf in *
    end.
    destruct (tracectx_stack s) as [|t0 stack] eqn:Hstack; simpl in Hrun.
    + repeat step Hrun; try prim Hrun; close_miss.
    + prim Hrun. close_miss.
  Unshelve. all: exact [].
Qed.

(** What a hit does: the executable runs on the arguments of the call, the
    tracing timestamps are unset, and nothing else of what the properties
    look at changes. *)
Lemma _fn_hit_spec c args kwargs (s : state W) :
  let out := _fn_hit c args kwargs s in
  out.1 = outcome_map OValue (call c args kwargs (ext s)).1
  /\ ext out.2 = (call c args kwargs (ext s)).2
  /\ cache (cs out.2) = cache (cs s)
  /\ cache_hits (cs out.2) = cache_hits (cs s)
  /\ cache_misses (cs out.2) = cache_misses (cs s)
  /\ calls (cs out.2) = calls (cs s)
  /\ last_executed (cs out.2) = last_executed (cs s)
  /\ last_traces (cs out.2) = last_traces (cs s)
  /\ last_trace_tracing_start (cs out.2) = -1
  /\ last_trace_tracing_stop (cs out.2) = -1
  /\ traces_built out.2 = traces_built s
  /\ tracectx_stack out.2 = tracectx_stack s
  /\ langctx_stack out.2 = langctx_stack s.
Proof.
  intros out. subst out.
  unfold _fn_hit, bind, time_ns, modify_cs, lift, ret. simpl.
  destruct (call c args kwargs (ext s)) as [[v|e] w]; simpl; done.
Qed.

Lemma _fn_unfold cd ts pts args kwargs (s : state W) :
  _fn cd ts pts args kwargs s =
  match decide (cache_mode cd = FIXED), last_executed (cs s) with
  | left _, Some last =>
      (modify_cs (fun c => set_cache_hits (cache_hits c + 1) c) ;;;
       _fn_hit last args kwargs)%py (entered s)
  | _, _ =>
      if decide (cache_mode cd = DYNAMIC_STRIDES) then
        match (cache_get (cache (cs s)) (drop (num_constant_args cd) args) kwargs).1 with
        | Some c =>
            (modify_cs (fun c => set_cache_hits (cache_hits c + 1) c) ;;;
             modify_cs (set_last_executed (Some c)) ;;;
             _fn_hit c args kwargs)%py (entered s)
        | None => _fn_miss cd ts pts args kwargs (entered s)
        end
      else _fn_miss cd ts pts args kwargs (entered s)
  end.
Proof.
  unfold _fn, bind, time_ns, modify_cs, get_cs, entered. simpl.
  destruct (decide (cache_mode cd = FIXED)); destruct (last_executed (cs s));
    try done.
  all: destruct (decide (cache_mode cd = DYNAMIC_STRIDES)); try done.
  all: by destruct (cache_get _ _ _).1.
Qed.
End dispatch_runs.

Section dispatch_claims.
Context {W : Type} `{Collaborators W}.

(** One call changes the cache only in DYNAMIC_STRIDES mode, on a miss, by
    a [cache_put] under the arguments without the constant prefix. *)
Lemma _fn_cache_step cd ts pts args kwargs (s : state W) :
  let out := _fn cd ts pts args kwargs s in
  cache (cs out.2) = cache (cs s)
  \/ (cache_mode cd = DYNAMIC_STRIDES
      /\ (cache_get (cache (cs s)) (drop (num_constant_args cd) args) kwargs).1 = None
      /\ exists c traces,
          cache (cs out.2) =
          (cache_put (cache (cs s)) c traces
             (drop (num_constant_args cd) args) kwargs).2).
Proof.
  intros out. subst out. rewrite _fn_unfold.
  assert (Hmiss :
    (cache_mode cd = DYNAMIC_STRIDES ->
     (cache_get (cache (cs s)) (drop (num_constant_args cd) args) kwargs).1 = None) ->
    let out := _fn_miss cd ts pts args kwargs (entered s) in
    cache (cs out.2) = cache (cs s)
    \/ (cache_mode cd = DYNAMIC_STRIDES
        /\ (cache_get (cache (cs s)) (drop (num_constant_args cd) args) kwargs).1 = None
        /\ exists c traces,
            cache (cs out.2) =
            (cache_put (cache (cs s)) c traces
               (drop (num_constant_args cd) args) kwargs).2)).
  { intros Hget out.
    destruct (_fn_miss cd ts pts args kwargs (entered s)) as [r s'] eqn:Hrun.
    apply _fn_miss_inv in Hrun as (_ & _ & _ & _ & _ & Hcache). subst out. simpl.
    destruct Hcache as [(Hc & _)|(c & traces & v & _ & _ & Hc & _)].
    - by left.
    - destruct (decide (cache_mode cd = DYNAMIC_STRIDES)) as [Hmode|Hmode].
      + right. split; [done |]. split; [by apply Hget |]. by exists c, traces.
      + by left. }
  assert (Hhit : forall c (s0 : state W),
             cache (cs (_fn_hit c args kwargs s0).2) = cache (cs s0)).
  { intros c s0. by destruct (_fn_hit_spec c args kwargs s0) as (_ & _ & Hc & _). }
  destruct (decide (cache_mode cd = FIXED)) as [Hfixed|Hfixed];
    [destruct (last_executed (cs s)) as [last|] |].
  - left. unfold bind, modify_cs. simpl. by rewrite Hhit.
  - destruct (decide (cache_mode cd = DYNAMIC_STRIDES)); [congruence |].
    apply Hmiss. congruence.
  - destruct (decide (cache_mode cd = DYNAMIC_STRIDES)); [| apply Hmiss; congruence].
    destruct (cache_get _ _ _).1 as [c|] eqn:Hget; [| by apply Hmiss].
    left. unfold bind, modify_cs. simpl. by rewrite Hhit.
Qed.

(** C10.  With the cache mode FIXED or ALWAYS_TRACE no call changes the
    cache dictionary of the statistics object, whatever the calls and
    whether they return or raise: [cache_put] runs in DYNAMIC_STRIDES mode
    only.  Starting from a new statistics object the dictionary stays
    empty, and the callable that FIXED mode keeps is the one held in
    [last_executed]. *)
Theorem cache_dict_unchanged_outside_dynamic_strides
    cd ts pts (calls : list (list pyvalue * kwargs_t)) (s : state W) :
  cache_mode cd <> DYNAMIC_STRIDES ->
  cache (cs (run_calls cd ts pts calls s)) = cache (cs s)
  /\ (cs s = CompileStats_init -> cache (cs (run_calls cd ts pts calls s)) = [])
  /\ (forall args kwargs,
         cache (cs (_fn cd ts pts args kwargs s).2) = cache (cs s)).
Proof.
  intros Hmode.
  assert (Hone : forall args kwargs (s0 : state W),
             cache (cs (_fn cd ts pts args kwargs s0).2) = cache (cs s0)).
  { intros args kwargs s0.
    destruct (_fn_cache_step cd ts pts args kwargs s0) as [Hc|(Hm & _)]; done. }
  assert (Hall : cache (cs (run_calls cd ts pts calls s)) = cache (cs s)).
  { revert s. induction calls as [|[args kwargs] calls IH]; intros s; [done |].
    simpl. by rewrite IH, Hone. }
  split; [done |]. split; [| by intros; apply Hone].
  intros Hinit. by rewrite Hall, Hinit.
Qed.
End dispatch_claims.

Lemma cache_dict_unchanged_outside_dynamic_strides_witness :
  cache (cs (run_calls (example_cd FIXED) [] []
               [([VScalar (SInt 0); example_tensor false [1; 2]], []);
                ([VScalar (SInt 0); VTensor [3] "cpu" "float32" false [3; 4; 5]], [])]
               (example_state CompileStats_init []))) = [].
Proof.
  refine (proj1 (proj2 (cache_dict_unchanged_outside_dynamic_strides
            (example_cd FIXED) [] [] _ (example_state CompileStats_init []) _)) _).
  - discriminate.
  - reflexivity.
Defined.

(** ** The cache of a compiled function *)

Lemma run_calls_cache_built {W} `{Collaborators W} cd ts pts calls (s : state W) :
  cache_built (cache (cs s)) ->
  cache_built (cache (cs (run_calls cd ts pts calls s))).
Proof.
  revert s. induction calls as [|[args kwargs] calls IH]; intros s Hbuilt; [done |].
  simpl. apply IH.
  destruct (_fn_cache_step cd ts pts args kwargs s) as [Hc|(_ & _ & c & t & Hc)];
    rewrite Hc; [done | by constructor].
Qed.

(** C2.  When a positional or a keyword argument has no fingerprint rule (a
    NumPy array, a collection that is no sequence, an object that is not
    hashable, or a sequence holding one), [_make_cache_key] returns [None];
    on a cache built by [cache_put] from the empty dictionary [cache_get] then
    returns [(None, None)] and [cache_put] returns [False] and leaves the
    cache as it is; the functions are total, so neither raises.  No entry of
    such a cache has the key [None], and the cache of a compiled function is
    such a cache after any calls. *)
Theorem indeterminate_fingerprint_never_cached
    (stored : cache_t) (fn : callable) (traces : option (list pyobj))
    (args : list pyvalue) (kwargs : kwargs_t) :
  cache_built stored ->
  Exists (fun x => has_no_rule x = true) args
  \/ Exists (fun kv => has_no_rule kv.2 = true) kwargs ->
  _make_cache_key args kwargs = None
  /\ cache_get stored args kwargs = (None, None)
  /\ cache_put stored fn traces args kwargs = (false, stored)
  /\ Forall (fun e => e.1 <> None) stored
  /\ (forall W (C : Collaborators W) cd ts pts calls (s : state W),
        cs s = CompileStats_init ->
        Forall (fun e => e.1 <> None) (cache (cs (run_calls cd ts pts calls s)))).
Proof.
  intros Hbuilt Hno.
  pose proof (make_cache_key_no_rule args kwargs Hno) as Hkey.
  pose proof (cache_built_keys stored Hbuilt) as Hkeys.
  unfold cache_get, cache_put. rewrite Hkey. simpl.
  rewrite (dict_get_absent stored None Hkeys).
  split; [done |]. split; [done |]. split; [done |]. split; [done |].
  intros W C cd ts pts calls s Hinit.
  apply cache_built_keys, run_calls_cache_built.
  rewrite Hinit. constructor.
Qed.

Lemma indeterminate_fingerprint_never_cached_witness :
  let cache := (cache_put [] (Callable 5) None [example_tensor false [1; 2]] []).2 in
  cache_get cache [example_tensor false [1; 2]; VNdarray [2] [1; 2]] [] = (None, None)
  /\ cache_put cache (Callable 6) None
       [example_tensor false [1; 2]; VNdarray [2] [1; 2]] [] = (false, cache).
Proof.
  intros cache.
  destruct (indeterminate_fingerprint_never_cached cache (Callable 6) None
              [example_tensor false [1; 2]; VNdarray [2] [1; 2]] [])
    as (_ & Hget & Hput & _).
  - apply cache_built_put, cache_built_empty.
  - left. apply Exists_cons_tl, Exists_cons_hd. reflexivity.
  - split; [exact Hget | exact Hput].
Defined.

Section fixed_mode.
Context {W : Type} `{Collaborators W}.

Lemma bind_modify_cs {A} (f : CompileStats -> CompileStats)
    (k : unit -> M (state W) A) (s : state W) :
  bind (modify_cs f) k s = k tt (set_cs (f (cs s)) s).
Proof. reflexivity. Qed.

Lemma _fn_fixed_step cd ts pts args kwargs (s : state W) c :
  cache_mode cd = FIXED ->
  last_executed (cs s) = Some c ->
  let out := _fn cd ts pts args kwargs s in
  out.1 = outcome_map OValue (call c args kwargs (ext s)).1
  /\ ext out.2 = (call c args kwargs (ext s)).2
  /\ cache_hits (cs out.2) = cache_hits (cs s) + 1
  /\ cache_misses (cs out.2) = cache_misses (cs s)
  /\ calls (cs out.2) = calls (cs s) + 1
  /\ last_trace_tracing_start (cs out.2) = -1
  /\ last_trace_tracing_stop (cs out.2) = -1
  /\ traces_built out.2 = traces_built s
  /\ last_executed (cs out.2) = Some c
  /\ cache (cs out.2) = cache (cs s).
Proof.
  intros Hmode Hlast out. subst out. rewrite _fn_unfold, Hlast.
  destruct (decide (cache_mode cd = FIXED)); [| done].
  rewrite bind_modify_cs.
  match goal with
  | |- context [_fn_hit c args kwargs ?s0] =>
      pose proof (_fn_hit_spec c args kwargs s0) as Hspec;
      destruct (_fn_hit c args kwargs s0) as [r s2]
  end.
  simpl in Hspec |- *.
  destruct Hspec as (Hr & He & Hc & Hh & Hm & Hn & Hl & _ & Hts & Hte & Htb & _).
  rewrite Hl, Hlast. done.
Qed.

(** C4.  In FIXED mode, once [last_executed] holds a callable, every later
    call, whatever its arguments and whatever the cache holds, runs that
    callable on the arguments of the call and has its outcome; it counts as a
    cache hit and not as a miss, builds no trace object, sets the two tracing
    timestamps to -1, and leaves the stored callable and the cache as they
    are.  The test for FIXED mode comes first, so the cache is not looked
    into. *)
Theorem fixed_mode_runs_last_executed
    cd ts pts (before : list (list pyvalue * kwargs_t)) args kwargs (s : state W) c :
  cache_mode cd = FIXED ->
  last_executed (cs s) = Some c ->
  let s1 := run_calls cd ts pts before s in
  let out := _fn cd ts pts args kwargs s1 in
  out.1 = outcome_map OValue (call c args kwargs (ext s1)).1
  /\ ext out.2 = (call c args kwargs (ext s1)).2
  /\ cache_hits (cs out.2) = cache_hits (cs s) + Z.of_nat (length before) + 1
  /\ cache_misses (cs out.2) = cache_misses (cs s)
  /\ last_trace_tracing_start (cs out.2) = -1
  /\ last_trace_tracing_stop (cs out.2) = -1
  /\ traces_built out.2 = traces_built s
  /\ last_executed (cs out.2) = Some c
  /\ cache (cs out.2) = cache (cs s).
Proof.
  intros Hmode Hlast s1 out.
  assert (Hbefore : last_executed (cs s1) = Some c
                    /\ cache_hits (cs s1) = cache_hits (cs s) + Z.of_nat (length before)
                    /\ cache_misses (cs s1) = cache_misses (cs s)
                    /\ traces_built s1 = traces_built s
                    /\ cache (cs s1) = cache (cs s)).
  { subst s1. clear out. revert s Hlast.
    induction before as [|[a k] before IH]; intros s Hlast.
    - simpl. repeat split; try done. lia.
    - simpl run_calls.
      destruct (_fn_fixed_step cd ts pts a k s c Hmode Hlast)
        as (_ & _ & Hh & Hm & _ & _ & _ & Htb & Hl & Hc).
      destruct (IH _ Hl) as (IHl & IHh & IHm & IHtb & IHc).
      rewrite IHh, IHm, IHtb, IHc, Hh, Hm, Htb, Hc.
      repeat split; try done. simpl length. lia. }
  destruct Hbefore as (Hl1 & Hh1 & Hm1 & Htb1 & Hc1).
  destruct (_fn_fixed_step cd ts pts args kwargs s1 c Hmode Hl1)
    as (Hr & He & Hh & Hm & _ & Hts & Hte & Htb & Hl & Hc).
  subst out. rewrite Hh, Hm, Htb, Hc, Hh1, Hm1, Htb1, Hc1. done.
Qed.
End fixed_mode.

Lemma fixed_mode_runs_last_executed_witness :
  let s := example_state (set_last_executed (Some (Callable 4)) CompileStats_init) [] in
  let out := _fn (example_cd FIXED) [] []
               [VScalar (SInt 0); VTensor [3] "cpu" "float32" false [1; 2; 3]] []
               (run_calls (example_cd FIXED) [] []
                  [([VScalar (SInt 0); example_tensor false [1; 2]], [])] s) in
  out.1 = Returned (OValue (VScalar (SInt 4)))
  /\ cache_hits (cs out.2) = 2
  /\ last_trace_tracing_start (cs out.2) = -1
  /\ traces_built out.2 = 0%nat.
Proof.
  intros s out.
  destruct (fixed_mode_runs_last_executed (example_cd FIXED) [] []
              [([VScalar (SInt 0); example_tensor false [1; 2]], [])]
              [VScalar (SInt 0); VTensor [3] "cpu" "float32" false [1; 2; 3]] [] s
              (Callable 4)
              eq_refl eq_refl)
    as (Hr & _ & Hh & _ & Hts & _ & Htb & _).
  split; [exact Hr |]. split; [exact Hh |]. split; [exact Hts | exact Htb].
Defined.

Section dynamic_strides.
Context {W : Type} `{Collaborators W}.

Lemma _fn_dynamic_hit_step cd ts pts args kwargs (s : state W) c :
  cache_mode cd = DYNAMIC_STRIDES ->
  (cache_get (cache (cs s)) (drop (num_constant_args cd) args) kwargs).1 = Some c ->
  let out := _fn cd ts pts args kwargs s in
  out.1 = outcome_map OValue (call c args kwargs (ext s)).1
  /\ ext out.2 = (call c args kwargs (ext s)).2
  /\ cache_hits (cs out.2) = cache_hits (cs s) + 1
  /\ cache_misses (cs out.2) = cache_misses (cs s)
  /\ calls (cs out.2) = calls (cs s) + 1
  /\ last_trace_tracing_start (cs out.2) = -1
  /\ last_trace_tracing_stop (cs out.2) = -1
  /\ traces_built out.2 = traces_built s
  /\ last_executed (cs out.2) = Some c
  /\ cache (cs out.2) = cache (cs s).
Proof.
  intros Hmode Hget out. subst out. rewrite _fn_unfold, Hget.
  destruct (decide (cache_mode cd = FIXED)); [congruence |].
  destruct (decide (cache_mode cd = DYNAMIC_STRIDES)); [| done].
  rewrite !bind_modify_cs.
  match goal with
  | |- context [_fn_hit c args kwargs ?s0] =>
      pose proof (_fn_hit_spec c args kwargs s0) as Hspec;
      destruct (_fn_hit c args kwargs s0) as [r s2]
  end.
  simpl in Hspec |- *.
  destruct Hspec as (Hr & He & Hc & Hh & Hm & Hn & Hl & _ & Hts & Hte & Htb & _).
  done.
Qed.

Lemma cache_get_entry (cache : cache_t) args kwargs k fn traces :
  _make_cache_key args kwargs = Some k ->
  dict_get cache (Some k) = Some (Some fn, traces) ->
  cache_get cache args kwargs = (Some fn, traces).
Proof. intros Hk Hd. unfold cache_get. by rewrite Hk, Hd. Qed.

(** An entry that holds an executable stays in the cache of a compiled
    function in DYNAMIC_STRIDES mode: a call with its key is a hit and writes
    nothing, a call with another key writes under that other key. *)
Lemma _fn_keeps_entry cd ts pts args kwargs (s : state W) k fn traces :
  dict_get (cache (cs s)) (Some k) = Some (Some fn, traces) ->
  dict_get (cache (cs (_fn cd ts pts args kwargs s).2)) (Some k)
  = Some (Some fn, traces).
Proof.
  intros Hentry.
  destruct (_fn_cache_step cd ts pts args kwargs s)
    as [Hc|(Hmode & Hget & c & t & Hc)]; rewrite Hc; [done |].
  unfold cache_put. unfold cache_get in Hget.
  destruct (_make_cache_key (drop (num_constant_args cd) args) kwargs) as [k'|];
    [| done].
  simpl. destruct (decide (k' = k)) as [->|Hne].
  - rewrite Hentry in Hget. done.
  - rewrite dict_get_set_ne; [done | congruence].
Qed.

Lemma run_calls_keeps_entry cd ts pts calls (s : state W) k fn traces :
  dict_get (cache (cs s)) (Some k) = Some (Some fn, traces) ->
  dict_get (cache (cs (run_calls cd ts pts calls s))) (Some k)
  = Some (Some fn, traces).
Proof.
  revert s. induction calls as [|[a kw] calls IH]; intros s Hentry; [done |].
  simpl. apply IH. by apply _fn_keeps_entry.
Qed.

(** C1.  In DYNAMIC_STRIDES mode, when [cache_put] has stored an executable
    and its traces under the fingerprint of some arguments, then after any
    further calls a call whose arguments without the constant prefix, and
    keyword arguments, have an equal fingerprint gets that pair from
    [cache_get], runs that executable and has its outcome, builds no trace
    object, and counts as a cache hit and not as a miss. *)
Theorem dynamic_strides_hit_reuses_executable
    cd ts pts cache0 fn traces args0 kwargs0
    (before : list (list pyvalue * kwargs_t)) args kwargs (s : state W) :
  cache_mode cd = DYNAMIC_STRIDES ->
  cache_put cache0 fn traces (drop (num_constant_args cd) args0) kwargs0
  = (true, cache (cs s)) ->
  _make_cache_key (drop (num_constant_args cd) args) kwargs
  = _make_cache_key (drop (num_constant_args cd) args0) kwargs0 ->
  let s1 := run_calls cd ts pts before s in
  let out := _fn cd ts pts args kwargs s1 in
  cache_get (cache (cs s1)) (drop (num_constant_args cd) args) kwargs = (Some fn, traces)
  /\ out.1 = outcome_map OValue (call fn args kwargs (ext s1)).1
  /\ ext out.2 = (call fn args kwargs (ext s1)).2
  /\ cache_hits (cs out.2) = cache_hits (cs s1) + 1
  /\ cache_misses (cs out.2) = cache_misses (cs s1)
  /\ traces_built out.2 = traces_built s1
  /\ last_executed (cs out.2) = Some fn
  /\ cache (cs out.2) = cache (cs s1).
Proof.
  intros Hmode Hput Hkey s1 out.
  unfold cache_put in Hput.
  destruct (_make_cache_key (drop (num_constant_args cd) args0) kwargs0) as [k|] eqn:Hk0;
    [| done].
  injection Hput as Hcache.
  assert (Hentry : dict_get (cache (cs s)) (Some k) = Some (Some fn, traces)).
  { rewrite <- Hcache. apply dict_get_set_eq. }
  assert (Hget : cache_get (cache (cs s1)) (drop (num_constant_args cd) args) kwargs
                 = (Some fn, traces)).
  { apply (cache_get_entry _ _ _ k); [done |]. by apply run_calls_keeps_entry. }
  split; [done |].
  destruct (_fn_dynamic_hit_step cd ts pts args kwargs s1 fn Hmode)
    as (Hr & He & Hh & Hm & _ & _ & _ & Htb & Hl & Hc); [by rewrite Hget |].
  done.
Qed.
End dynamic_strides.

Lemma dynamic_strides_hit_reuses_executable_witness :
  let cd := example_cd DYNAMIC_STRIDES in
  let s := example_state
             (set_cache (cache_put [] (Callable 5) None [example_tensor false [1; 2]] []).2
                CompileStats_init) [] in
  let s1 := run_calls cd [] []
              [([VScalar (SInt 0); VTensor [3] "cpu" "float32" false [1; 2; 3]], [])]
              s in
  let out := _fn cd [] [] [VScalar (SInt 9); example_tensor false [7; 8]] [] s1 in
  out.1 = Returned (OValue (VScalar (SInt 5)))
  /\ cache_hits (cs out.2) = cache_hits (cs s1) + 1
  /\ cache_misses (cs out.2) = cache_misses (cs s1)
  /\ traces_built out.2 = traces_built s1.
Proof.
  intros cd s s1 out.
  destruct (dynamic_strides_hit_reuses_executable cd [] [] [] (Callable 5) None
              [VScalar (SInt 0); example_tensor false [1; 2]] []
              [([VScalar (SInt 0); VTensor [3] "cpu" "float32" false [1; 2; 3]], [])]
              [VScalar (SInt 9); example_tensor false [7; 8]] [] s
              eq_refl eq_refl eq_refl)
    as (_ & Hr & _ & Hh & Hm & Htb & _).
  split; [exact Hr |]. split; [exact Hh |]. split; [exact Hm | exact Htb].
Defined.

Section prefix_skip.
Context {W : Type} `{Collaborators W}.

Lemma _fn_dynamic_miss cd ts pts args kwargs (s : state W) :
  cache_mode cd = DYNAMIC_STRIDES ->
  (cache_get (cache (cs s)) (drop (num_constant_args cd) args) kwargs).1 = None ->
  _fn cd ts pts args kwargs s = _fn_miss cd ts pts args kwargs (entered s).
Proof.
  intros Hmode Hget. rewrite _fn_unfold, Hget.
  destruct (decide (cache_mode cd = FIXED)); [congruence |].
  by destruct (decide (cache_mode cd = DYNAMIC_STRIDES)).
Qed.

Lemma make_cache_key_parts args kwargs k :
  _make_cache_key args kwargs = Some k ->
  exists ks kks,
    k = ks ++ kks
    /\ subkeys_with _make_subkey_for args = Some ks
    /\ subkeys_with (fun kv => kwarg_helper kv.1 kv.2) kwargs = Some kks
    /\ length ks = length args
    /\ length kks = length kwargs.
Proof.
  unfold _make_cache_key.
  destruct (subkeys_with _make_subkey_for args) as [ks|] eqn:Hks; [| done].
  destruct (subkeys_with _ kwargs) as [kks|] eqn:Hkks; [| done].
  intros [= <-]. exists ks, kks.
  apply subkeys_with_Some in Hks as [_ Hks'].
  apply subkeys_with_Some in Hkks as [_ Hkks'].
  repeat split; try done.
  - by rewrite Hks', length_map.
  - by rewrite Hkks', length_map.
Qed.

(** C5.  In DYNAMIC_STRIDES mode the key of a call is the fingerprint of the
    positional arguments after the first [num_constant_args] of them and of
    all the keyword arguments: it has one sub-key for each of these.  The
    lookup is made under that key: an executable found there runs, on all the
    arguments of the call, and its absence is a miss.  The call writes to the
    cache under no other key; and a miss that returns, through the autograd
    branch or, with no trace active, through the tracing branch, leaves the
    executable it ran under that key, without traces in the first case and
    with them in the second. *)
Theorem dynamic_strides_key_skips_constant_prefix
    cd ts pts args kwargs (s : state W) :
  cache_mode cd = DYNAMIC_STRIDES ->
  let key := _make_cache_key (drop (num_constant_args cd) args) kwargs in
  let found := (default (None, None) (dict_get (cache (cs s)) key)).1 in
  let out := _fn cd ts pts args kwargs s in
  (forall k, key = Some k ->
     exists ks kks,
       k = ks ++ kks
       /\ length ks = (length args - num_constant_args cd)%nat
       /\ length kks = length kwargs)
  /\ (forall c, found = Some c ->
        out.1 = outcome_map OValue (call c args kwargs (ext s)).1
        /\ cache_hits (cs out.2) = cache_hits (cs s) + 1
        /\ cache_misses (cs out.2) = cache_misses (cs s)
        /\ cache (cs out.2) = cache (cs s))
  /\ (found = None ->
        cache_hits (cs out.2) = cache_hits (cs s)
        /\ cache_misses (cs out.2) = cache_misses (cs s) + 1)
  /\ (forall k', k' <> key ->
        dict_get (cache (cs out.2)) k' = dict_get (cache (cs s)) k')
  /\ (forall v k,
        found = None -> out.1 = Returned v -> key = Some k ->
        autograd_branch cd args kwargs = true \/ tracectx_stack s = [] ->
        exists c t,
          last_executed (cs out.2) = Some c
          /\ dict_get (cache (cs out.2)) key = Some (Some c, t)
          /\ (if autograd_branch cd args kwargs then t = None else is_Some t)).
Proof.
  intros Hmode key found out.
  split; [| split; [| split; [| split]]].
  - intros k Hk. apply make_cache_key_parts in Hk as (ks & kks & -> & _ & _ & Hl1 & Hl2).
    exists ks, kks. rewrite Hl1, length_drop. done.
  - intros c Hfound.
    destruct (_fn_dynamic_hit_step cd ts pts args kwargs s c Hmode Hfound)
      as (Hr & _ & Hh & Hm & _ & _ & _ & _ & _ & Hc).
    done.
  - intros Hfound. subst out.
    rewrite (_fn_dynamic_miss cd ts pts args kwargs s Hmode Hfound).
    destruct (_fn_miss cd ts pts args kwargs (entered s)) as [r s'] eqn:Hrun.
    apply _fn_miss_inv in Hrun as (Hh & Hm & _). simpl in *. done.
  - intros k' Hne. subst out.
    destruct (_fn_cache_step cd ts pts args kwargs s)
      as [Hc|(_ & _ & c & t & Hc)]; rewrite Hc; [done |].
    unfold cache_put. fold key. destruct key as [k|]; [| done].
    simpl. by rewrite dict_get_set_ne.
  - intros v k Hfound Hret Hkey Hpath. subst out.
    rewrite (_fn_dynamic_miss cd ts pts args kwargs s Hmode Hfound) in Hret |- *.
    destruct (_fn_miss cd ts pts args kwargs (entered s)) as [r s'] eqn:Hrun.
    apply _fn_miss_inv in Hrun as (_ & _ & _ & _ & _ & Hcache). simpl in *.
    destruct Hcache as [(_ & _ & Hinl)|(c & t & v' & _ & Hl & Hc & Hkind)].
    + destruct (Hinl v Hret) as [Hstack Hauto].
      destruct Hpath as [Hp|Hp]; congruence.
    + exists c, t. split; [done |]. split.
      * rewrite Hc. destruct (decide (cache_mode cd = DYNAMIC_STRIDES)); [| done].
        unfold cache_put. fold key. rewrite Hkey. simpl. apply dict_get_set_eq.
      * destruct (autograd_branch cd args kwargs); [done | by destruct Hkind].
Qed.
End prefix_skip.

Lemma dynamic_strides_key_skips_constant_prefix_witness :
  let cd := example_cd DYNAMIC_STRIDES in
  let s := example_state CompileStats_init [] in
  let out := _fn cd [] [] [VUnhashable "Parameter" 1; example_tensor true [1; 2]]
               [("scale"%string, VScalar (SInt 3))] s in
  dict_get (cache (cs out.2))
    (Some [KTensor [2] "cpu" "float32" true;
           KKwarg (KStr "scale") (KScalar TyInt (SInt 3))])
  = Some (Some (Callable 7), None).
Proof.
  intros cd s out.
  destruct (dynamic_strides_key_skips_constant_prefix cd [] []
              [VUnhashable "Parameter" 1; example_tensor true [1; 2]]
              [("scale"%string, VScalar (SInt 3))] s eq_refl)
    as (_ & _ & _ & _ & Hstore).
  destruct (Hstore (OValue (VScalar (SInt 7))) _ eq_refl eq_refl eq_refl
              (or_introl eq_refl)) as (c & t & Hl & Hd & Ht).
  simpl in Ht. subst t. injection Hl as <-. exact Hd.
Defined.

Section inlined_calls.
Context {W : Type} `{Collaborators W}.

Lemma bind_time_ns {A} (k : Z -> M (state W) A) (s : state W) :
  bind time_ns k s = k (time_ns_at (clock s)) (set_clock (S (clock s)) s).
Proof. reflexivity. Qed.

Lemma bind_get_tracectx {A} (k : option TraceCtx -> M (state W) A) (s : state W) :
  bind get_tracectx k s = k (head (tracectx_stack s)) s.
Proof. reflexivity. Qed.

Lemma bind_returned {St A B} (m : M St A) (k : A -> M St B) s a s1 :
  m s = (Returned a, s1) -> bind m k s = k a s1.
Proof. intros Hm. unfold bind. by rewrite Hm. Qed.


End inlined_calls.



(** ** Module adapter *)

Lemma traverse_insert_frame (h : object_store) m parts l o leaf a :
  h !! l = Some o ->
  (l, leaf) ∉ reads h m parts ->
  traverse (<[l := <[leaf := a]> o]> h) m parts = traverse h m parts
  /\ reads (<[l := <[leaf := a]> o]> h) m parts = reads h m parts.
Proof.
  intros Hl. revert m. induction parts as [|p parts IH]; intros m Hnot; [by destruct m |].
  destruct m as [l0|v]; [| done].
  cbn [reads] in Hnot. apply not_elem_of_cons in Hnot as [Hne Hnot].
  assert (Hget : getattr (<[l := <[leaf := a]> o]> h) (ARef l0) p = getattr h (ARef l0) p).
  { simpl. destruct (decide (l = l0)) as [->|Hll].
    - rewrite lookup_insert_eq, Hl. apply lookup_insert_ne. congruence.
    - by rewrite lookup_insert_ne. }
  cbn [traverse reads]. rewrite Hget.
  destruct (getattr h (ARef l0) p) as [m'|]; [| done].
  destruct (IH m' Hnot) as [-> ->]. done.
Qed.

Lemma getattr_insert (h : object_store) l o leaf a :
  getattr (<[l := <[leaf := a]> o]> h) (ARef l) leaf = Some a.
Proof. simpl. rewrite lookup_insert_eq. apply lookup_insert_eq. Qed.

Lemma split_on_nonempty sep s : split_on sep s <> [].
Proof.
  destruct s as [|c s]; simpl; [done |].
  destruct (decide (c = sep)); [done |]. by destruct (split_on sep s).
Qed.

Lemma parts_snoc {A} (parts : list A) :
  parts <> [] ->
  exists leaf, last parts = Some leaf /\ parts = take (length parts - 1) parts ++ [leaf].
Proof.
  intros Hne. destruct (decide (parts = [])) as [|_]; [done |].
  induction parts as [|x parts IH] using rev_ind; [done |].
  exists x. rewrite last_snoc, length_app. simpl.
  replace (length parts + 1 - 1)%nat with (length parts) by lia.
  by rewrite take_app_length.
Qed.

Lemma traverse_app h m a b :
  traverse h m (a ++ b) =
  match traverse h m a with Some m' => traverse h m' b | None => None end.
Proof.
  revert m. induction a as [|p a IH]; intros m; [done |].
  simpl. destruct (getattr h m p); [apply IH | done].
Qed.

Lemma reads_app h m a b m' :
  traverse h m a = Some m' -> reads h m (a ++ b) = reads h m a ++ reads h m' b.
Proof.
  revert m. induction a as [|p a IH]; intros m Ht.
  - simpl in Ht. by simplify_eq.
  - simpl in Ht. destruct m as [l|v]; [| done].
    cbn [app reads]. destruct (getattr h (ARef l) p) as [m1|] eqn:Hg; [| done].
    simpl. f_equal. by apply IH.
Qed.

Lemma target_frame (h : object_store) model k l o leaf a :
  h !! l = Some o ->
  (l, leaf) ∉ reads h model (prefix_parts k) ->
  target (<[l := <[leaf := a]> o]> h) model k = target h model k.
Proof.
  intros Hl Hnot. unfold target.
  by destruct (traverse_insert_frame h model (prefix_parts k) l o leaf a Hl Hnot) as [-> _].
Qed.

Lemma target_full_path (h : object_store) model k m leaf :
  target h model k = Some (m, leaf) ->
  split_on "."%char k = prefix_parts k ++ [leaf]
  /\ traverse h model (prefix_parts k) = Some m.
Proof.
  unfold target. intros Ht.
  destruct (traverse h model (prefix_parts k)) as [m0|] eqn:Htr; [| done].
  destruct (parts_snoc (split_on "."%char k) (split_on_nonempty _ _)) as (leaf0 & Hlast & Hsplit).
  rewrite Hlast in Ht. simplify_eq. done.
Qed.

Lemma setattr_object (h : object_store) l o p v :
  h !! l = Some o ->
  setattr h (ARef l) p v =
  if accepts (slot_at o p) v
  then Returned (<[l := <[p := AVal (slot_at o p) v]> o]> h)
  else Raised (cannot_assign (slot_at o p)).
Proof.
  intros Hl. unfold setattr. rewrite Hl.
  destruct (slot_at o p); simpl; try done; by destruct (is_None v); [| try destruct (is_Tensor v)].
Qed.

Lemma assignable_target (h : object_store) model k v l leaf o :
  target h model k = Some (ARef l, leaf) ->
  h !! l = Some o ->
  assignable h model k v = accepts (slot_at o leaf) v.
Proof. intros Ht Hl. unfold assignable. by rewrite Ht, Hl. Qed.

Section wb.
Context {S : Type}.

Lemma write_back_one_ok (tom : ThunderOptimizedModule) k v idx (s : tom_state S) l leaf o :
  target (store s) (_model tom) k = Some (ARef l, leaf) ->
  store s !! l = Some o ->
  accepts (slot_at o leaf) v = true ->
  (idx < length (_additional_param_values s))%nat ->
  write_back_one tom k v idx s =
  (Returned tt,
   mkTomState (<[l := <[leaf := AVal (slot_at o leaf) v]> o]> (store s))
     (<[idx := v]> (_additional_param_values s)) (inner s)).
Proof.
  intros Ht Hl Hacc Hidx. unfold write_back_one, target, prefix_parts in *.
  destruct (traverse (store s) (_model tom) _) as [m|]; [| done].
  destruct (last (split_on "."%char k)) as [leaf0|]; [| done].
  simplify_eq. rewrite (setattr_object _ _ _ _ _ Hl), Hacc. by rewrite decide_True.
Qed.

Lemma write_back_ok (tom : ThunderOptimizedModule)
    (items : list (string * pyvalue * nat)) (s : tom_state S) :
  writes_apart (store s) (_model tom) ((fun it => it.1.1) <$> items) ->
  Forall (fun it => assignable (store s) (_model tom) it.1.1 it.1.2 = true) items ->
  NoDup (snd <$> items) ->
  Forall (fun it => (it.2 < length (_additional_param_values s))%nat) items ->
  exists s',
    write_back tom items s = (Returned tt, s')
    /\ inner s' = inner s
    /\ length (_additional_param_values s') = length (_additional_param_values s)
    /\ (forall k v idx, (k, v, idx) ∈ items ->
          (exists sl, traverse (store s') (_model tom) (split_on "."%char k)
                      = Some (AVal sl v))
          /\ _additional_param_values s' !! idx = Some v)
    /\ (forall m parts,
          (forall k l leaf, k ∈ (fun it => it.1.1) <$> items ->
             target (store s) (_model tom) k = Some (ARef l, leaf) ->
             (l, leaf) ∉ reads (store s) m parts) ->
          traverse (store s') m parts = traverse (store s) m parts)
    /\ (forall j, j ∉ snd <$> items ->
          _additional_param_values s' !! j = _additional_param_values s !! j).
Proof.
  revert s. induction items as [|[[k v] idx] items IH]; intros s Hap Hacc Hnd Hidx.
  - exists s. simpl. split; [done |]. split; [done |]. split; [done |].
    split; [| by split].
    intros ? ? ? Hin. by apply elem_of_nil in Hin.
  - destruct Hap as (T1 & T2 & T3). csimpl in *.
    apply Forall_cons in T1 as [(l & leaf & o & Ht & Hl) T1].
    apply NoDup_cons in T3 as [T3k T3]. apply NoDup_cons in Hnd as [Hndk Hnd].
    apply Forall_cons in Hidx as [Hidxk Hidx]. simpl in Hidxk.
    apply Forall_cons in Hacc as [Hacck Hacc]. simpl in Hacck.
    rewrite (assignable_target _ _ _ _ _ _ _ Ht Hl) in Hacck.
    set (names := (fun it : string * pyvalue * nat => it.1.1) <$> items) in *.
    set (a := AVal (slot_at o leaf) v).
    set (h := store s) in *. set (h1 := <[l := <[leaf := a]> o]> h).
    set (s1 := mkTomState h1 (<[idx := v]> (_additional_param_values s)) (inner s)).
    assert (Hstep : write_back_one tom k v idx s = (Returned tt, s1))
      by by apply write_back_one_ok.
    assert (Htgt : forall k', k' ∈ names -> target h1 (_model tom) k' = target h (_model tom) k').
    { intros k' Hk'. apply target_frame; [done |].
      apply (T2 k' k); [by apply list_elem_of_further | by apply list_elem_of_here | done]. }
    assert (Hap1 : writes_apart (store s1) (_model tom) names).
    { simpl. split; [| split].
      - apply Forall_forall. intros k' Hk'.
        rewrite Forall_forall in T1. destruct (T1 k' Hk') as (l' & leaf' & o' & Ht' & Hl').
        rewrite (Htgt k' Hk').
        destruct (decide (l = l')) as [<-|Hne].
        + exists l, leaf', (<[leaf := a]> o). split; [done |].
          subst h1. apply lookup_insert_eq.
        + exists l', leaf', o'. split; [done |].
          subst h1. by rewrite lookup_insert_ne.
      - intros k1 k2 l2 leaf2 Hk1 Hk2 Ht2. rewrite (Htgt k2 Hk2) in Ht2.
        destruct (traverse_insert_frame h (_model tom) (prefix_parts k1) l o leaf a Hl)
          as [_ Hreads].
        { apply (T2 k1 k); [by apply list_elem_of_further | by apply list_elem_of_here | done]. }
        fold h1 in Hreads. rewrite Hreads.
        apply (T2 k1 k2); [by apply list_elem_of_further .. | done].
      - rewrite (Forall_fmap_ext_1 (target h1 (_model tom)) (target h (_model tom)));
          [done |].
        apply Forall_forall. intros k' Hk'. by apply Htgt. }
    assert (Hacc1 : Forall (fun it => assignable (store s1) (_model tom) it.1.1 it.1.2 = true)
                      items).
    { apply Forall_forall. intros [[k' v'] idx'] Hin. simpl.
      assert (Hk' : k' ∈ names).
      { subst names. apply list_elem_of_fmap. by exists (k', v', idx'). }
      rewrite Forall_forall in Hacc. specialize (Hacc _ Hin). simpl in Hacc.
      rewrite Forall_forall in T1. destruct (T1 k' Hk') as (l' & leaf' & o' & Ht' & Hl').
      rewrite (assignable_target _ _ _ _ _ _ _ Ht' Hl') in Hacc.
      destruct (decide (l = l')) as [<-|Hne].
      - rewrite (assignable_target h1 _ _ _ l leaf' (<[leaf := a]> o));
          [| by rewrite (Htgt k' Hk') | by subst h1; apply lookup_insert_eq].
        simplify_eq. unfold slot_at in *. rewrite lookup_insert_ne; [done |].
        intros <-. apply T3k. rewrite Ht, <- Ht'. by apply list_elem_of_fmap_2.
      - rewrite (assignable_target h1 _ _ _ l' leaf' o');
          [done | by rewrite (Htgt k' Hk') | by subst h1; rewrite lookup_insert_ne]. }
    assert (Hidx1 : Forall (fun it => (it.2 < length (_additional_param_values s1))%nat) items).
    { simpl. by rewrite length_insert. }
    destruct (IH s1 Hap1 Hacc1 Hnd Hidx1)
      as (s' & Hrun & Hinner & Hlen & Hitems & Hframe & Hslots).
    exists s'. split; [| split; [| split; [| split; [| split]]]].
    + cbn [write_back]. unfold bind. by rewrite Hstep.
    + by rewrite Hinner.
    + rewrite Hlen. simpl. by rewrite length_insert.
    + intros k0 v0 idx0 Hin. apply elem_of_cons in Hin as [Heq|Hin]; [| by apply Hitems].
      simplify_eq. split.
      * exists (slot_at o leaf).
        destruct (target_full_path h (_model tom) k (ARef l) leaf Ht) as [Hsplit Htr].
        rewrite (Hframe (_model tom) (split_on "."%char k)).
        -- simpl. rewrite Hsplit, traverse_app.
           destruct (traverse_insert_frame h (_model tom) (prefix_parts k) l o leaf a Hl)
             as [Htr1 _].
           { apply (T2 k k); [by apply list_elem_of_here .. | done]. }
           fold h1 in Htr1. rewrite Htr1, Htr. cbn [traverse].
           subst h1. by rewrite getattr_insert.
        -- intros k' l' leaf' Hk' Ht'. simpl in Ht'. rewrite (Htgt k' Hk') in Ht'.
           simpl. rewrite Hsplit.
           destruct (traverse_insert_frame h (_model tom) (prefix_parts k) l o leaf a Hl)
             as [Htr1 Hreads1].
           { apply (T2 k k); [by apply list_elem_of_here .. | done]. }
           fold h1 in Htr1, Hreads1.
           rewrite (reads_app h1 (_model tom) (prefix_parts k) [leaf] (ARef l));
             [| by rewrite Htr1].
           rewrite Hreads1. apply not_elem_of_app. split.
           ++ apply (T2 k k'); [by apply list_elem_of_here | by apply list_elem_of_further | done].
           ++ cbn [reads]. intros Hin. apply elem_of_cons in Hin as [Heq|Hin].
              ** apply T3k. rewrite Ht. simplify_eq. rewrite <- Ht'.
                 by apply list_elem_of_fmap_2.
              ** destruct (getattr h1 (ARef l) leaf); by apply elem_of_nil in Hin.
      * rewrite Hslots; [| done]. simpl. by apply list_lookup_insert_eq.
    + intros m parts Hcond.
      rewrite (Hframe m parts).
      * destruct (traverse_insert_frame h m parts l o leaf a Hl
                    (Hcond k l leaf (list_elem_of_here _ _) Ht)) as [Hx _].
        fold h1 in Hx. by rewrite <- Hx.
      * intros k' l' leaf' Hk' Ht'. simpl in Ht'. rewrite (Htgt k' Hk') in Ht'. simpl.
        destruct (traverse_insert_frame h m parts l o leaf a Hl
                    (Hcond k l leaf (list_elem_of_here _ _) Ht)) as [_ Hr].
        fold h1 in Hr. rewrite Hr.
        apply (Hcond k'); [by apply list_elem_of_further | done].
    + intros j Hj. simpl in Hj. apply not_elem_of_cons in Hj as [Hne Hj].
      rewrite (Hslots j Hj). simpl. by apply list_lookup_insert_ne.
Qed.
End wb.

Lemma param_index_lookup (names : list string) k i :
  param_index names !! k = Some i -> names !! i = Some k.
Proof.
  unfold param_index. revert k i.
  induction names as [|x names IH] using rev_ind; intros k i; [done |].
  rewrite imap_app, foldl_app. simpl. rewrite Nat.add_0_r.
  destruct (decide (x = k)) as [->|Hne].
  - rewrite lookup_insert_eq. intros [= <-]. by rewrite list_lookup_middle.
  - rewrite lookup_insert_ne by done. intros Hk. apply IH in Hk.
    by apply lookup_app_l_Some.
Qed.

Lemma TOM_init_idxes model param_names return_names tom :
  TOM_init model param_names return_names = Some tom ->
  _model tom = model
  /\ _additional_return_names tom = return_names
  /\ Forall2 (fun k idx => param_names !! idx = Some k)
       return_names (_additional_return_param_idxes tom).
Proof.
  unfold TOM_init.
  destruct (mapM _ return_names) as [idxes|] eqn:Hm; [| done].
  intros [= <-]. simpl. split; [done |]. split; [done |].
  apply mapM_Some in Hm.
  eapply Forall2_impl; [exact Hm |].
  intros k idx Hk. by apply param_index_lookup.
Qed.

Lemma idxes_facts (param_names return_names : list string) (idxes : list nat) :
  Forall2 (fun k idx => param_names !! idx = Some k) return_names idxes ->
  length idxes = length return_names
  /\ Forall (fun idx => (idx < length param_names)%nat) idxes
  /\ (NoDup return_names -> NoDup idxes).
Proof.
  intros Hf. split; [by apply Forall2_length in Hf |]. split.
  - induction Hf as [|k idx ks idxs Hk _ IH]; constructor; [| done].
    by apply lookup_lt_Some in Hk.
  - assert (Heq : (fun idx => param_names !! idx) <$> idxes = Some <$> return_names).
    { induction Hf as [|k idx ks idxs Hk _ IH]; [done |]. csimpl. by rewrite Hk, IH. }
    intros Hnd. apply (NoDup_fmap_1 (fun idx => param_names !! idx)).
    rewrite Heq. apply NoDup_fmap_2; [| done]. by intros ? ? [= ->].
Qed.

Section call.
Context {S : Type} (_forward_fn : list pyvalue -> kwargs_t -> S -> outcome pyvalue * S).

(** C9.  In a call of the adapter with a list of extra-return names that is
    not empty: when the value that the wrapped function returns cannot be
    split into a result and extra values, or the number of extra values is
    not the number of names, the call raises (the assertion error in the
    second case) and has written nothing to the model or to the parameter
    values.  When the numbers agree, the adapter holds as many parameter
    values as parameter names, every name leads to an attribute of a module
    that takes its value, and the names lead to distinct attributes none of
    which is read on the way along the path of a name, the call returns the
    result, and for each name the extra value is afterwards both what the
    dotted path leads to in the model and the parameter value at the index of
    that name, which is among the arguments that the next call puts first. *)
Theorem adapter_writes_back_extra_returns
    model param_names return_names tom args kwargs (s : tom_state S) res i :
  TOM_init model param_names return_names = Some tom ->
  return_names <> [] ->
  _forward_fn (_additional_param_values s ++ args) kwargs (inner s) = (Returned res, i) ->
  let out := __call__ _forward_fn tom args kwargs s in
  match py_iter res with
  | Some (r :: extras) =>
      (length extras <> length return_names ->
       out.1 = Raised extra_returns_mismatch
       /\ store out.2 = store s
       /\ _additional_param_values out.2 = _additional_param_values s)
      /\ (length extras = length return_names ->
          length (_additional_param_values s) = length param_names ->
          writes_apart (store s) model return_names ->
          Forall2 (fun k v => assignable (store s) model k v = true) return_names extras ->
          out.1 = Returned r
          /\ inner out.2 = i
          /\ forall j k v idx,
              return_names !! j = Some k ->
              extras !! j = Some v ->
              _additional_return_param_idxes tom !! j = Some idx ->
              param_names !! idx = Some k
              /\ (exists sl, traverse (store out.2) model (split_on "."%char k)
                             = Some (AVal sl v))
              /\ _additional_param_values out.2 !! idx = Some v
              /\ forall args', (_additional_param_values out.2 ++ args') !! idx = Some v)
  | _ =>
      exists e, out.1 = Raised e
                /\ store out.2 = store s
                /\ _additional_param_values out.2 = _additional_param_values s
  end.
Proof.
  intros Hinit Hnames Hfwd out.
  destruct (TOM_init_idxes _ _ _ _ Hinit) as (Hmodel & Hrn & Hidx).
  destruct (idxes_facts _ _ _ Hidx) as (Hlen & Hrange & Hnodup).
  assert (Hnonempty : negb (length (_additional_return_names tom) =? 0)%nat = true).
  { rewrite Hrn. destruct return_names; done. }
  subst out. unfold __call__, bind, call_forward. rewrite Hfwd, Hnonempty.
  destruct (py_iter res) as [[|r extras]|]; [by eexists | | by eexists].
  rewrite Hrn. split.
  - intros Hmis. unfold check.
    assert (Hb : (length return_names =? length extras)%nat = false)
      by (apply Nat.eqb_neq; congruence).
    by rewrite Hb.
  - intros Hmatch Hvals Hap Hacc. unfold check.
    rewrite Hmatch, Nat.eqb_refl. simpl.
    assert (Hnd : NoDup return_names).
    { destruct Hap as (_ & _ & Hnd). by apply NoDup_fmap_1 in Hnd. }
    set (items := zip (zip return_names extras) (_additional_return_param_idxes tom)).
    set (s0 := mkTomState (store s) (_additional_param_values s) i).
    assert (Hfst : (fun it : string * pyvalue * nat => it.1.1) <$> items = return_names).
    { subst items.
      transitivity ((zip (zip return_names extras)
                       (_additional_return_param_idxes tom)).*1.*1);
        [by rewrite <- list_fmap_compose |].
      rewrite fst_zip, fst_zip; [done | lia |].
      rewrite length_zip. lia. }
    assert (Hsnd : snd <$> items = _additional_return_param_idxes tom).
    { subst items. rewrite snd_zip; [done |]. rewrite length_zip. lia. }
    assert (Hitem : forall k v idx, (k, v, idx) ∈ items ->
              exists j, return_names !! j = Some k /\ extras !! j = Some v).
    { intros k v idx Hin. apply list_elem_of_lookup in Hin as [j Hj]. exists j.
      subst items. apply lookup_zip_with_Some in Hj as ([k0 v0] & idx0 & [= <- <- <-] & Hkv & _).
      by apply lookup_zip_with_Some in Hkv as (? & ? & [= <- <-] & ? & ?). }
    destruct (write_back_ok tom items s0) as (s' & Hrun & Hinner & _ & Hitems & _).
    { rewrite Hfst, Hmodel. done. }
    { apply Forall_forall. intros [[k v] idx] Hin. simpl. rewrite Hmodel.
      destruct (Hitem k v idx Hin) as (j & Hk & Hv).
      by eapply Forall2_lookup_lr in Hacc. }
    { rewrite Hsnd. by apply Hnodup. }
    { apply Forall_forall. intros [[k v] idx] Hin. simpl. rewrite Hvals.
      rewrite Forall_forall in Hrange. apply Hrange. rewrite <- Hsnd.
      by apply (list_elem_of_fmap_2 snd) in Hin. }
    rewrite Hrun. simpl. split; [done |]. split; [done |].
    intros j k v idx Hk Hv Hi.
    assert (Hin : (k, v, idx) ∈ items).
    { apply list_elem_of_lookup. exists j. subst items.
      apply lookup_zip_with_Some. exists (k, v), idx. split; [done |]. split; [| done].
      apply lookup_zip_with_Some. by exists k, v. }
    destruct (Hitems k v idx Hin) as [Htr Hslot].
    split; [| split; [by rewrite <- Hmodel | split; [done |]]].
    + eapply Forall2_lookup_lr in Hidx; [exact Hidx | exact Hk | exact Hi].
    + intros args'. by apply lookup_app_l_Some.
Qed.
End call.

Lemma adapter_writes_back_extra_returns_witness :
  let v1 := example_tensor false [5; 6] in
  let v2 := example_tensor false [7; 8] in
  let out := __call__ (example_forward [v1; v2]) example_tom [VStr "x"] []
               example_tom_state in
  out.1 = Returned (VScalar (SInt 1))
  /\ (exists sl, traverse (store out.2) (ARef 0) ["bn"; "running_mean"]%string
                 = Some (AVal sl v1))
  /\ _additional_param_values out.2 !! 2%nat = Some v1
  /\ (exists sl, traverse (store out.2) (ARef 0) ["bn"; "running_var"]%string
                 = Some (AVal sl v2))
  /\ _additional_param_values out.2 !! 3%nat = Some v2.
Proof.
  intros v1 v2 out.
  assert (Hinit : TOM_init (ARef 0) example_param_names
                    ["bn.running_mean"; "bn.running_var"]%string = Some example_tom)
    by (vm_compute; reflexivity).
  assert (Hap : writes_apart (store example_tom_state) (ARef 0)
                  ["bn.running_mean"; "bn.running_var"]%string).
  { split; [| split].
    - repeat constructor; eexists _, _, _; split; vm_compute; reflexivity.
    - intros k k' l leaf Hk Hk' Ht Hin.
      assert (Hreads : reads (store example_tom_state) (ARef 0) (prefix_parts k)
                       = [(0%nat, "bn"%string)]).
      { apply elem_of_cons in Hk as [->|Hk]; [by vm_compute |].
        apply list_elem_of_singleton in Hk as ->. by vm_compute. }
      rewrite Hreads in Hin. apply list_elem_of_singleton in Hin.
      apply elem_of_cons in Hk' as [->|Hk'];
        [| apply list_elem_of_singleton in Hk' as ->];
        vm_compute in Ht; injection Ht as <- <-; discriminate Hin.
    - vm_compute. repeat constructor.
      + intros Hin. apply list_elem_of_singleton in Hin. discriminate Hin.
      + intros Hin. by apply elem_of_nil in Hin. }
  assert (Hacc : Forall2 (fun k v => assignable (store example_tom_state) (ARef 0) k v = true)
                   ["bn.running_mean"; "bn.running_var"]%string [v1; v2]).
  { repeat constructor; vm_compute; reflexivity. }
  pose proof (adapter_writes_back_extra_returns (example_forward [v1; v2]) (ARef 0)
                example_param_names ["bn.running_mean"; "bn.running_var"]%string
                example_tom [VStr "x"] [] example_tom_state
                (VSeq Tuple [VScalar (SInt 1); v1; v2]) tt Hinit
                ltac:(discriminate) eq_refl) as Hthm.
  cbn [py_iter] in Hthm. destruct Hthm as [_ Hok].
  destruct (Hok eq_refl eq_refl Hap Hacc) as (Hr & _ & Hall).
  destruct (Hall 0%nat "bn.running_mean"%string v1 2%nat eq_refl eq_refl eq_refl)
    as (_ & Htr1 & Hslot1 & _).
  destruct (Hall 1%nat "bn.running_var"%string v2 3%nat eq_refl eq_refl eq_refl)
    as (_ & Htr2 & Hslot2 & _).
  split; [exact Hr |]. split; [exact Htr1 |]. split; [exact Hslot1 |].
  split; [exact Htr2 | exact Hslot2].
Defined.

(** C9, as it is worded, fails.  An adapter with the two extra-return names
    [bn.running_mean] and [w] gets two extra values, so the numbers agree,
    yet the call raises: [w] is a registered parameter of the model, which
    takes no plain tensor.  The second value is written neither to the model
    nor to the parameter values; the first one has been written by then and
    stays. *)
Lemma adapter_write_back_counterexample :
  let v1 := example_tensor false [5; 6] in
  let v2 := example_tensor false [7; 8] in
  let names := ["bn.running_mean"; "w"]%string in
  let tom := mkTOM (ARef 0) example_param_names names [2%nat; 0%nat] in
  let out := __call__ (example_forward [v1; v2]) tom [VStr "x"] [] example_tom_state in
  TOM_init (ARef 0) example_param_names names = Some tom
  /\ length names = length [v1; v2]
  /\ out.1 = Raised (cannot_assign InParameters)
  /\ traverse (store out.2) (ARef 0) ["w"%string]
     = Some (AVal InParameters (example_tensor true [1; 2]))
  /\ _additional_param_values out.2 !! 0%nat = Some (example_tensor true [1; 2])
  /\ traverse (store out.2) (ARef 0) ["bn"; "running_mean"]%string
     = Some (AVal InBuffers v1)
  /\ _additional_param_values out.2 !! 2%nat = Some v1.
Proof.
  intros v1 v2 names tom out.
  repeat split; vm_compute; reflexivity.
Qed.

(** * Further properties of the code *)

(** ** Fingerprint engine: when two fingerprints are equal *)

Lemma has_rule_truthy (x : pyvalue) :
  truthy (_make_subkey_for x).1 = negb (has_no_rule x).
Proof.
  induction x as [| | |cls xs IH| | |] using pyvalue_nested_ind; simpl; try done.
  rewrite subkeys_with_forallb.
  assert (Hb : forallb (fun x => truthy (_make_subkey_for x).1) xs
               = negb (existsb has_no_rule xs)).
  { induction IH as [|y ys Hy _ IHys]; [done |]. simpl.
    rewrite Hy, IHys. by rewrite negb_orb. }
  rewrite Hb. by destruct (existsb has_no_rule xs).
Qed.

Lemma subkey_eq_erase (x y : pyvalue) :
  has_no_rule x = false -> has_no_rule y = false ->
  (_make_subkey_for x = _make_subkey_for y <-> erase_contents x = erase_contents y).
Proof.
  revert y.
  induction x as [sh dev dt rg st|sh st|s|cls xs IH|items|v|c i] using pyvalue_nested_ind;
    intros y Hx Hy; try done.
  - destruct y as [sh' dev' dt' rg' st'| | |cls' ys| | |]; try done; simpl.
    + split; intros [=]; by subst.
    + simpl in Hy. rewrite subkeys_with_forallb.
      destruct (forallb _ ys); split; done.
  - destruct y as [| |s'|cls' ys| | |]; try done; simpl.
    + split; intros [=]; by subst.
    + rewrite subkeys_with_forallb. destruct (forallb _ ys); split; done.
  - destruct y as [| |s'|cls' ys| |v'|]; try done.
    + simpl. rewrite subkeys_with_forallb. destruct (forallb _ xs); split; done.
    + simpl. rewrite subkeys_with_forallb. destruct (forallb _ xs); split; done.
    + simpl in Hx, Hy.
      assert (Hxs : forallb (fun x => truthy (_make_subkey_for x).1) xs = true).
      { apply forallb_forall. intros a Ha. rewrite has_rule_truthy.
        destruct (has_no_rule a) eqn:Hna; [| done].
        assert (existsb has_no_rule xs = true) by (apply existsb_exists; eauto).
        congruence. }
      assert (Hys : forallb (fun x => truthy (_make_subkey_for x).1) ys = true).
      { apply forallb_forall. intros a Ha. rewrite has_rule_truthy.
        destruct (has_no_rule a) eqn:Hna; [| done].
        assert (existsb has_no_rule ys = true) by (apply existsb_exists; eauto).
        congruence. }
      rewrite !make_subkey_seq, Hxs, Hys. simpl.
      assert (Hlist : map (fun x => (_make_subkey_for x).2) xs
                      = map (fun x => (_make_subkey_for x).2) ys
                      <-> map erase_contents xs = map erase_contents ys).
      { clear Hxs Hys. revert ys Hy.
        induction IH as [|a xs' Ha _ IHxs]; intros ys Hy.
        - destruct ys; split; done.
        - destruct ys as [|b ys]; [split; done |].
          simpl in Hx, Hy. apply orb_false_iff in Hx as [Hxa Hxs'].
          apply orb_false_iff in Hy as [Hyb Hys'].
          specialize (IHxs Hxs' ys Hys'). specialize (Ha b Hxa Hyb).
          assert (Hta : truthy (_make_subkey_for a).1 = true)
            by by rewrite has_rule_truthy, Hxa.
          assert (Htb : truthy (_make_subkey_for b).1 = true)
            by by rewrite has_rule_truthy, Hyb.
          simpl. split.
          + intros [= Hk Hrest]. f_equal; [| by apply IHxs].
            apply Ha. destruct (_make_subkey_for a) as [fa ka], (_make_subkey_for b) as [fb kb].
            simpl in *. destruct fa, fb; try done. by subst.
          + intros [= He Hrest]. apply Ha in He. rewrite He. f_equal. by apply IHxs. }
      split.
      * intros [= Hk]. f_equal. by apply Hlist.
      * intros [= He]. do 2 f_equal. by apply Hlist.
    + simpl. rewrite subkeys_with_forallb. destruct (forallb _ xs); split; done.
  - destruct y as [| | |cls' ys| |v'|]; try done; simpl.
    + rewrite subkeys_with_forallb. destruct (forallb _ ys); split; done.
    + split; intros [=]; by subst.
Qed.

Lemma subkey_flag_key (x : pyvalue) :
  has_no_rule x = false ->
  _make_subkey_for x = (PyTrue, (_make_subkey_for x).2).
Proof.
  intros Hx. pose proof (has_rule_truthy x) as Ht. rewrite Hx in Ht.
  destruct (_make_subkey_for x) as [f k]. simpl in *. by destruct f.
Qed.

Lemma subkeys_eq_erase (xs ys : list pyvalue) :
  Forall (fun x => has_no_rule x = false) xs ->
  Forall (fun x => has_no_rule x = false) ys ->
  (map (fun x => (_make_subkey_for x).2) xs = map (fun x => (_make_subkey_for x).2) ys
   <-> map erase_contents xs = map erase_contents ys).
Proof.
  intros Hxs. revert ys. induction Hxs as [|a xs Ha _ IH]; intros ys Hys.
  - destruct ys; split; done.
  - destruct Hys as [|b ys Hb Hys]; [split; done |].
    specialize (IH ys Hys). pose proof (subkey_eq_erase a b Ha Hb) as Hab.
    simpl. split.
    + intros [= Hk Hrest]. f_equal; [| by apply IH].
      apply Hab. rewrite (subkey_flag_key a Ha), (subkey_flag_key b Hb). by rewrite Hk.
    + intros [= He Hrest]. apply Hab in He. rewrite He. f_equal. by apply IH.
Qed.

Lemma kwarg_keys_eq_erase (xs ys : kwargs_t) :
  Forall (fun kv => has_no_rule kv.2 = false) xs ->
  Forall (fun kv => has_no_rule kv.2 = false) ys ->
  (map (fun kv => (kwarg_helper kv.1 kv.2).2) xs
   = map (fun kv => (kwarg_helper kv.1 kv.2).2) ys
   <-> erase_kwargs xs = erase_kwargs ys).
Proof.
  intros Hxs. revert ys. induction Hxs as [|[k a] xs Ha _ IH]; intros ys Hys.
  - destruct ys; split; done.
  - destruct Hys as [|[k' b] ys Hb Hys]; [split; done |].
    specialize (IH ys Hys). simpl in Ha, Hb.
    pose proof (subkey_eq_erase a b Ha Hb) as Hab.
    unfold erase_kwargs in *. simpl. unfold kwarg_helper. simpl.
    rewrite (subkey_flag_key a Ha), (subkey_flag_key b Hb). simpl.
    split.
    + intros [= Hk Hv Hrest]. subst k'. f_equal; [| by apply IH].
      f_equal. apply Hab.
      rewrite (subkey_flag_key a Ha), (subkey_flag_key b Hb). by rewrite Hv.
    + intros [= Hk He Hrest]. subst k'. apply Hab in He. rewrite He.
      f_equal. by apply IH.
Qed.

Lemma subkey_not_kwarg (x : pyvalue) a b : (_make_subkey_for x).2 <> KKwarg a b.
Proof.
  destruct x; simpl; try done.
  by destruct (subkeys_with _make_subkey_for xs).
Qed.

(** The sub-keys of the keyword arguments are triples with the separator
    class, which no sub-key of a positional argument is: where the positional
    part of a fingerprint ends can be read off the fingerprint. *)
Lemma key_parts_inj (xs ys : list pyvalue) (kxs kys : kwargs_t) :
  map (fun x => (_make_subkey_for x).2) xs
    ++ map (fun kv => (kwarg_helper kv.1 kv.2).2) kxs
  = map (fun x => (_make_subkey_for x).2) ys
    ++ map (fun kv => (kwarg_helper kv.1 kv.2).2) kys ->
  map (fun x => (_make_subkey_for x).2) xs = map (fun x => (_make_subkey_for x).2) ys
  /\ map (fun kv => (kwarg_helper kv.1 kv.2).2) kxs
     = map (fun kv => (kwarg_helper kv.1 kv.2).2) kys.
Proof.
  assert (Hkw : forall kv : string * pyvalue,
             exists a b, (kwarg_helper kv.1 kv.2).2 = KKwarg a b).
  { intros [k v]. unfold kwarg_helper. simpl.
    destruct (_make_subkey_for v). simpl. by eauto. }
  revert ys. induction xs as [|x xs IH]; intros ys Heq.
  - destruct ys as [|y ys]; [done |]. simpl in Heq.
    destruct kxs as [|kv kxs]; [done |]. simpl in Heq.
    injection Heq as Hh _. destruct (Hkw kv) as (a & b & Hab).
    rewrite Hab in Hh. symmetry in Hh. by apply subkey_not_kwarg in Hh.
  - destruct ys as [|y ys]; simpl in Heq.
    + destruct kys as [|kv kys]; [done |]. simpl in Heq.
      injection Heq as Hh _. destruct (Hkw kv) as (a & b & Hab).
      rewrite Hab in Hh. by apply subkey_not_kwarg in Hh.
    + injection Heq as Hh Hrest. destruct (IH ys Hrest) as [Hp Hq].
      simpl. by rewrite Hh, Hp, Hq.
Qed.

Lemma make_cache_key_with_rules (args : list pyvalue) (kwargs : kwargs_t) :
  all_have_rules args kwargs ->
  _make_cache_key args kwargs =
  Some (map (fun x => (_make_subkey_for x).2) args
          ++ map (fun kv => (kwarg_helper kv.1 kv.2).2) kwargs).
Proof.
  intros [Ha Hk]. unfold _make_cache_key. rewrite !subkeys_with_forallb.
  assert (Hfa : forallb (fun x => truthy (_make_subkey_for x).1) args = true).
  { apply forallb_forall. intros x Hx. rewrite Forall_forall in Ha.
    rewrite has_rule_truthy, Ha; [done | by apply list_elem_of_In]. }
  assert (Hfk : forallb (fun kv : string * pyvalue => truthy (kwarg_helper kv.1 kv.2).1)
                  kwargs = true).
  { apply forallb_forall. intros x Hx. rewrite Forall_forall in Hk.
    rewrite kwarg_helper_flag, has_rule_truthy, Hk; [done | by apply list_elem_of_In]. }
  by rewrite Hfa, Hfk.
Qed.

(** X1.  For arguments that all have a fingerprint rule, two calls have
    equal fingerprints exactly when their positional arguments, and their
    keyword arguments with their names and in their order, are the same up to
    the storage of tensors and the class (list or tuple) of sequences.  So a
    difference in a shape, device, dtype or requires_grad flag, in a string,
    in the type or value of a scalar, or in the number of arguments always
    gives another fingerprint. *)
Theorem fingerprint_equal_iff_same_metadata
    (args args' : list pyvalue) (kwargs kwargs' : kwargs_t) :
  all_have_rules args kwargs ->
  all_have_rules args' kwargs' ->
  (_make_cache_key args kwargs = _make_cache_key args' kwargs'
   <-> map erase_contents args = map erase_contents args'
       /\ erase_kwargs kwargs = erase_kwargs kwargs').
Proof.
  intros H1 H2.
  rewrite (make_cache_key_with_rules _ _ H1), (make_cache_key_with_rules _ _ H2).
  destruct H1 as [Ha Hk], H2 as [Ha' Hk'].
  split.
  - intros [= Heq]. apply key_parts_inj in Heq as [Hp Hq].
    split; [by apply subkeys_eq_erase | by apply kwarg_keys_eq_erase].
  - intros [Hp Hq]. apply subkeys_eq_erase in Hp; [| done..].
    apply kwarg_keys_eq_erase in Hq; [| done..]. by rewrite Hp, Hq.
Qed.

Lemma fingerprint_equal_iff_same_metadata_witness :
  _make_cache_key [example_tensor false [1; 2]; VSeq PyList [VScalar (SInt 3)]]
    [("scale"%string, VStr "a")]
  = _make_cache_key [example_tensor false [7; 8]; VSeq Tuple [VScalar (SInt 3)]]
      [("scale"%string, VStr "a")]
  /\ _make_cache_key [VScalar (SInt 1)] [] <> _make_cache_key [VScalar (SBool true)] [].
Proof.
  split.
  - apply (proj2 (fingerprint_equal_iff_same_metadata
                    [example_tensor false [1; 2]; VSeq PyList [VScalar (SInt 3)]]
                    [example_tensor false [7; 8]; VSeq Tuple [VScalar (SInt 3)]]
                    [("scale"%string, VStr "a")] [("scale"%string, VStr "a")]
                    ltac:(split; repeat constructor) ltac:(split; repeat constructor))).
    split; reflexivity.
  - intros Heq.
    apply (proj1 (fingerprint_equal_iff_same_metadata
                    [VScalar (SInt 1)] [VScalar (SBool true)] [] []
                    ltac:(split; repeat constructor) ltac:(split; repeat constructor)))
      in Heq.
    destruct Heq as [Heq _]. discriminate Heq.
Defined.

(** X2.  The fingerprint is indeterminate exactly when some positional or
    keyword argument has no fingerprint rule: it is a NumPy array, a
    collection that is no sequence, an object that is not hashable, or a
    sequence that holds one of these at any depth. *)
Theorem fingerprint_indeterminate_iff (args : list pyvalue) (kwargs : kwargs_t) :
  _make_cache_key args kwargs = None
  <-> Exists (fun x => has_no_rule x = true) args
      \/ Exists (fun kv => has_no_rule kv.2 = true) kwargs.
Proof.
  split; [| apply make_cache_key_no_rule].
  intros Hnone.
  destruct (decide (Forall (fun x => has_no_rule x = false) args)) as [Ha|Ha].
  - destruct (decide (Forall (fun kv : string * pyvalue => has_no_rule kv.2 = false) kwargs))
      as [Hk|Hk].
    + rewrite make_cache_key_with_rules in Hnone; done.
    + right. apply not_Forall_Exists in Hk; [| solve_decision].
      eapply Exists_impl; [exact Hk |]. intros x Hx. simpl in Hx.
      by destruct (has_no_rule x.2).
  - left. apply not_Forall_Exists in Ha; [| solve_decision].
    eapply Exists_impl; [exact Ha |]. intros x Hx. simpl in Hx.
    by destruct (has_no_rule x).
Qed.

(** X3.  The fingerprint depends on the order in which the keyword
    arguments are passed: the same two keyword arguments in the other order
    give another fingerprint. *)
Theorem fingerprint_depends_on_keyword_order
    (args : list pyvalue) (k1 k2 : string) (v1 v2 : pyvalue) :
  k1 <> k2 ->
  all_have_rules args [(k1, v1); (k2, v2)] ->
  _make_cache_key args [(k1, v1); (k2, v2)]
  <> _make_cache_key args [(k2, v2); (k1, v1)].
Proof.
  intros Hne [Ha Hk] Heq.
  assert (Hk' : Forall (fun kv : string * pyvalue => has_no_rule kv.2 = false)
                  [(k2, v2); (k1, v1)]).
  { inversion Hk as [|? ? H1 Hk1]; subst.
    inversion Hk1 as [|? ? H2 _]; subst. by repeat constructor. }
  rewrite (make_cache_key_with_rules args _ (conj Ha Hk)) in Heq.
  rewrite (make_cache_key_with_rules args _ (conj Ha Hk')) in Heq.
  injection Heq as Heq.
  apply (key_parts_inj args args [(k1, v1); (k2, v2)] [(k2, v2); (k1, v1)]) in Heq
    as [_ Hkw].
  apply kwarg_keys_eq_erase in Hkw; [| done..].
  unfold erase_kwargs in Hkw. simpl in Hkw. congruence.
Qed.

Lemma fingerprint_depends_on_keyword_order_witness :
  _make_cache_key [] [("a"%string, VScalar (SInt 1)); ("b"%string, VScalar (SInt 2))]
  <> _make_cache_key [] [("b"%string, VScalar (SInt 2)); ("a"%string, VScalar (SInt 1))].
Proof.
  apply (fingerprint_depends_on_keyword_order [] "a" "b"
           (VScalar (SInt 1)) (VScalar (SInt 2))).
  - discriminate.
  - split; repeat constructor.
Defined.

(** ** Cache manager: what a [cache_put] changes *)

Lemma dict_set_keys_present {K V} `{EqDecision K} (d : list (K * V)) (k : K) (v : V) :
  k ∈ d.*1 -> (dict_set d k v).*1 = d.*1.
Proof.
  induction d as [|[k' v'] d IH]; simpl; [by intros ?%elem_of_nil |].
  intros Hin. destruct (decide (k = k')) as [->|Hne]; [done |].
  csimpl. f_equal. apply IH. apply elem_of_cons in Hin as [?|?]; done.
Qed.

Lemma dict_set_keys_absent {K V} `{EqDecision K} (d : list (K * V)) (k : K) (v : V) :
  k ∉ d.*1 -> (dict_set d k v).*1 = d.*1 ++ [k].
Proof.
  induction d as [|[k' v'] d IH]; simpl; [done |].
  intros Hnot. apply not_elem_of_cons in Hnot as [Hne Hnot].
  rewrite decide_False by done. csimpl. f_equal. by apply IH.
Qed.

(** X4.  When [cache_put] reports that it stored, a [cache_get] with the
    same arguments returns the executable and the traces that were put,
    whatever the cache held under that fingerprint before, and a [cache_get]
    under any other fingerprint returns what it returned before. *)
Theorem cache_put_get_round_trip
    (stored : cache_t) fn traces (args : list pyvalue) (kwargs : kwargs_t) :
  (cache_put stored fn traces args kwargs).1 = true ->
  cache_get (cache_put stored fn traces args kwargs).2 args kwargs = (Some fn, traces)
  /\ forall args' kwargs',
      _make_cache_key args' kwargs' <> _make_cache_key args kwargs ->
      cache_get (cache_put stored fn traces args kwargs).2 args' kwargs'
      = cache_get stored args' kwargs'.
Proof.
  unfold cache_put, cache_get.
  destruct (_make_cache_key args kwargs) as [k|] eqn:Hk; [| done].
  intros _. simpl. split.
  - by rewrite dict_get_set_eq.
  - intros args' kwargs' Hne. by rewrite dict_get_set_ne.
Qed.

Lemma cache_put_get_round_trip_witness :
  let stored := (cache_put [] (Callable 5) None [example_tensor false [1; 2]] []).2 in
  let new := (cache_put stored (Callable 6) None [example_tensor false [3; 4]] []).2 in
  cache_get new [example_tensor false [9; 9]] [] = (Some (Callable 6), None)
  /\ cache_get new [VStr "x"] [] = (None, None).
Proof.
  intros stored new.
  destruct (cache_put_get_round_trip stored (Callable 6) None
              [example_tensor false [3; 4]] [] eq_refl) as [Hsame Hother].
  split; [exact Hsame |].
  exact (Hother [VStr "x"] [] ltac:(discriminate)).
Defined.

(** X5.  The keys of the cache stay distinct.  A [cache_put] under a
    fingerprint that the cache does not hold adds one entry, after the
    others; under one that it holds it replaces the entry where it is, and
    the number of entries stays; with an indeterminate fingerprint it
    changes nothing. *)
Theorem cache_put_keys
    (stored : cache_t) fn traces (args : list pyvalue) (kwargs : kwargs_t) :
  NoDup stored.*1 ->
  let new := (cache_put stored fn traces args kwargs).2 in
  NoDup new.*1
  /\ match _make_cache_key args kwargs with
     | None => new = stored
     | Some k =>
         if decide (Some k ∈ stored.*1)
         then new.*1 = stored.*1 /\ length new = length stored
         else new.*1 = stored.*1 ++ [Some k] /\ length new = S (length stored)
     end.
Proof.
  intros Hnd new. subst new. unfold cache_put.
  destruct (_make_cache_key args kwargs) as [k|]; [| done]. simpl.
  destruct (decide (Some k ∈ stored.*1)) as [Hin|Hnot].
  - pose proof (dict_set_keys_present stored (Some k) (Some fn, traces) Hin) as Hkeys.
    rewrite Hkeys. split; [done |]. split; [done |].
    by rewrite <- (length_fmap fst), Hkeys, length_fmap.
  - pose proof (dict_set_keys_absent stored (Some k) (Some fn, traces) Hnot) as Hkeys.
    rewrite Hkeys. split.
    + apply NoDup_app. split; [done |]. split; [| apply NoDup_singleton].
      intros x Hx ->%list_elem_of_singleton. done.
    + split; [done |].
      rewrite <- (length_fmap fst), Hkeys, length_app, length_fmap. simpl. lia.
Qed.

Lemma cache_put_keys_witness :
  let stored := (cache_put [] (Callable 5) None [example_tensor false [1; 2]] []).2 in
  NoDup (cache_put stored (Callable 6) None [example_tensor false [3; 4]] []).2.*1
  /\ NoDup (cache_put stored (Callable 6) None [VStr "x"] []).2.*1.
Proof.
  intros stored.
  assert (Hnd : NoDup stored.*1) by apply NoDup_singleton.
  split.
  - exact (proj1 (cache_put_keys stored (Callable 6) None
                    [example_tensor false [3; 4]] [] Hnd)).
  - exact (proj1 (cache_put_keys stored (Callable 6) None [VStr "x"] [] Hnd)).
Defined.

(** ** Trace builder: a new trace *)

Lemma bind_run {St A B} (m : M St A) (k : A -> M St B) s :
  bind m k s = match m s with
               | (Returned a, s') => k a s'
               | (Raised e, s') => (Raised e, s')
               end.
Proof. reflexivity. Qed.

Section trace_more.
Context {W : Type} `{Collaborators W}.

Lemma lift_inv {A} (f : W -> outcome A * W) (s : state W) r s' :
  lift f s = (r, s') -> f (ext s) = (r, ext s') /\ s' = set_ext (ext s') s.
Proof.
  unfold lift. destruct (f (ext s)) as [r0 w]. intros [= <- <-]. done.
Qed.

(** What the block under [try] returns is a trace: the new one, or the one
    that [dce] made of it. *)
Lemma trace_body_returns_trace
    compile_data (rename ret_stmt use_dce ddp : bool) fn t args kwargs (s : state W) r s' :
  trace_body compile_data rename ret_stmt use_dce ddp fn t args kwargs s
  = (Returned r, s') ->
  exists t', r = OTrace t' /\ (use_dce = false -> t' = t).
Proof.
  unfold trace_body. intros Hrun.
  repeat (apply bind_inv in Hrun as [(? & ? & _ & Hrun)|(? & _ & ?)]; [| done]).
  destruct use_dce.
  - apply bind_inv in Hrun as [(p & ? & _ & Hrun)|(? & _ & ?)]; [| done].
    injection Hrun as <- _. by eexists.
  - injection Hrun as <- _. by eexists.
Qed.

(** X6.  When no trace is active, or inlining is switched off, [trace]
    constructs exactly one trace object, whether it returns or raises, and
    leaves the trace that was active before as the active one.  What it
    returns is then a trace and never a result of the function: with
    [use_dce] off it is the trace object constructed in this call. *)
Theorem trace_builds_one_trace
    compile_data (inline rename ret_stmt use_dce ddp : bool) fn args kwargs (s : state W) :
  tracectx_stack s = [] \/ inline = false ->
  let out := trace compile_data inline rename ret_stmt use_dce ddp fn args kwargs s in
  traces_built out.2 = S (traces_built s)
  /\ tracectx_stack out.2 = tracectx_stack s
  /\ (forall r, out.1 = Returned r ->
        exists t, r = OTrace t /\ (use_dce = false -> t = Trace (traces_built s))).
Proof.
  intros Hnew out. subst out.
  rewrite (trace_traced _ _ _ _ _ _ _ _ _ s Hnew). simpl.
  split; [by rewrite (keeps_trace_body traces_built) |]. split; [done |].
  intros r Hr.
  destruct (trace_body _ _ _ _ _ _ _ _ _ (tracing_state compile_data s))
    as [r0 s'] eqn:Hrun.
  simpl in Hr. subst r0. by eapply trace_body_returns_trace.
Qed.

(** X7.  When [_unpack_inputs] raises, [trace] raises the same exception
    and the function under trace is not called: the world is as
    [_unpack_inputs] left it.  Both context stacks are restored, and the
    trace object that was constructed for the call is lost. *)
Theorem trace_unpack_failure_skips_function
    compile_data (inline rename ret_stmt use_dce ddp : bool) fn args kwargs
    (s : state W) e w :
  tracectx_stack s = [] \/ inline = false ->
  _unpack_inputs fn (Trace (traces_built s)) args kwargs rename (ext s) = (Raised e, w) ->
  let out := trace compile_data inline rename ret_stmt use_dce ddp fn args kwargs s in
  out.1 = Raised e
  /\ ext out.2 = w
  /\ tracectx_stack out.2 = tracectx_stack s
  /\ langctx_stack out.2 = langctx_stack s
  /\ traces_built out.2 = S (traces_built s).
Proof.
  intros Hnew Hunpack out. subst out.
  rewrite (trace_traced _ _ _ _ _ _ _ _ _ s Hnew).
  assert (Hbody : trace_body compile_data rename ret_stmt use_dce ddp fn
                    (Trace (traces_built s)) args kwargs (tracing_state compile_data s)
                  = (Raised e, set_ext w (tracing_state compile_data s))).
  { unfold trace_body. rewrite bind_run. unfold lift. simpl. by rewrite Hunpack. }
  rewrite Hbody. done.
Qed.

(** A run of [trace] that builds a new trace and returns. *)
Lemma trace_new_returned
    compile_data (inline rename ret_stmt use_dce ddp : bool) fn args kwargs
    (s : state W) r s' :
  tracectx_stack s = [] \/ inline = false ->
  trace compile_data inline rename ret_stmt use_dce ddp fn args kwargs s
  = (Returned r, s') ->
  (exists t, r = OTrace t) /\ traces_built s' = S (traces_built s).
Proof.
  intros Hnew Hrun. rewrite (trace_traced _ _ _ _ _ _ _ _ _ s Hnew) in Hrun.
  simpl in Hrun.
  pose proof (keeps_trace_body traces_built compile_data rename ret_stmt use_dce ddp fn
                (Trace (traces_built s)) args kwargs (fun _ _ => eq_refl)
                (tracing_state compile_data s)) as Htb.
  destruct (trace_body _ _ _ _ _ _ _ _ _ (tracing_state compile_data s))
    as [r0 s0] eqn:Hbody.
  injection Hrun as -> <-. simpl in *. split; [| done].
  destruct (trace_body_returns_trace _ _ _ _ _ _ _ _ _ _ _ _ Hbody) as (t & -> & _).
  by eexists.
Qed.

(** ** Transforms and the execution pipeline *)

(** X8.  Applying the transforms of a list that is the concatenation of two
    lists is applying those of the first list and then, to the trace and the
    list of traces that this gave, those of the second; when a transform of
    the first list raises, none of the second runs. *)
Theorem apply_transforms_app ts1 ts2 trc traces (s : state W) :
  apply_transforms (ts1 ++ ts2) trc traces s
  = (p <- apply_transforms ts1 trc traces ;; apply_transforms ts2 p.1 p.2) s.
Proof.
  revert trc traces s. induction ts1 as [|t ts1 IH]; intros trc traces s; [done |].
  simpl. rewrite !bind_run.
  destruct (lift (apply_transform t trc) s) as [[p|e] s1]; [| done].
  rewrite IH. by rewrite bind_run.
Qed.

(** The transforms only add to the list of traces. *)
Lemma apply_transforms_extends ts trc traces (s : state W) trc' traces' s' :
  apply_transforms ts trc traces s = (Returned (trc', traces'), s') ->
  exists added, traces' = traces ++ added.
Proof.
  revert trc traces s. induction ts as [|t ts IH]; intros trc traces s Hrun.
  - injection Hrun as _ <- _. exists []. by rewrite app_nil_r.
  - simpl in Hrun. apply bind_inv in Hrun as [(p & s1 & _ & Hrun)|(? & _ & ?)]; [| done].
    apply IH in Hrun as [added ->]. exists (p.2 ++ added). by rewrite app_assoc.
Qed.

End trace_more.

Lemma trace_builds_one_trace_witness :
  let s := example_state CompileStats_init [Trace 9] in
  let out := trace None false true true false false (Callable 2)
               [example_tensor false [1; 2]] [] s in
  traces_built out.2 = 1%nat
  /\ tracectx_stack out.2 = [Trace 9]
  /\ out.1 = Returned (OTrace (Trace 0)).
Proof.
  intros s out.
  destruct (trace_builds_one_trace None false true true false false (Callable 2)
              [example_tensor false [1; 2]] [] s (or_intror eq_refl))
    as (Htb & Hts & Hres).
  split; [exact Htb |]. split; [exact Hts |]. reflexivity.
Defined.

Lemma trace_unpack_failure_skips_function_witness :
  let s := example_state CompileStats_init [] in
  let out := @trace _ unpack_raises_collaborators None true true true true false
               (Callable 2) [example_tensor false [1; 2]] [] s in
  out.1 = Raised (Exn "ValueError" "cannot unpack")
  /\ ext out.2 = ["unpack"%string]
  /\ tracectx_stack out.2 = [].
Proof.
  intros s out.
  assert (Hunpack : @_unpack_inputs _ unpack_raises_collaborators (Callable 2)
                      (Trace (traces_built s)) [example_tensor false [1; 2]] [] true (ext s)
                    = (Raised (Exn "ValueError" "cannot unpack"), ["unpack"%string]))
    by reflexivity.
  destruct (@trace_unpack_failure_skips_function _ unpack_raises_collaborators
              None true true true true false (Callable 2)
              [example_tensor false [1; 2]] [] s _ _ (or_introl eq_refl) Hunpack)
    as (Hr & He & Hts & _).
  split; [exact Hr |]. split; [exact He | exact Hts].
Defined.


(** ** Dispatcher: counters, modes and paths *)

Ltac close_raised :=
  intros ? ?; first [ discriminate | simpl in *; rewrite_facts; done ].

Section dispatch_more.
Context {W : Type} `{Collaborators W}.

(** What one call does to the counters and to the context stacks, on every
    path and whether it returns or raises. *)
Lemma _fn_counts cd ts pts args kwargs (s : state W) :
  let out := _fn cd ts pts args kwargs s in
  calls (cs out.2) = calls (cs s) + 1
  /\ tracectx_stack out.2 = tracectx_stack s
  /\ langctx_stack out.2 = langctx_stack s
  /\ ((cache_hits (cs out.2) = cache_hits (cs s) + 1
       /\ cache_misses (cs out.2) = cache_misses (cs s))
      \/ (cache_hits (cs out.2) = cache_hits (cs s)
          /\ cache_misses (cs out.2) = cache_misses (cs s) + 1)).
Proof.
  intros out. subst out. rewrite _fn_unfold.
  assert (Hmiss :
    let out := _fn_miss cd ts pts args kwargs (entered s) in
    calls (cs out.2) = calls (cs s) + 1
    /\ tracectx_stack out.2 = tracectx_stack s
    /\ langctx_stack out.2 = langctx_stack s
    /\ ((cache_hits (cs out.2) = cache_hits (cs s) + 1
         /\ cache_misses (cs out.2) = cache_misses (cs s))
        \/ (cache_hits (cs out.2) = cache_hits (cs s)
            /\ cache_misses (cs out.2) = cache_misses (cs s) + 1))).
  { intros out.
    destruct (_fn_miss cd ts pts args kwargs (entered s)) as [r s'] eqn:Hrun.
    apply _fn_miss_inv in Hrun as (Hh & Hm & Hc & Ht & Hl & _). subst out. simpl in *.
    rewrite Hc, Ht, Hl, Hh, Hm. split; [done |]. split; [done |]. split; [done |].
    by right. }
  assert (Hhit : forall c (f : CompileStats -> CompileStats),
    (forall x, calls (f x) = calls x) -> (forall x, cache_hits (f x) = cache_hits x) ->
    (forall x, cache_misses (f x) = cache_misses x) ->
    let out := _fn_hit c args kwargs
                 (set_cs (f (set_cache_hits (cache_hits (cs (entered s)) + 1)
                               (cs (entered s)))) (entered s)) in
    calls (cs out.2) = calls (cs s) + 1
    /\ tracectx_stack out.2 = tracectx_stack s
    /\ langctx_stack out.2 = langctx_stack s
    /\ ((cache_hits (cs out.2) = cache_hits (cs s) + 1
         /\ cache_misses (cs out.2) = cache_misses (cs s))
        \/ (cache_hits (cs out.2) = cache_hits (cs s)
            /\ cache_misses (cs out.2) = cache_misses (cs s) + 1))).
  { intros c f Hfc Hfh Hfm out. subst out.
    match goal with
    | |- context [_fn_hit c args kwargs ?s0] =>
        pose proof (_fn_hit_spec c args kwargs s0) as Hspec;
        destruct (_fn_hit c args kwargs s0) as [r s2]
    end.
    simpl in Hspec |- *.
    destruct Hspec as (_ & _ & _ & Hh & Hm & Hn & _ & _ & _ & _ & _ & Ht & Hl).
    rewrite Hn, Ht, Hl, Hh, Hm, Hfc, Hfh, Hfm. simpl.
    split; [done |]. split; [done |]. split; [done |]. by left. }
  destruct (decide (cache_mode cd = FIXED)) as [Hfixed|Hfixed];
    [destruct (last_executed (cs s)) as [last|] |].
  - rewrite bind_modify_cs. by apply (Hhit last (fun x => x)).
  - destruct (decide (cache_mode cd = DYNAMIC_STRIDES)); [congruence |]. apply Hmiss.
  - destruct (decide (cache_mode cd = DYNAMIC_STRIDES)); [| apply Hmiss].
    destruct (cache_get _ _ _).1 as [c|]; [| apply Hmiss].
    rewrite !bind_modify_cs. by apply (Hhit c (set_last_executed (Some c))).
Qed.

(** X10.  Every call of the compiled function, in every cache mode and
    whether it returns or raises, counts as one call and as at most one hit
    or miss: after any calls the number of calls has grown by their number,
    neither the number of hits nor that of misses has decreased, and their
    sum has grown by at most the number of calls.  Outside DYNAMIC_STRIDES
    mode, where nothing is looked up before a counter is written, every call
    counts as exactly one hit or miss and the sum has grown by the number of
    calls.  Both context stacks are afterwards what they were. *)
Theorem call_counters_balance cd ts pts (cls : list (list pyvalue * kwargs_t)) (s : state W) :
  let s' := run_calls cd ts pts cls s in
  calls (cs s') = calls (cs s) + Z.of_nat (length cls)
  /\ cache_hits (cs s) <= cache_hits (cs s')
  /\ cache_misses (cs s) <= cache_misses (cs s')
  /\ cache_hits (cs s') + cache_misses (cs s')
     <= cache_hits (cs s) + cache_misses (cs s) + Z.of_nat (length cls)
  /\ (cache_mode cd <> DYNAMIC_STRIDES ->
      cache_hits (cs s') + cache_misses (cs s')
      = cache_hits (cs s) + cache_misses (cs s) + Z.of_nat (length cls))
  /\ tracectx_stack s' = tracectx_stack s
  /\ langctx_stack s' = langctx_stack s.
Proof.
  assert (Hall : forall s : state W,
    let s' := run_calls cd ts pts cls s in
    calls (cs s') = calls (cs s) + Z.of_nat (length cls)
    /\ cache_hits (cs s') + cache_misses (cs s')
       = cache_hits (cs s) + cache_misses (cs s) + Z.of_nat (length cls)
    /\ cache_hits (cs s) <= cache_hits (cs s')
    /\ cache_misses (cs s) <= cache_misses (cs s')
    /\ tracectx_stack s' = tracectx_stack s
    /\ langctx_stack s' = langctx_stack s).
  { induction cls as [|[args kwargs] cls IH]; intros s0; simpl.
    - repeat split; lia.
    - destruct (_fn_counts cd ts pts args kwargs s0) as (Hc & Ht & Hl & Hhm).
      destruct (IH (_fn cd ts pts args kwargs s0).2) as (IHc & IHs & IHh & IHm & IHt & IHl).
      rewrite IHc, IHs, IHt, IHl, Hc, Ht, Hl.
      repeat split; try done; destruct Hhm as [[? ?]|[? ?]]; lia. }
  intros s'. destruct (Hall s) as (Hc & Hs & Hh & Hm & Ht & Hl). fold s' in Hc, Hs, Hh, Hm, Ht, Hl.
  repeat split; try done. lia.
Qed.

(** X11.  In ALWAYS_TRACE mode no call is a cache hit: after any calls the
    number of hits is what it was and the number of misses has grown by the
    number of calls. *)
Theorem always_trace_never_hits cd ts pts (cls : list (list pyvalue * kwargs_t))
    (s : state W) :
  cache_mode cd = ALWAYS_TRACE ->
  let s' := run_calls cd ts pts cls s in
  cache_hits (cs s') = cache_hits (cs s)
  /\ cache_misses (cs s') = cache_misses (cs s) + Z.of_nat (length cls).
Proof.
  intros Hmode. revert s. induction cls as [|[args kwargs] cls IH]; intros s; simpl.
  - split; lia.
  - destruct (IH (_fn cd ts pts args kwargs s).2) as (IHh & IHm).
    rewrite IHh, IHm. rewrite _fn_unfold.
    destruct (decide (cache_mode cd = FIXED)); [congruence |].
    destruct (decide (cache_mode cd = DYNAMIC_STRIDES)); [congruence |].
    destruct (_fn_miss cd ts pts args kwargs (entered s)) as [r s'] eqn:Hrun.
    apply _fn_miss_inv in Hrun as (Hh & Hm & _). simpl in *.
    rewrite Hh, Hm. split; lia.
Qed.

(** X12.  In DYNAMIC_STRIDES mode calls whose fingerprint is indeterminate
    are never served from the cache and never stored in it: starting from a
    cache built by [cache_put], after any number of such calls the cache is
    what it was, no hit was counted and every call was counted as a miss. *)
Theorem indeterminate_calls_always_miss cd ts pts
    (cls : list (list pyvalue * kwargs_t)) (s : state W) :
  cache_mode cd = DYNAMIC_STRIDES ->
  cache_built (cache (cs s)) ->
  Forall (fun c => _make_cache_key (drop (num_constant_args cd) c.1) c.2 = None) cls ->
  let s' := run_calls cd ts pts cls s in
  cache (cs s') = cache (cs s)
  /\ cache_hits (cs s') = cache_hits (cs s)
  /\ cache_misses (cs s') = cache_misses (cs s) + Z.of_nat (length cls).
Proof.
  intros Hmode Hbuilt Hall. revert s Hbuilt.
  induction Hall as [|[args kwargs] cls Hkey _ IH]; intros s Hbuilt; simpl.
  - repeat split; lia.
  - simpl in Hkey.
    assert (Hget : (cache_get (cache (cs s)) (drop (num_constant_args cd) args) kwargs).1
                   = None).
    { unfold cache_get. rewrite Hkey.
      by rewrite (dict_get_absent _ None (cache_built_keys _ Hbuilt)). }
    rewrite (_fn_dynamic_miss cd ts pts args kwargs s Hmode Hget).
    destruct (_fn_miss cd ts pts args kwargs (entered s)) as [r s1] eqn:Hrun.
    apply _fn_miss_inv in Hrun as (Hh & Hm & _ & _ & _ & Hcache). simpl in *.
    assert (Hc : cache (cs s1) = cache (cs s)).
    { destruct Hcache as [(Hc & _)|(c & traces & v & _ & _ & Hc & _)]; [done |].
      rewrite Hc. destruct (decide (cache_mode cd = DYNAMIC_STRIDES)); [| done].
      unfold cache_put. by rewrite Hkey. }
    destruct (IH s1) as (IHc & IHh & IHm); [by rewrite Hc |].
    rewrite IHc, IHh, IHm, Hc, Hh, Hm. repeat split; lia.
Qed.

Lemma run_calls_fixed_keeps cd ts pts cls (s : state W) c :
  cache_mode cd = FIXED ->
  last_executed (cs s) = Some c ->
  last_executed (cs (run_calls cd ts pts cls s)) = Some c.
Proof.
  intros Hmode. revert s. induction cls as [|[a k] cls IH]; intros s Hlast; [done |].
  simpl. apply IH.
  by destruct (_fn_fixed_step cd ts pts a k s c Hmode Hlast)
    as (_ & _ & _ & _ & _ & _ & _ & _ & Hl & _).
Qed.

(** The callable that [_execute_trace] returns is the one it ran. *)
Lemma _execute_trace_ran trc args kwargs cd pts (s : state W) result c traces s' :
  _execute_trace trc args kwargs cd pts s = (Returned (result, c, traces), s') ->
  exists w, call c args kwargs w = (Returned result, ext s').
Proof.
  intros Hrun. unfold _execute_trace in Hrun.
  apply bind_inv in Hrun as [(p & s1 & _ & Hrun)|(? & _ & ?)]; [| done].
  apply bind_inv in Hrun as [(q & s2 & _ & Hrun)|(? & _ & ?)]; [| done].
  apply bind_inv in Hrun as [(c0 & s3 & _ & Hrun)|(? & _ & ?)]; [| done].
  apply bind_inv in Hrun as [(c1 & s4 & _ & Hrun)|(? & _ & ?)]; [| done].
  apply bind_inv in Hrun as [(res & s5 & Hcall & Hrun)|(? & _ & ?)]; [| done].
  injection Hrun as <- <- <- <-.
  apply lift_inv in Hcall as [Hcall _]. by eexists.
Qed.

(** A miss on the tracing branch with no trace active that returns: the
    trace of the processed function goes through the transforms and then
    through the execution pipeline, each step starting in the world the one
    before left; the result, the callable and the traces that are recorded
    are those of these steps. *)
Lemma _fn_miss_traced cd ts pts args kwargs (s : state W) v s' :
  autograd_branch cd args kwargs = false ->
  tracectx_stack s = [] ->
  _fn_miss cd ts pts args kwargs s = (Returned v, s') ->
  exists sa t s1 sb q s2 sc x c extraces s3,
    same_world sa s
    /\ trace (Some cd) true true true true false (processed_function cd) args kwargs sa
       = (Returned (OTrace t), s1)
    /\ same_world sb s1
    /\ apply_transforms ts (OTrace t) [OTrace t] sb = (Returned q, s2)
    /\ same_world sc s2
    /\ _execute_trace q.1 args kwargs cd pts sc = (Returned (x, c, extraces), s3)
    /\ same_world s' s3
    /\ v = OValue x
    /\ last_traces (cs s') = Some (q.2 ++ extraces)
    /\ last_executed (cs s') = Some c
    /\ traces_built s' = S (traces_built s)
    /\ cache (cs s')
       = (if decide (cache_mode cd = DYNAMIC_STRIDES)
          then (cache_put (cache (cs s)) c (Some (q.2 ++ extraces))
                  (drop (num_constant_args cd) args) kwargs).2
          else cache (cs s)).
Proof.
  intros Hauto Hstack Hret.
  unfold _fn_miss in Hret. fold (autograd_branch cd args kwargs) in Hret.
  rewrite Hauto in Hret.
  rewrite bind_modify_cs, bind_time_ns, bind_modify_cs, bind_time_ns, bind_modify_cs
    in Hret.
  rewrite bind_run in Hret.
  lazymatch type of Hret with
  | context [trace ?x1 ?x2 ?x3 ?x4 ?x5 ?x6 ?x7 ?x8 ?x9 ?s0] =>
      pose proof (trace_new_returned x1 x2 x3 x4 x5 x6 x7 x8 x9 s0) as Ht;
      pose proof (trace_keeps x1 x2 x3 x4 x5 x6 x7 x8 x9 s0) as Hk;
      assert (Hwa : same_world s0 s) by done;
      destruct (trace x1 x2 x3 x4 x5 x6 x7 x8 x9 s0) as [[trc|err] s1] eqn:Htrace
  end; [| done].
  simpl in Ht, Hk.
  destruct (Ht trc s1 (or_introl Hstack) eq_refl) as ((t & ->) & Htb). clear Ht.
  destruct Hk as (Hcs & _ & Hts & Hclock).
  rewrite bind_time_ns, bind_modify_cs, bind_get_tracectx in Hret.
  norm_state. rewrite Hts, Hstack in Hret. simpl in Hret.
  change (check true ?m ?c) with (@ret (state W) unit tt) in Hret.
  rewrite (bind_returned (ret tt) _ _ tt _ eq_refl) in Hret.
  rewrite bind_run in Hret.
  lazymatch type of Hret with
  | context [apply_transforms ts ?trc0 ?l ?s0] =>
      pose proof (keeps_apply_transforms cs ts trc0 l (fun _ _ => eq_refl) s0) as Ha1;
      pose proof (keeps_apply_transforms traces_built ts trc0 l (fun _ _ => eq_refl) s0)
        as Ha2;
      assert (Hwb : same_world s0 s1) by done;
      destruct (apply_transforms ts trc0 l s0) as [[q|err] s2] eqn:Happ
  end; [| done].
  simpl in Ha1, Ha2.
  rewrite bind_time_ns, bind_modify_cs in Hret. norm_state.
  rewrite bind_run in Hret.
  lazymatch type of Hret with
  | context [_execute_trace ?x1 ?x2 ?x3 ?x4 ?x5 ?s0] =>
      pose proof (keeps_execute_trace cs x1 x2 x3 x4 x5 (fun _ _ => eq_refl) s0) as He1;
      pose proof (keeps_execute_trace traces_built x1 x2 x3 x4 x5 (fun _ _ => eq_refl) s0)
        as He2;
      assert (Hwc : same_world s0 s2) by done;
      destruct (_execute_trace x1 x2 x3 x4 x5 s0) as [[[[result exe] extraces]|err] s3]
        eqn:Hexec
  end; [| done].
  simpl in He1, He2.
  eexists _, t, s1, _, q, s2, _, result, exe, extraces, s3.
  split; [exact Hwa |]. split; [exact Htrace |]. split; [exact Hwb |].
  split; [exact Happ |]. split; [exact Hwc |]. split; [exact Hexec |].
  unfold bind, time_ns, modify_cs, ret in Hret. simpl in Hret.
  destruct (decide (cache_mode cd = DYNAMIC_STRIDES)); simpl in Hret;
    injection Hret as <- <-; simpl; rewrite ?He1, ?He2; simpl; rewrite ?Ha1, ?Ha2; simpl;
    rewrite ?Hcs, ?Htb; simpl; done.
Qed.

(** A miss that returns and was not inlined has run the callable it
    records: that callable, called on the arguments of the call, gave the
    result and left the world as the call leaves it. *)
Lemma _fn_miss_ran cd ts pts args kwargs (s : state W) v s' :
  tracectx_stack s = [] \/ autograd_branch cd args kwargs = true ->
  _fn_miss cd ts pts args kwargs s = (Returned v, s') ->
  exists c x w traces,
    v = OValue x
    /\ call c args kwargs w = (Returned x, ext s')
    /\ last_executed (cs s') = Some c
    /\ cache (cs s')
       = (if decide (cache_mode cd = DYNAMIC_STRIDES)
          then (cache_put (cache (cs s)) c traces
                  (drop (num_constant_args cd) args) kwargs).2
          else cache (cs s)).
Proof.
  intros Hpath Hret.
  destruct (autograd_branch cd args kwargs) eqn:Hauto.
  - unfold _fn_miss in Hret. fold (autograd_branch cd args kwargs) in Hret.
    rewrite Hauto in Hret.
    unfold bind, time_ns, modify_cs, lift, ret in Hret. simpl in Hret.
    destruct (thunder_backward cd (processed_function cd) (ext s)) as [[c|err] w1];
      [| done].
    simpl in Hret.
    destruct (call c args kwargs w1) as [[x|err] w2] eqn:Hcall; [| done].
    simpl in Hret. exists c, x, w1, None.
    destruct (decide (cache_mode cd = DYNAMIC_STRIDES)); simpl in Hret;
      injection Hret as <- <-; done.
  - destruct Hpath as [Hstack|?]; [| done].
    destruct (_fn_miss_traced cd ts pts args kwargs s v s' Hauto Hstack Hret)
      as (sa & t & s1 & sb & q & s2 & sc & x & c & extraces & s3
          & _ & _ & _ & _ & _ & Hexec & Hw & -> & _ & Hl & _ & Hc).
    apply _execute_trace_ran in Hexec as [w Hcall].
    exists c, x, w, (Some (q.2 ++ extraces)).
    destruct Hw as (-> & _). done.
Qed.

(** X13.  In FIXED mode, a call made when no callable is stored yet, that
    returns and either was made with no trace active or took the autograd
    branch, stores the callable it ran: the stored callable, called on the
    arguments of this call, gave the result that the call returns and left
    the world as the call leaves it.  Every call after it, whatever its
    arguments and whatever other calls came between, has the outcome of that
    callable on its own arguments. *)
Theorem fixed_mode_first_call_fixes_executable
    cd ts pts args kwargs (s : state W) v :
  cache_mode cd = FIXED ->
  last_executed (cs s) = None ->
  tracectx_stack s = [] \/ autograd_branch cd args kwargs = true ->
  let out := _fn cd ts pts args kwargs s in
  out.1 = Returned v ->
  exists c x w,
    v = OValue x
    /\ call c args kwargs w = (Returned x, ext out.2)
    /\ last_executed (cs out.2) = Some c
    /\ forall later args' kwargs',
        let s1 := run_calls cd ts pts later out.2 in
        (_fn cd ts pts args' kwargs' s1).1
        = outcome_map OValue (call c args' kwargs' (ext s1)).1.
Proof.
  intros Hmode Hlast Hpath out Hret. subst out.
  rewrite _fn_unfold, Hlast in Hret |- *.
  destruct (decide (cache_mode cd = FIXED)); [| done].
  destruct (decide (cache_mode cd = DYNAMIC_STRIDES)); [congruence |].
  destruct (_fn_miss cd ts pts args kwargs (entered s)) as [r s'] eqn:Hrun.
  simpl in Hret. subst r.
  destruct (_fn_miss_ran cd ts pts args kwargs (entered s) v s' Hpath Hrun)
    as (c & x & w & traces & -> & Hcall & Hl & _).
  exists c, x, w. split; [done |]. split; [done |]. split; [done |].
  intros later args' kwargs'. simpl.
  pose proof (run_calls_fixed_keeps cd ts pts later s' c Hmode Hl) as Hl1.
  by destruct (_fn_fixed_step cd ts pts args' kwargs' _ c Hmode Hl1) as (Hr & _).
Qed.


Lemma _fn_cached_miss cd ts pts args kwargs (s : state W) :
  cached_executable cd (cs s) args kwargs = None ->
  _fn cd ts pts args kwargs s = _fn_miss cd ts pts args kwargs (entered s).
Proof.
  unfold cached_executable. rewrite _fn_unfold. intros Hc.
  destruct (decide (cache_mode cd = FIXED)); destruct (last_executed (cs s));
    try done;
    destruct (decide (cache_mode cd = DYNAMIC_STRIDES)); try done;
    by rewrite Hc.
Qed.

(** The run of a hit, step by step: the clock is read five times when the
    executable returns and four times when it raises. *)
Lemma _fn_cached_hit cd ts pts args kwargs (s : state W) c :
  cached_executable cd (cs s) args kwargs = Some c ->
  let out := _fn cd ts pts args kwargs s in
  let t := fun i => time_ns_at (clock s + i) in
  out.1 = outcome_map OValue (call c args kwargs (ext s)).1
  /\ ext out.2 = (call c args kwargs (ext s)).2
  /\ last_trace_host_start (cs out.2) = t 0%nat
  /\ last_trace_cache_start (cs out.2) = t 1%nat
  /\ last_trace_cache_stop (cs out.2) = t 2%nat
  /\ last_trace_host_execution_start (cs out.2) = t 3%nat
  /\ cache_hits (cs out.2) = cache_hits (cs s) + 1
  /\ cache_misses (cs out.2) = cache_misses (cs s)
  /\ cache (cs out.2) = cache (cs s)
  /\ last_traces (cs out.2) = last_traces (cs s)
  /\ match (call c args kwargs (ext s)).1 with
     | Returned _ =>
         last_trace_host_execution_stop (cs out.2) = t 4%nat
         /\ last_trace_host_stop (cs out.2) = t 4%nat
         /\ clock out.2 = (clock s + 5)%nat
     | Raised _ =>
         last_trace_host_execution_stop (cs out.2) = last_trace_host_execution_stop (cs s)
         /\ last_trace_host_stop (cs out.2) = last_trace_host_stop (cs s)
         /\ clock out.2 = (clock s + 4)%nat
     end.
Proof.
  intros Hc out t. subst out t. unfold cached_executable in Hc. rewrite _fn_unfold.
  rewrite !Nat.add_0_r.
  replace (clock s + 1)%nat with (S (clock s)) by lia.
  replace (clock s + 2)%nat with (S (S (clock s))) by lia.
  replace (clock s + 3)%nat with (S (S (S (clock s)))) by lia.
  replace (clock s + 4)%nat with (S (S (S (S (clock s))))) by lia.
  replace (clock s + 5)%nat with (S (S (S (S (S (clock s)))))) by lia.
  destruct (decide (cache_mode cd = FIXED)); destruct (last_executed (cs s));
    try done; simplify_eq;
    try (destruct (decide (cache_mode cd = DYNAMIC_STRIDES)); [| done]; rewrite Hc).
  all: unfold _fn_hit, bind, time_ns, modify_cs, lift, ret, entered; simpl.
  all: destruct (call c args kwargs (ext s)) as [[v|err] w]; simpl; done.
Qed.

(** X15.  When the executable found by the lookups raises, the call raises
    the same exception.  The hit has been counted and the execution start
    recorded by then, and they stay; the execution stop and the host stop
    are not written and keep the values of the call before; the cache is as
    it was. *)
Theorem hit_with_raising_executable cd ts pts args kwargs (s : state W) c e w :
  cached_executable cd (cs s) args kwargs = Some c ->
  call c args kwargs (ext s) = (Raised e, w) ->
  let out := _fn cd ts pts args kwargs s in
  out.1 = Raised e
  /\ ext out.2 = w
  /\ cache_hits (cs out.2) = cache_hits (cs s) + 1
  /\ cache_misses (cs out.2) = cache_misses (cs s)
  /\ last_trace_host_execution_start (cs out.2) = time_ns_at (clock s + 3)
  /\ last_trace_host_execution_stop (cs out.2) = last_trace_host_execution_stop (cs s)
  /\ last_trace_host_stop (cs out.2) = last_trace_host_stop (cs s)
  /\ cache (cs out.2) = cache (cs s).
Proof.
  intros Hc Hcall out.
  destruct (_fn_cached_hit cd ts pts args kwargs s c Hc)
    as (Hr & He & _ & _ & _ & Hes & Hh & Hm & Hca & _ & Hstop).
  rewrite Hcall in Hr, He, Hstop. simpl in *.
  destruct Hstop as (Hx & Hy & _). done.
Qed.

(** X16.  On a hit whose executable returns the clock is read exactly five
    times, and with a clock that does not go back the timestamps of the call
    are in order: host start, cache start, cache stop, execution start,
    execution stop; the host stop is the execution stop. *)
Theorem hit_timestamps_ordered cd ts pts args kwargs (s : state W) c v w :
  clock_monotone ->
  cached_executable cd (cs s) args kwargs = Some c ->
  call c args kwargs (ext s) = (Returned v, w) ->
  let stats := cs (_fn cd ts pts args kwargs s).2 in
  last_trace_host_start stats <= last_trace_cache_start stats
  /\ last_trace_cache_start stats <= last_trace_cache_stop stats
  /\ last_trace_cache_stop stats <= last_trace_host_execution_start stats
  /\ last_trace_host_execution_start stats <= last_trace_host_execution_stop stats
  /\ last_trace_host_stop stats = last_trace_host_execution_stop stats
  /\ last_trace_host_start stats = time_ns_at (clock s)
  /\ clock (_fn cd ts pts args kwargs s).2 = (clock s + 5)%nat.
Proof.
  intros Hmono Hc Hcall stats. subst stats.
  destruct (_fn_cached_hit cd ts pts args kwargs s c Hc)
    as (_ & _ & H0 & H1 & H2 & H3 & _ & _ & _ & _ & Hstop).
  rewrite Hcall in Hstop. simpl in Hstop. destruct Hstop as (H4 & H5 & Hclock).
  rewrite H0, H1, H2, H3, H4, H5, Hclock, Nat.add_0_r.
  replace (clock s + 1)%nat with (S (clock s)) by lia.
  replace (clock s + 2)%nat with (S (S (clock s))) by lia.
  replace (clock s + 3)%nat with (S (S (S (clock s)))) by lia.
  replace (clock s + 4)%nat with (S (S (S (S (clock s))))) by lia.
  repeat split; try done; apply Hmono.
Qed.

(** X17.  A miss with an argument that requires grad, autograd support not
    being disabled, runs the callable that [thunder_backward] returns and
    returns its result.  No trace object is built, the registered transforms
    play no part, and an active trace makes no difference.  The callable
    becomes the last executed one and, in DYNAMIC_STRIDES mode, is cached
    without traces; [last_traces] and the two tracing timestamps are not
    written and keep the values of the call before. *)
Theorem autograd_branch_skips_tracing cd ts pts args kwargs (s : state W) c w1 v w2 :
  cached_executable cd (cs s) args kwargs = None ->
  autograd_branch cd args kwargs = true ->
  thunder_backward cd (processed_function cd) (ext s) = (Returned c, w1) ->
  call c args kwargs w1 = (Returned v, w2) ->
  let out := _fn cd ts pts args kwargs s in
  out.1 = Returned (OValue v)
  /\ ext out.2 = w2
  /\ last_executed (cs out.2) = Some c
  /\ cache (cs out.2)
     = (if decide (cache_mode cd = DYNAMIC_STRIDES)
        then (cache_put (cache (cs s)) c None (drop (num_constant_args cd) args) kwargs).2
        else cache (cs s))
  /\ traces_built out.2 = traces_built s
  /\ last_traces (cs out.2) = last_traces (cs s)
  /\ last_trace_tracing_start (cs out.2) = last_trace_tracing_start (cs s)
  /\ last_trace_tracing_stop (cs out.2) = last_trace_tracing_stop (cs s)
  /\ cache_misses (cs out.2) = cache_misses (cs s) + 1.
Proof.
  intros Hc Hauto Hback Hcall out. subst out.
  rewrite (_fn_cached_miss cd ts pts args kwargs s Hc).
  unfold _fn_miss. fold (autograd_branch cd args kwargs). rewrite Hauto.
  unfold bind, time_ns, modify_cs, lift, ret, entered. simpl.
  rewrite Hback. simpl. rewrite Hcall. simpl.
  destruct (decide (cache_mode cd = DYNAMIC_STRIDES)); done.
Qed.

(** A miss that raises has written neither the traces nor the executable nor
    the cache. *)
Lemma _fn_miss_raised cd ts pts args kwargs (s : state W) r s' :
  _fn_miss cd ts pts args kwargs s = (r, s') ->
  forall e, r = Raised e ->
  last_traces (cs s') = last_traces (cs s)
  /\ last_executed (cs s') = last_executed (cs s)
  /\ cache (cs s') = cache (cs s).
Proof.
  intros Hrun. unfold _fn_miss in Hrun.
  fold (autograd_branch cd args kwargs) in Hrun.
  do 3 step Hrun.
  destruct (autograd_branch cd args kwargs) eqn:Hauto.
  - repeat step Hrun; try prim Hrun; close_raised.
  - repeat step Hrun; try close_raised.
    match goal with
    | Hf : tracectx_stack _ = tracectx_stack s |- _ => rewrite Hf in *
    end.
    destruct (tracectx_stack s) as [|t0 stack] eqn:Hstack; simpl in Hrun.
    + repeat step Hrun; try prim Hrun; close_raised.
    + prim Hrun. close_raised.
Qed.

(** X18.  A call that raises, on whatever path and at whatever step, leaves
    the cache and [last_traces] as they were.  The last executed callable is
    as it was when the call was a miss, and is the executable the lookups
    found when it was a hit. *)
Theorem raising_call_stores_nothing cd ts pts args kwargs (s : state W) e :
  let out := _fn cd ts pts args kwargs s in
  out.1 = Raised e ->
  cache (cs out.2) = cache (cs s)
  /\ last_traces (cs out.2) = last_traces (cs s)
  /\ last_executed (cs out.2)
     = match cached_executable cd (cs s) args kwargs with
       | Some c => Some c
       | None => last_executed (cs s)
       end.
Proof.
  intros out Hraised. subst out.
  destruct (cached_executable cd (cs s) args kwargs) as [c|] eqn:Hc.
  - destruct (_fn_cached_hit cd ts pts args kwargs s c Hc)
      as (_ & _ & _ & _ & _ & _ & _ & _ & Hca & Hlt & _).
    split; [done |]. split; [done |].
    unfold cached_executable in Hc. rewrite _fn_unfold.
    destruct (decide (cache_mode cd = FIXED)); destruct (last_executed (cs s)) eqn:Hl;
      try done; simplify_eq;
      try (destruct (decide (cache_mode cd = DYNAMIC_STRIDES)); [| done]; rewrite Hc).
    all: rewrite ?bind_modify_cs.
    all: match goal with
         | |- context [_fn_hit ?c0 ?a0 ?k0 ?s0] =>
             pose proof (_fn_hit_spec c0 a0 k0 s0) as Hspec;
             destruct (_fn_hit c0 a0 k0 s0) as [r s2]
         end.
    all: simpl in Hspec |- *.
    all: destruct Hspec as (_ & _ & _ & _ & _ & _ & Hle & _); by rewrite Hle.
  - rewrite (_fn_cached_miss cd ts pts args kwargs s Hc) in Hraised |- *.
    destruct (_fn_miss cd ts pts args kwargs (entered s)) as [r s'] eqn:Hrun.
    simpl in Hraised.
    by destruct (_fn_miss_raised _ _ _ _ _ _ _ _ Hrun e Hraised) as (? & ? & ?).
Qed.

(** X19.  A miss on the tracing branch with no trace active that returns
    has run three steps, each in the world the one before left: [trace] on
    the processed function, which built exactly one trace object and returned
    a trace; the transforms on that trace, with the list of traces starting
    as that trace alone; and [_execute_trace] on the transformed trace.  The
    call returns the result of [_execute_trace], a value and not a trace.  It
    records the callable that [_execute_trace] returned as the last executed
    one and, as [last_traces], the list of the transforms, which starts with
    the trace of the function, followed by that of [_execute_trace]; in
    DYNAMIC_STRIDES mode that callable and that list are what is put in the
    cache. *)
Theorem traced_miss_records_traces cd ts pts args kwargs (s : state W) v :
  cached_executable cd (cs s) args kwargs = None ->
  autograd_branch cd args kwargs = false ->
  tracectx_stack s = [] ->
  let out := _fn cd ts pts args kwargs s in
  out.1 = Returned v ->
  exists sa t s1 sb q s2 sc x c extraces s3,
    same_world sa s
    /\ trace (Some cd) true true true true false (processed_function cd) args kwargs sa
       = (Returned (OTrace t), s1)
    /\ same_world sb s1
    /\ apply_transforms ts (OTrace t) [OTrace t] sb = (Returned q, s2)
    /\ same_world sc s2
    /\ _execute_trace q.1 args kwargs cd pts sc = (Returned (x, c, extraces), s3)
    /\ same_world out.2 s3
    /\ v = OValue x
    /\ last_traces (cs out.2) = Some (q.2 ++ extraces)
    /\ (exists added, q.2 = OTrace t :: added)
    /\ last_executed (cs out.2) = Some c
    /\ traces_built out.2 = S (traces_built s)
    /\ cache (cs out.2)
       = (if decide (cache_mode cd = DYNAMIC_STRIDES)
          then (cache_put (cache (cs s)) c (Some (q.2 ++ extraces))
                  (drop (num_constant_args cd) args) kwargs).2
          else cache (cs s)).
Proof.
  intros Hc Hauto Hstack out Hret. subst out.
  rewrite (_fn_cached_miss cd ts pts args kwargs s Hc) in Hret |- *.
  destruct (_fn_miss cd ts pts args kwargs (entered s)) as [r s'] eqn:Hrun.
  simpl in Hret. subst r. simpl.
  destruct (_fn_miss_traced cd ts pts args kwargs (entered s) v s' Hauto Hstack Hrun)
    as (sa & t & s1 & sb & q & s2 & sc & x & c & extraces & s3
        & Hwa & Htrace & Hwb & Happ & Hwc & Hexec & Hw & Hv & Hlt & Hl & Htb & Hcache).
  exists sa, t, s1, sb, q, s2, sc, x, c, extraces, s3.
  repeat (split; [done |]).
  split; [| done].
  destruct q as [q1 q2]. apply apply_transforms_extends in Happ as [added ->].
  by exists added.
Qed.
End dispatch_more.

Lemma call_counters_balance_witness :
  let s' := run_calls (example_cd FIXED) [] []
              [([VScalar (SInt 0); example_tensor false [1; 2]], []);
               ([VStr "x"], [])]
              (example_state CompileStats_init []) in
  calls (cs s') = 2
  /\ cache_hits (cs s') + cache_misses (cs s') = 2.
Proof.
  intros s'.
  destruct (call_counters_balance (example_cd FIXED) [] []
              [([VScalar (SInt 0); example_tensor false [1; 2]], []);
               ([VStr "x"], [])]
              (example_state CompileStats_init []))
    as (Hc & _ & _ & _ & Heq & _).
  split; [exact Hc | exact (Heq ltac:(discriminate))].
Defined.

Lemma always_trace_never_hits_witness :
  let s' := run_calls (example_cd ALWAYS_TRACE) [] []
              [([VScalar (SInt 0); example_tensor false [1; 2]], []);
               ([VScalar (SInt 0); example_tensor false [1; 2]], [])]
              (example_state CompileStats_init []) in
  cache_hits (cs s') = 0 /\ cache_misses (cs s') = 2.
Proof.
  exact (always_trace_never_hits (example_cd ALWAYS_TRACE) [] []
           [([VScalar (SInt 0); example_tensor false [1; 2]], []);
            ([VScalar (SInt 0); example_tensor false [1; 2]], [])]
           (example_state CompileStats_init []) eq_refl).
Defined.

Lemma indeterminate_calls_always_miss_witness :
  let s' := run_calls (example_cd DYNAMIC_STRIDES) [] []
              [([VScalar (SInt 0); VNdarray [2] [1; 2]], []);
               ([VScalar (SInt 0); VNdarray [2] [1; 2]], [])]
              (example_state CompileStats_init []) in
  cache (cs s') = [] /\ cache_hits (cs s') = 0 /\ cache_misses (cs s') = 2.
Proof.
  exact (indeterminate_calls_always_miss (example_cd DYNAMIC_STRIDES) [] []
           [([VScalar (SInt 0); VNdarray [2] [1; 2]], []);
            ([VScalar (SInt 0); VNdarray [2] [1; 2]], [])]
           (example_state CompileStats_init []) eq_refl cache_built_empty
           ltac:(repeat constructor)).
Defined.

Lemma fixed_mode_first_call_fixes_executable_witness :
  let cd := example_cd FIXED in
  let s := example_state CompileStats_init [] in
  let args := [VScalar (SInt 0); example_tensor false [1; 2]] in
  let out := _fn cd [] [] args [] s in
  let s1 := run_calls cd [] [] [([VStr "x"], [])] out.2 in
  (exists w, call (Callable 5) args [] w = (Returned (VScalar (SInt 5)), ext out.2))
  /\ (_fn cd [] [] [VScalar (SInt 0); VTensor [3] "cpu" "float32" false [1; 2; 3]] [] s1).1
     = Returned (OValue (VScalar (SInt 5))).
Proof.
  intros cd s args out s1.
  assert (Hret : out.1 = Returned (OValue (VScalar (SInt 5)))) by reflexivity.
  destruct (fixed_mode_first_call_fixes_executable cd [] [] args [] s
              (OValue (VScalar (SInt 5))) eq_refl eq_refl (or_introl eq_refl) Hret)
    as (c & x & w & Hv & Hcall & Hl & Hall).
  vm_compute in Hl. injection Hl as <-. injection Hv as <-.
  split; [by exists w |].
  exact (Hall [([VStr "x"], [])]
           [VScalar (SInt 0); VTensor [3] "cpu" "float32" false [1; 2; 3]] []).
Defined.


Lemma hit_with_raising_executable_witness :
  let s := example_state (set_last_executed (Some (Callable 13)) CompileStats_init) [] in
  let out := _fn (example_cd FIXED) [] [] [VScalar (SInt 0)] [] s in
  out.1 = Raised (Exn "RuntimeError" "executable 13")
  /\ cache_hits (cs out.2) = 1
  /\ last_trace_host_execution_start (cs out.2) = 1003
  /\ last_trace_host_execution_stop (cs out.2) = -1
  /\ last_trace_host_stop (cs out.2) = -1.
Proof.
  intros s out.
  assert (Hcall : call (Callable 13) [VScalar (SInt 0)] [] (ext s)
                  = (Raised (Exn "RuntimeError" "executable 13"), ["call"%string]))
    by reflexivity.
  destruct (hit_with_raising_executable (example_cd FIXED) [] [] [VScalar (SInt 0)] [] s
              (Callable 13) _ _ eq_refl Hcall)
    as (Hr & _ & Hh & _ & Hes & Hx & Hy & _).
  split; [exact Hr |]. split; [exact Hh |]. split; [exact Hes |].
  split; [exact Hx | exact Hy].
Defined.

Lemma hit_timestamps_ordered_witness :
  let s := example_state (set_last_executed (Some (Callable 4)) CompileStats_init) [] in
  let out := _fn (example_cd FIXED) [] [] [VScalar (SInt 0)] [] s in
  last_trace_host_stop (cs out.2) = last_trace_host_execution_stop (cs out.2)
  /\ last_trace_host_start (cs out.2) = 1000
  /\ clock out.2 = 5%nat.
Proof.
  intros s out.
  assert (Hmono : @clock_monotone _ log_collaborators)
    by (intros n; simpl; lia).
  assert (Hcall : call (Callable 4) [VScalar (SInt 0)] [] (ext s)
                  = (Returned (VScalar (SInt 4)), ["call"%string]))
    by reflexivity.
  destruct (hit_timestamps_ordered (example_cd FIXED) [] [] [VScalar (SInt 0)] [] s
              (Callable 4) _ _ Hmono eq_refl Hcall)
    as (_ & _ & _ & _ & Hstop & Hstart & Hclock).
  split; [exact Hstop |]. split; [exact Hstart | exact Hclock].
Defined.

Lemma autograd_branch_skips_tracing_witness :
  let s := example_state CompileStats_init [Trace 9] in
  let out := _fn (example_cd DYNAMIC_STRIDES) [Transform 1] []
               [VScalar (SInt 0); example_tensor true [1; 2]] [] s in
  out.1 = Returned (OValue (VScalar (SInt 7)))
  /\ traces_built out.2 = 0%nat
  /\ last_traces (cs out.2) = None
  /\ last_trace_tracing_start (cs out.2) = -1.
Proof.
  intros s out.
  assert (Hback : thunder_backward (example_cd DYNAMIC_STRIDES)
                    (processed_function (example_cd DYNAMIC_STRIDES)) (ext s)
                  = (Returned (Callable 7), ["thunder_backward"%string]))
    by reflexivity.
  assert (Hcall : call (Callable 7) [VScalar (SInt 0); example_tensor true [1; 2]] []
                    ["thunder_backward"%string]
                  = (Returned (VScalar (SInt 7)), ["thunder_backward"; "call"]%string))
    by reflexivity.
  destruct (autograd_branch_skips_tracing (example_cd DYNAMIC_STRIDES) [Transform 1] []
              [VScalar (SInt 0); example_tensor true [1; 2]] [] s
              (Callable 7) _ _ _ eq_refl eq_refl Hback Hcall)
    as (Hr & _ & _ & _ & Htb & Hlt & Hts & _).
  split; [exact Hr |]. split; [exact Htb |]. split; [exact Hlt | exact Hts].
Defined.

Lemma raising_call_stores_nothing_witness :
  let s := example_state CompileStats_init [] in
  let out := _fn (example_cd_raising DYNAMIC_STRIDES) [] []
               [VScalar (SInt 0); example_tensor false [1; 2]] [] s in
  out.1 = Raised (Exn "RuntimeError" "executable 13")
  /\ cache (cs out.2) = []
  /\ last_traces (cs out.2) = None
  /\ last_executed (cs out.2) = None.
Proof.
  intros s out.
  assert (Hr : out.1 = Raised (Exn "RuntimeError" "executable 13")) by reflexivity.
  destruct (raising_call_stores_nothing (example_cd_raising DYNAMIC_STRIDES) [] []
              [VScalar (SInt 0); example_tensor false [1; 2]] [] s _ Hr)
    as (Hc & Hlt & Hle).
  split; [exact Hr |]. split; [exact Hc |]. split; [exact Hlt | exact Hle].
Defined.

Lemma traced_miss_records_traces_witness :
  let s := example_state CompileStats_init [] in
  let out := _fn (example_cd DYNAMIC_STRIDES) [] []
               [VScalar (SInt 0); example_tensor false [1; 2]] [] s in
  traces_built out.2 = 1%nat
  /\ last_executed (cs out.2) = Some (Callable 5)
  /\ exists t added extraces,
      last_traces (cs out.2) = Some ((OTrace t :: added) ++ extraces).
Proof.
  intros s out.
  assert (Hret : out.1 = Returned (OValue (VScalar (SInt 5)))) by reflexivity.
  destruct (traced_miss_records_traces (example_cd DYNAMIC_STRIDES) [] []
              [VScalar (SInt 0); example_tensor false [1; 2]] [] s
              (OValue (VScalar (SInt 5))) eq_refl eq_refl eq_refl Hret)
    as (sa & t & s1 & sb & q & s2 & sc & x & c & extraces & s3
        & _ & _ & _ & _ & _ & _ & _ & _ & Hlt & (added & Hq) & Hl & Htb & _).
  split; [exact Htb |]. split; [reflexivity |].
  exists t, added, extraces. rewrite <- Hq. exact Hlt.
Defined.

(** ** Module adapter: names, indexes and partial writes *)


(** X20.  The parts that a name is split into at the dots give the name
    back when they are joined with dots; no part holds a dot, and there is
    one part more than there are dots in the name. *)
Theorem split_on_join sep (s : string) :
  String.concat (String sep EmptyString) (split_on sep s) = s
  /\ Forall (fun p => sep ∉ String.list_ascii_of_string p) (split_on sep s)
  /\ length (split_on sep s)
     = S (length (filter (fun c => c = sep) (String.list_ascii_of_string s))).
Proof.
  induction s as [|c s (IHj & IHf & IHl)]; simpl.
  - split; [done |]. split; [| done]. constructor; [| done]. by intros ?%elem_of_nil.
  - destruct (decide (c = sep)) as [->|Hne].
    + rewrite filter_cons_True by done. simpl.
      split; [| split; [| by rewrite IHl]].
      * destruct (split_on sep s) as [|p ps] eqn:Hs; [by apply split_on_nonempty in Hs |].
        by rewrite IHj.
      * constructor; [| done]. by intros ?%elem_of_nil.
    + rewrite filter_cons_False by done.
      destruct (split_on sep s) as [|p ps] eqn:Hs; [by apply split_on_nonempty in Hs |].
      split; [| split; [| done]].
      * simpl in *. destruct ps; simpl in *; rewrite <- IHj; reflexivity.
      * apply Forall_cons in IHf as [Hp Hps]. constructor; [| done].
        simpl. intros Hin. apply elem_of_cons in Hin as [?|?]; done.
Qed.





Section adapter_more.
Context {S : Type} (_forward_fn : list pyvalue -> kwargs_t -> S -> outcome pyvalue * S).

(** X22.  When the adapter has no extra-return names, or when the wrapped
    function raises, a call of the adapter has the outcome of the wrapped
    function on the parameter values followed by the arguments of the call:
    what it returns is not unpacked, and neither the model nor the parameter
    values are written. *)
Theorem adapter_passes_through tom args kwargs (s : tom_state S) :
  let run := _forward_fn (_additional_param_values s ++ args) kwargs (inner s) in
  let out := __call__ _forward_fn tom args kwargs s in
  _additional_return_names tom = [] \/ (exists e, run.1 = Raised e) ->
  out.1 = run.1
  /\ inner out.2 = run.2
  /\ store out.2 = store s
  /\ _additional_param_values out.2 = _additional_param_values s.
Proof.
  intros run out Hcase. subst run out. unfold __call__, bind, call_forward.
  destruct (_forward_fn _ kwargs (inner s)) as [[res|e] i]; simpl in *; [| done].
  destruct Hcase as [->|[e He]]; done.
Qed.

Lemma write_back_app tom (a b : list (string * pyvalue * nat)) (s : tom_state S) :
  write_back tom (a ++ b) s = (write_back tom a ;;; write_back tom b) s.
Proof.
  revert s. induction a as [|[[k v] idx] a IH]; intros s; [done |].
  cbn [app write_back]. rewrite !bind_run.
  destruct (write_back_one tom k v idx s) as [[[]|e] s1]; [| done].
  rewrite IH. by rewrite bind_run.
Qed.

(** X23.  The writes of the extra returns are not undone when one of them
    fails: the loop stops at the first write that raises, with the writes
    before it in place and none after it done.  The failing write itself has
    left the parameter values alone; it has either left the model alone too,
    or, when the index is past the end of the parameter values, set the
    attribute of the model before raising. *)
Theorem write_back_stops_at_first_failure
    tom (done_items rest : list (string * pyvalue * nat)) k v idx (s s1 s2 : tom_state S) e :
  write_back tom done_items s = (Returned tt, s1) ->
  write_back_one tom k v idx s1 = (Raised e, s2) ->
  write_back tom (done_items ++ (k, v, idx) :: rest) s = (Raised e, s2)
  /\ _additional_param_values s2 = _additional_param_values s1
  /\ (store s2 = store s1
      \/ exists l leaf o,
           target (store s1) (_model tom) k = Some (ARef l, leaf)
           /\ store s1 !! l = Some o
           /\ store s2 = <[l := <[leaf := AVal (slot_at o leaf) v]> o]> (store s1)
           /\ (length (_additional_param_values s1) <= idx)%nat).
Proof.
  intros Hdone Hfail. split.
  - rewrite write_back_app. unfold bind. rewrite Hdone. simpl. unfold bind.
    by rewrite Hfail.
  - unfold write_back_one, target, prefix_parts in *.
    destruct (traverse (store s1) (_model tom) _) as [m|]; [| by simplify_eq; auto].
    destruct (last (split_on "."%char k)) as [leaf|]; [| by simplify_eq; auto].
    destruct m as [l|sl x]; [| simpl in Hfail; by simplify_eq; auto].
    destruct (store s1 !! l) as [o|] eqn:Hl;
      [| unfold setattr in Hfail; rewrite Hl in Hfail; by simplify_eq; auto].
    rewrite (setattr_object _ _ _ _ _ Hl) in Hfail.
    destruct (accepts (slot_at o leaf) v); [| by simplify_eq; auto].
    destruct (decide (idx < length (_additional_param_values s1))%nat); [done |].
    simplify_eq. simpl. split; [done |]. right. exists l, leaf, o.
    repeat split; try done. lia.
Qed.

End adapter_more.

Lemma adapter_passes_through_witness :
  let out := __call__ (example_forward [example_tensor false [5; 6]]) example_tom_plain
               [VStr "x"] [] example_tom_state in
  out.1 = Returned (VSeq Tuple [VScalar (SInt 1); example_tensor false [5; 6]])
  /\ store out.2 = example_store
  /\ _additional_param_values out.2 = _additional_param_values example_tom_state.
Proof.
  intros out.
  destruct (adapter_passes_through (example_forward [example_tensor false [5; 6]])
              example_tom_plain [VStr "x"] [] example_tom_state (or_introl eq_refl))
    as (Hr & _ & Hs & Hp).
  split; [exact Hr |]. split; [exact Hs | exact Hp].
Defined.

Lemma write_back_stops_at_first_failure_witness :
  let v := example_tensor false [5; 6] in
  let out := @write_back unit example_tom
               [("bn.running_mean"%string, v, 2%nat); ("missing.x"%string, v, 1%nat);
                ("bn.running_var"%string, v, 3%nat)]
               example_tom_state in
  out.1 = Raised (Exn "AttributeError" "missing.x")
  /\ _additional_param_values out.2 !! 2%nat = Some v
  /\ _additional_param_values out.2 !! 1%nat = Some (example_tensor false [0; 0])
  /\ _additional_param_values out.2 !! 3%nat = Some (example_tensor false [1; 1]).
Proof.
  intros v out.
  assert (Hdone : exists s1,
             @write_back unit example_tom [("bn.running_mean"%string, v, 2%nat)]
               example_tom_state
             = (Returned tt, s1)
             /\ @write_back_one unit example_tom "missing.x" v 1 s1
                = (Raised (Exn "AttributeError" "missing.x"), s1)
             /\ _additional_param_values s1 !! 2%nat = Some v
             /\ _additional_param_values s1 !! 1%nat = Some (example_tensor false [0; 0])
             /\ _additional_param_values s1 !! 3%nat = Some (example_tensor false [1; 1])).
  { eexists. split; [vm_compute; reflexivity |]. split; [vm_compute; reflexivity |].
    repeat split; reflexivity. }
  destruct Hdone as (s1 & Hd & Hf & H2 & H1 & H3).
  destruct (write_back_stops_at_first_failure example_tom
              [("bn.running_mean"%string, v, 2%nat)] [("bn.running_var"%string, v, 3%nat)]
              "missing.x" v 1%nat example_tom_state s1 s1 _ Hd Hf) as (Hrun & _).
  subst out. simpl app in Hrun. rewrite Hrun. simpl.
  split; [reflexivity |]. split; [exact H2 |]. split; [exact H1 | exact H3].
Defined.

